(** * ci-dashboard: a shallow embedding of [cmd/github.go] and [cmd/show.go]

    The development follows the two Go files of the command package:

    - [Go]: the pieces of the Go language and standard library the program
      relies on (64-bit [int] arithmetic, IEEE-754 [float32]/[float64],
      [time.Duration], byte-wise string order, [path.Base],
      [slices.SortFunc]);
    - [Github]: the records of the go-github client the program reads;
    - [Fetch]: the three paged fetchers of [cmd/github.go];
    - [Show]: the aggregation, drill-down and log mining of [cmd/show.go];
    - [Pool]: the worker pool that [showCmd] spawns, as an interleaving
      transition system. *)

From Stdlib Require Import ZArith Lia Bool Ascii String List.
From Stdlib Require Import Sorting.Sorted Sorting.Permutation.
From Stdlib Require Import Floats.SpecFloat.
From stdpp Require Import base gmap strings list.

Local Open Scope Z_scope.

(* ===================================================================== *)
(** * Go: language and library primitives                                 *)
(* ===================================================================== *)

Module Go.

(** ** [int], [int64]: two's-complement wrap-around on 64 bits. *)

Definition minInt64 : Z := - 2 ^ 63.
Definition maxInt64 : Z := 2 ^ 63 - 1.

Definition wrap64 (z : Z) : Z := (z + 2 ^ 63) mod 2 ^ 64 - 2 ^ 63.

Definition in_int64 (z : Z) : Prop := minInt64 <= z <= maxInt64.

(** [len(s)] of a slice, as an [int]. *)
Definition len {A} (s : list A) : Z := Z.of_nat (length s).

(** [s[i]]: [None] stands for the index-out-of-range panic. *)
Definition index {A} (s : list A) (i : Z) : option A :=
  if (0 <=? i) then s !! Z.to_nat i else None.

(** [s[:n]] for [0 <= n <= len(s)]. *)
Definition slice_to {A} (s : list A) (n : Z) : list A := take (Z.to_nat n) s.

(** ** IEEE-754 binary64 and binary32, round to nearest even. *)

Definition float64 := spec_float.
Definition float32 := spec_float.

Definition f64_of_int (z : Z) : float64 := binary_normalize 53 1024 z 0 false.
Definition f64_add : float64 -> float64 -> float64 := SFadd 53 1024.
Definition f64_div : float64 -> float64 -> float64 := SFdiv 53 1024.

Definition f32_of_int (z : Z) : float32 := binary_normalize 24 128 z 0 false.
Definition f32_mul : float32 -> float32 -> float32 := SFmul 24 128.
Definition f32_sub : float32 -> float32 -> float32 := SFsub 24 128.
Definition f32_div : float32 -> float32 -> float32 := SFdiv 24 128.

Definition f_zero : spec_float := S754_zero false.

(** [x != 0] on floats: false for both zeros, true for NaN. *)
Definition f_neq_zero (x : spec_float) : bool := negb (SFeqb x f_zero).

(** The integer part of a finite float, truncated toward zero. *)
Definition f_trunc (x : spec_float) : option Z :=
  match x with
  | S754_zero _ => Some 0
  | S754_finite s m e =>
      let a := if 0 <=? e then Z.pos m * 2 ^ e else Z.pos m / 2 ^ (- e) in
      Some (if s then - a else a)
  | S754_infinity _ | S754_nan => None
  end.

Section Conversion.
(** A float-to-integer conversion whose value does not fit the target
    type succeeds with an implementation-dependent result (amd64 gives
    the smallest integer, arm64 saturates and maps NaN to 0). *)
Variable unrepresentable : spec_float -> Z.

Definition int64_of_float (x : spec_float) : Z :=
  match f_trunc x with
  | Some z => if (minInt64 <=? z) && (z <=? maxInt64) then z
              else wrap64 (unrepresentable x)
  | None => wrap64 (unrepresentable x)
  end.
End Conversion.

Definition amd64 (_ : spec_float) : Z := minInt64.

(** ** [time.Time] and [time.Duration] *)

(** An instant is a count of nanoseconds since the Unix epoch (the
    timestamps of the remote API carry no monotonic clock reading); a
    [Duration] is an [int64] count of nanoseconds. *)
Definition Time := Z.
Definition Duration := Z.

Definition Second : Duration := 1000000000.

(** [t.Sub(u)]: saturates at the largest and smallest [Duration]. *)
Definition Sub (t u : Time) : Duration :=
  Z.max minInt64 (Z.min maxInt64 (t - u)).

(** [d.Seconds()]:
    [sec := d / Second; nsec := d % Second;
     float64(sec) + float64(nsec)/1e9]. *)
Definition Seconds (d : Duration) : float64 :=
  f64_add (f64_of_int (Z.quot d Second))
          (f64_div (f64_of_int (Z.rem d Second)) (f64_of_int 1000000000)).

End Go.

Module GoPath.

(** ** [path.Base]

    [if path == "" { return "." }], strip trailing slashes, keep what
    follows the last slash, [if path == "" { return "/" }]. Strings are
    sequences of bytes; the recursion works on the bytes in reverse. *)

Definition slash : ascii := "/"%char.

Fixpoint strip_slashes (rev_path : list ascii) : list ascii :=
  match rev_path with
  | c :: rest => if Ascii.eqb c slash then strip_slashes rest else rev_path
  | [] => []
  end.

Fixpoint last_element (rev_path : list ascii) : list ascii :=
  match rev_path with
  | c :: rest => if Ascii.eqb c slash then [] else c :: last_element rest
  | [] => []
  end.

Definition Base (path : string) : string :=
  match path with
  | EmptyString => "."
  | _ =>
      let p := last_element (strip_slashes (rev (list_ascii_of_string path))) in
      match p with
      | [] => "/"
      | _ => string_of_list_ascii (rev p)
      end
  end.

End GoPath.

Module Slices.

(** ** [slices.SortFunc] and [slices.Sort]

    The library sorts a slice of at most 12 elements by insertion, moving
    [data[j]] to the left while [cmp(data[j], data[j-1]) < 0]:
<<
    for i := a + 1; i < b; i++ {
      for j := i; j > a && (cmp(data[j], data[j-1]) < 0); j-- {
        data[j], data[j-1] = data[j-1], data[j]
      }
    }
>>
    Longer slices go through pattern-defeating quicksort, which for a
    comparator that is a strict weak order yields a sorted permutation as
    well. The model is the insertion sort at every length. The already
    sorted prefix [data[a:i]] is kept in reverse, nearest neighbour
    first. *)

Section SortFunc.
Context {E : Type} (cmp : E -> E -> Z).

Fixpoint move_left (x : E) (rev_prefix : list E) : list E :=
  match rev_prefix with
  | y :: rest => if cmp x y <? 0 then y :: move_left x rest
                 else x :: rev_prefix
  | [] => [x]
  end.

Definition SortFunc (data : list E) : list E :=
  rev (fold_left (fun rev_prefix x => move_left x rev_prefix) data []).
End SortFunc.

(** [x] may come before [y] in a sorted slice: the sort never moves [y]
    to the left of [x]. *)
Definition may_precede {E : Type} (cmp : E -> E -> Z) (x y : E) : Prop :=
  (cmp y x <? 0) = false.

(** Go compares strings byte by byte. *)
Definition string_cmp (a b : string) : Z :=
  match String.compare a b with Lt => -1 | Eq => 0 | Gt => 1 end.

(** [slices.Sort] on a [[]string]: ascending in the order [<] of strings. *)
Definition Sort (data : list string) : list string := SortFunc string_cmp data.

End Slices.

(* ===================================================================== *)
(** * Github: the records of the go-github client                         *)
(* ===================================================================== *)

Module Github.

(** The getters of go-github return the zero value for an absent field;
    a field of the model holds what its getter returns. *)

Module WorkflowRun.
Record t := Make {
  GetID : Z;
  GetConclusion : string;
  GetHeadBranch : string;
  GetEvent : string;
  GetRunStartedAt : Go.Time;
  GetUpdatedAt : Go.Time
}.
End WorkflowRun.

Module TaskStep.
Record t := Make { GetName : string; GetConclusion : string }.
End TaskStep.

Module WorkflowJob.
Record t := Make {
  GetID : Z;
  GetName : string;
  GetConclusion : string;
  Steps : list TaskStep.t
}.
End WorkflowJob.

Module Workflow.
Record t := Make { GetPath : string }.
End Workflow.

Record ListOptions := { Page : Z }.

Record ListWorkflowRunsOptions := {
  Branch : string;
  Event : string;
  Created : string;
  RunsListOptions : ListOptions
}.

Record ListWorkflowJobsOptions := { JobsListOptions : ListOptions }.

Record Response := { NextPage : Z }.

(** A Go [error] value. *)
Definition error := string.

(** A call returns either a [RemoteError] or a page with its header. *)
Definition reply (A : Type) : Type := error + A * Response.

(** The remote source. A fetch numbers its requests from 0; the first
    argument of a listing is that number, so that a source may answer the
    same request differently over time. *)
Record Client := {
  ListWorkflows :
    nat -> string -> string -> ListOptions -> reply (list Workflow.t);
  ListWorkflowRunsByFileName :
    nat -> string -> string -> string -> ListWorkflowRunsOptions ->
    reply (list WorkflowRun.t);
  ListWorkflowJobs :
    nat -> string -> string -> Z -> ListWorkflowJobsOptions ->
    reply (list WorkflowJob.t);
  GetWorkflowJobLogs : string -> string -> Z -> Z -> error + string
}.

End Github.

(* ===================================================================== *)
(** * Fetch: the paged fetchers of [cmd/github.go]                        *)
(* ===================================================================== *)

Module Fetch.
Import Github.

(** What a fetch leaves behind: its exchanges with the remote source, in
    order, each a request and the reply to it, and the pair it returns. *)
Record traced (O A B : Type) := Traced {
  exchanges : list (O * reply (list A));
  returned : B * option error
}.
Arguments Traced {O A B} _ _.
Arguments exchanges {O A B} _.
Arguments returned {O A B} _.

(** The records of the pages among some replies, in order. *)
Definition records_of {A} (r : reply (list A)) : list A :=
  match r with
  | inr (page, _) => page
  | inl _ => []
  end.

(** Whether a reply ends a fetch whatever was accumulated: an error, or a
    page that announces no next one. *)
Definition final {A} (r : reply (list A)) : Prop :=
match r with
| inl _ => True
| inr (_, res) => NextPage res = 0
end.

Definition pages_of {O A} (xs : list (O * reply (list A))) : list A :=
  flat_map (fun x => records_of (snd x)) xs.

(** [run.GetConclusion() == "success" || run.GetConclusion() == "failure"] *)
Definition admissible (run : WorkflowRun.t) : bool :=
  String.eqb (WorkflowRun.GetConclusion run) "success"
  || String.eqb (WorkflowRun.GetConclusion run) "failure".

Section Client.
Variable client : Client.
Variables owner repo : string.

(** The [for { ... }] loops have no bound of their own: a source that
    never stops announcing a next page keeps them running. [fuel]
    bounds the number of iterations and [None] means it ran out. The
    number of the next request is the number of exchanges so far. *)

(** ** [getWorkflows] *)

Definition filepaths_of (workflows : list Workflow.t) : list string :=
  Slices.Sort (map (fun workflow => GoPath.Base (Workflow.GetPath workflow)) workflows).

Fixpoint getWorkflows_loop (fuel : nat)
    (sent : list (ListOptions * reply (list Workflow.t)))
    (listOptions : ListOptions) (workflows : list Workflow.t)
    : option (traced ListOptions Workflow.t (list string)) :=
  match fuel with
  | O => None
  | S fuel =>
      let r := ListWorkflows client (length sent) owner repo listOptions in
      let sent := sent ++ [(listOptions, r)] in
      match r with
      | inl err => Some (Traced sent ([], Some err))
      | inr (wf, res) =>
          let workflows := workflows ++ wf in
          if NextPage res =? 0
          then Some (Traced sent (filepaths_of workflows, None))
          else getWorkflows_loop fuel sent {| Page := NextPage res |} workflows
      end
  end.

Definition getWorkflows_traced (fuel : nat) :=
  getWorkflows_loop fuel [] {| Page := 0 |} [].

Definition getWorkflows (fuel : nat) : option (list string * option error) :=
  returned <$> getWorkflows_traced fuel.

(** ** [getWorkflowRuns] *)

Definition set_runs_page (o : ListWorkflowRunsOptions) (p : Z) :=
  {| Branch := Branch o; Event := Event o; Created := Created o;
     RunsListOptions := {| Page := p |} |}.

Definition keep_admissible (runs : list WorkflowRun.t) : list WorkflowRun.t :=
  filter (fun run => admissible run = true) runs.

(** [if len(workflowRuns) > count { return workflowRuns[:count], nil }].
    The slice expression panics when [count] is negative, which is then
    less than every length; [Go.slice_to] is the slice for
    [0 <= count <= len(workflowRuns)], so [capped] is what the fetch
    returns for [0 <= count] only. *)
Definition capped (count : Z) (workflowRuns : list WorkflowRun.t) : list WorkflowRun.t :=
  if Go.len workflowRuns >? count then Go.slice_to workflowRuns count
  else workflowRuns.

Section Runs.
Variables (workflow : string) (count : Z).

Fixpoint getWorkflowRuns_loop (fuel : nat)
    (sent : list (ListWorkflowRunsOptions * reply (list WorkflowRun.t)))
    (listOptions : ListWorkflowRunsOptions) (workflowRuns : list WorkflowRun.t)
    : option (traced ListWorkflowRunsOptions WorkflowRun.t (list WorkflowRun.t)) :=
  match fuel with
  | O => None
  | S fuel =>
      let r := ListWorkflowRunsByFileName client (length sent)
                 owner repo workflow listOptions in
      let sent := sent ++ [(listOptions, r)] in
      match r with
      | inl err => Some (Traced sent (workflowRuns, Some err))
      | inr (runs, res) =>
          let workflowRuns := workflowRuns ++ keep_admissible runs in
          if (NextPage res =? 0) || (Go.len workflowRuns >=? count)
          then Some (Traced sent (capped count workflowRuns, None))
          else getWorkflowRuns_loop fuel sent
                 (set_runs_page listOptions (NextPage res)) workflowRuns
      end
  end.

(** Modelled from the spec: the [created] argument. [showCmd] passes
    it as the ninth argument of [getWorkflowRuns], whose listing in
    [cmd/github.go] stops at [count]; following the spec's "paged
    listing of runs by workflow file name, branch, trigger-event, and
    a created >= <RFC3339 timestamp> filter" it is placed in the
    query options next to [Branch] and [Event]. *)
Definition getWorkflowRuns_traced (branch event created : string) (fuel : nat) :=
  getWorkflowRuns_loop fuel []
    {| Branch := branch; Event := event; Created := created;
       RunsListOptions := {| Page := 0 |} |} [].

Definition getWorkflowRuns (branch event created : string) (fuel : nat)
    : option (list WorkflowRun.t * option error) :=
  returned <$> getWorkflowRuns_traced branch event created fuel.
End Runs.

(** ** [getJobs] *)

Fixpoint getJobs_loop (runID : Z) (fuel : nat)
    (sent : list (ListWorkflowJobsOptions * reply (list WorkflowJob.t)))
    (listOptions : ListWorkflowJobsOptions) (result : list WorkflowJob.t)
    : option (traced ListWorkflowJobsOptions WorkflowJob.t (list WorkflowJob.t)) :=
  match fuel with
  | O => None
  | S fuel =>
      let r := ListWorkflowJobs client (length sent) owner repo runID listOptions in
      let sent := sent ++ [(listOptions, r)] in
      match r with
      | inl err => Some (Traced sent (result, Some err))
      | inr (jobs, res) =>
          let result := result ++ jobs in
          if NextPage res =? 0
          then Some (Traced sent (result, None))
          else getJobs_loop runID fuel sent
                 {| JobsListOptions := {| Page := NextPage res |} |} result
      end
  end.

Definition getJobs_traced (runID : Z) (fuel : nat) :=
  getJobs_loop runID fuel [] {| JobsListOptions := {| Page := 0 |} |} [].

Definition getJobs (runID : Z) (fuel : nat)
    : option (list WorkflowJob.t * option error) :=
  returned <$> getJobs_traced runID fuel.

End Client.

(** ** The common shape of the three loops *)

Section Paged.
Context {Q A B R : Type}.
Variable call : nat -> Q -> reply (list A).   (* the listing *)
Variable turn : Q -> Z -> Q.                  (* [listOptions.Page = res.NextPage] *)
Variable keep : list A -> list B.             (* what a page adds *)
Variable stop : list B -> bool.               (* the cap, if any *)
Variable done : list B -> R.                  (* returned with [nil] *)
Variable failed : list B -> R.                (* returned with the error *)

Fixpoint paged_loop (fuel : nat) (sent : list (Q * reply (list A)))
    (o : Q) (acc : list B) : option (traced Q A R) :=
  match fuel with
  | O => None
  | S fuel =>
      let r := call (length sent) o in
      let sent := sent ++ [(o, r)] in
      match r with
      | inl err => Some (Traced sent (failed acc, Some err))
      | inr (page, res) =>
          let acc := acc ++ keep page in
          if (NextPage res =? 0) || stop acc
          then Some (Traced sent (done acc, None))
          else paged_loop fuel sent (turn o (NextPage res)) acc
      end
  end.

(** What a reply adds to the accumulated records. *)
Definition added (r : reply (list A)) : list B :=
  match r with
  | inr (page, _) => keep page
  | inl _ => []
  end.

(** What the loop returns, given what is accumulated and the error of
    the last request, if any. *)
Definition outcome (acc : list B) (e : option error) : R * option error :=
  match e with
  | Some err => (failed acc, Some err)
  | None => (done acc, None)
  end.

(** The runs of the loop without the bound: from request number [k],
    options [o] and [acc] accumulated, the exchanges that follow, what
    is accumulated at the end, and the error if the last request
    failed. *)
Inductive walk : nat -> Q -> list B -> list (Q * reply (list A)) ->
                 list B -> option error -> Prop :=
| walk_error k o acc err :
    call k o = inl err ->
    walk k o acc [(o, inl err)] acc (Some err)
| walk_last k o acc page res :
    call k o = inr (page, res) ->
    (NextPage res =? 0) || stop (acc ++ keep page) = true ->
    walk k o acc [(o, inr (page, res))] (acc ++ keep page) None
| walk_next k o acc page res more acc' e :
    call k o = inr (page, res) ->
    (NextPage res =? 0) || stop (acc ++ keep page) = false ->
    walk (S k) (turn o (NextPage res)) (acc ++ keep page) more acc' e ->
    walk k o acc ((o, inr (page, res)) :: more) acc' e.
End Paged.

(** ** The three loops as instances of the common shape *)

Section Instances.
Variable client : Client.
Variables owner repo : string.

Definition workflows_call (k : nat) (o : ListOptions) :=
  ListWorkflows client k owner repo o.
Definition workflows_turn (_ : ListOptions) (p : Z) : ListOptions := {| Page := p |}.

Definition runs_call (workflow : string) (k : nat) (o : ListWorkflowRunsOptions) :=
  ListWorkflowRunsByFileName client k owner repo workflow o.
Definition runs_stop (count : Z) (workflowRuns : list WorkflowRun.t) : bool :=
  Go.len workflowRuns >=? count.

Definition jobs_call (runID : Z) (k : nat) (o : ListWorkflowJobsOptions) :=
  ListWorkflowJobs client k owner repo runID o.
Definition jobs_turn (_ : ListWorkflowJobsOptions) (p : Z) : ListWorkflowJobsOptions :=
  {| JobsListOptions := {| Page := p |} |}.

(** The first request of [getWorkflowRuns]. *)
Definition runs_query (branch event created : string) : ListWorkflowRunsOptions :=
  {| Branch := branch; Event := event; Created := created;
     RunsListOptions := {| Page := 0 |} |}.
End Instances.

End Fetch.

(* ===================================================================== *)
(** * Dashboard: the aggregation of [cmd/show.go]                         *)
(* ===================================================================== *)

Module Dashboard.
Import Github.

(** What a function that may panic or loop yields. *)
Inductive exec (A : Type) : Type :=
| Returns (a : A)
| Panics
| OutOfFuel.
Arguments Returns {A} _.
Arguments Panics {A}.
Arguments OutOfFuel {A}.

(** A rendered duration cell: the text ["N/A"] or [d.String()]. *)
Inductive duration_cell : Type :=
| NA
| Shown (d : Go.Duration).

Definition is_success (run : WorkflowRun.t) : bool :=
  String.eqb (WorkflowRun.GetConclusion run) "success".

(** [runs[i].GetUpdatedAt().Time.Sub(runs[i].GetRunStartedAt().Time).Seconds()] *)
Definition run_seconds (run : WorkflowRun.t) : Go.float64 :=
  Go.Seconds (Go.Sub (WorkflowRun.GetUpdatedAt run) (WorkflowRun.GetRunStartedAt run)).

(** The inner loop shared by [printDashboard] and [printSummary]:
<<
    success := 0
    var totalSeconds float64
    for i := 0; i < count; i++ {
      if runs[i].GetConclusion() == "success" {
        success++
        totalSeconds += runs[i]...Seconds()
      }
    }
>>
    It reads [runs[0]] to [runs[count-1]], an index out of range panics. *)
Definition tally_step (acc : Z * Go.float64) (run : WorkflowRun.t) : Z * Go.float64 :=
  if is_success run
  then (Go.wrap64 (fst acc + 1), Go.f64_add (snd acc) (run_seconds run))
  else acc.

Definition tally (runs : list WorkflowRun.t) (count : Z) : option (Z * Go.float64) :=
  if Go.len runs <? count then None
  else Some (fold_left tally_step (Go.slice_to runs count) (0, Go.f_zero)).

(** [100 * float32(success) / float32(count)] *)
Definition rate (success count : Z) : Go.float32 :=
  Go.f32_div (Go.f32_mul (Go.f32_of_int 100) (Go.f32_of_int success))
             (Go.f32_of_int count).

Section Arch.
Variable unrepresentable : spec_float -> Z.

(** [time.Second * time.Duration(totalSeconds/float64(success))] *)
Definition mean_duration (totalSeconds : Go.float64) (success : Z) : Go.Duration :=
  Go.wrap64 (Go.Second *
             Go.int64_of_float unrepresentable
               (Go.f64_div totalSeconds (Go.f64_of_int success))).

(** ** [printDashboard]: one row per window. *)

Record WindowRow := {
  row_from : Go.Time;
  row_to : Go.Time;
  row_avgDuration : duration_cell;
  row_successRate : Go.float32;
  row_success : Z;
  row_count : Z
}.

(** The body of the window loop for one value of [count]. *)
Definition window_row (runs : list WorkflowRun.t) (count : Z) : option WindowRow :=
  from ← Go.index runs (count - 1);
  to ← Go.index runs 0;
  st ← tally runs count;
  let '(success, totalSeconds) := st in
  let avgDuration :=
    if Go.f_neq_zero totalSeconds
    then Shown (mean_duration totalSeconds success)
    else NA in
  Some {| row_from := WorkflowRun.GetRunStartedAt from;
          row_to := WorkflowRun.GetRunStartedAt to;
          row_avgDuration := avgDuration;
          row_successRate := rate success count;
          row_success := success;
          row_count := count |}.

(** [for ; len(runs) >= count; count *= 2 { ... }] *)
Fixpoint window_loop (fuel : nat) (runs : list WorkflowRun.t) (count : Z)
    : exec (list WindowRow) :=
  if Go.len runs >=? count then
    match fuel with
    | O => OutOfFuel
    | S fuel =>
        match window_row runs count with
        | None => Panics
        | Some row =>
            match window_loop fuel runs (Go.wrap64 (count * 2)) with
            | Returns rows => Returns (row :: rows)
            | Panics => Panics
            | OutOfFuel => OutOfFuel
            end
        end
    end
  else Returns [].

(** The table that [printDashboard] writes below the workflow's title.
    The window size doubles, so 64 iterations exhaust the [int] range;
    the loop is given as many. *)
Definition printDashboard (runs : list WorkflowRun.t) : exec (list WindowRow) :=
  let count := Z.min (Go.len runs) 4 in
  if Go.len runs =? 0 then Returns []
  else window_loop 64 runs count.

Definition window_sizes (rows : list WindowRow) : list Z := map row_count rows.

(** ** [printSummary] *)

Record workflowStats := {
  workflow : string;
  from : Go.Time;
  to : Go.Time;
  averageDuration : Go.Duration;
  successRate : Go.float32;
  success : Z;
  count : Z
}.

(** The body of [for workflow, runs := range result]; [None] is the
    [continue] for a workflow without runs. *)
Definition stats_of (wf : string) (runs : list WorkflowRun.t) : option workflowStats :=
  if Go.len runs =? 0 then None
  else
    let count := Go.len runs in
    from ← Go.index runs (count - 1);
    to ← Go.index runs 0;
    st ← tally runs count;
    let '(success, totalSeconds) := st in
    Some {| workflow := wf;
            from := WorkflowRun.GetRunStartedAt from;
            to := WorkflowRun.GetRunStartedAt to;
            averageDuration := mean_duration totalSeconds success;
            successRate := rate success count;
            success := success;
            count := count |}.

(** [result] lists the entries of the map in the order in which the
    [range] loop visits them, which Go leaves unspecified. *)
Definition statsList_of (result : list (string * list WorkflowRun.t)) : list workflowStats :=
  omap (fun entry => stats_of (fst entry) (snd entry)) result.

(** [int(a.successRate - b.successRate)] *)
Definition by_successRate (a b : workflowStats) : Z :=
  Go.int64_of_float unrepresentable (Go.f32_sub (successRate a) (successRate b)).

(** [int(b.averageDuration - a.averageDuration)] *)
Definition by_averageDuration (a b : workflowStats) : Z :=
  Go.wrap64 (averageDuration b - averageDuration a).

(** [for i, stats := range statsList { if i >= top { break }; ... }] *)
Definition top_rows {A} (top : Z) (statsList : list A) : list A :=
  take (Z.to_nat top) statsList.

(** The rows of the success-rate table and of the average-duration
    table; the second sort starts from the outcome of the first. *)
Definition printSummary (result : list (string * list WorkflowRun.t)) (top : Z)
    : list workflowStats * list workflowStats :=
  let statsList := statsList_of result in
  let statsList := Slices.SortFunc by_successRate statsList in
  let rate_table := top_rows top statsList in
  let statsList := Slices.SortFunc by_averageDuration statsList in
  let duration_table := top_rows top statsList in
  (rate_table, duration_table).

(** The average-duration cell of a summary row is [stats.averageDuration]
    printed with [%s]. *)
Definition summary_duration_cell (stats : workflowStats) : duration_cell :=
  Shown (averageDuration stats).

End Arch.

(** The sizes [count], [2 count], ..., [2^(n-1) count]. *)
Definition doubling (count : Z) (n : nat) : list Z :=
  map (fun k => count * 2 ^ Z.of_nat k) (seq 0 n).

End Dashboard.

(* ===================================================================== *)
(** * Regexp: the three patterns of [analyzeLogs]                         *)
(* ===================================================================== *)

Module Regexp.
Local Open Scope string_scope.

(** The package matches leftmost-first with greedy repetition, and the
    dot stops at a line feed. The three patterns are made of ASCII
    literals around one repetition, so matching bytes and matching runes
    select the same substrings.

    - the test pattern: the literal [Test], a space and an opening
      bracket, then a captured greedy run of any bytes but line feeds,
      then a closing bracket and a colon;
    - the error pattern: a space and the literal [level=error], then a
      greedy run of any bytes but line feeds;
    - the message pattern: the literal [msg=] and a double quote, then a
      captured greedy run of one or more bytes other than a double quote,
      then a double quote. *)

Definition dquote : ascii := ascii_of_nat 34.
Definition newline : ascii := ascii_of_nat 10.

Definition msg_open : string := "msg=" ++ String dquote EmptyString.

Fixpoint has_prefix (p s : string) : bool :=
  match p, s with
  | EmptyString, _ => true
  | String a p', String b s' => Ascii.eqb a b && has_prefix p' s'
  | String _ _, EmptyString => false
  end.

Fixpoint drop_string (n : nat) (s : string) : string :=
  match n, s with
  | O, _ => s
  | S n', String _ s' => drop_string n' s'
  | S _, EmptyString => EmptyString
  end.

Fixpoint take_string (n : nat) (s : string) : string :=
  match n, s with
  | O, _ => EmptyString
  | S n', String c s' => String c (take_string n' s')
  | S _, EmptyString => EmptyString
  end.

(** The longest prefix that the repetition of the dot can cover. *)
Fixpoint line_of (s : string) : string :=
  match s with
  | EmptyString => EmptyString
  | String c s' => if Ascii.eqb c newline then EmptyString else String c (line_of s')
  end.

(** The longest prefix free of double quotes. *)
Fixpoint unquoted_of (s : string) : string :=
  match s with
  | EmptyString => EmptyString
  | String c s' => if Ascii.eqb c dquote then EmptyString else String c (unquoted_of s')
  end.

(** The position of the last occurrence of [needle] in [s], counted from
    [i]; [found] is the last one seen so far. *)
Fixpoint last_index_from (needle s : string) (i : nat) (found : option nat) : option nat :=
  let found := if has_prefix needle s then Some i else found in
  match s with
  | EmptyString => found
  | String _ s' => last_index_from needle s' (S i) found
  end.

(** Whether the byte [c] occurs in [s], and whether [needle] does. *)
Fixpoint has_char (c : ascii) (s : string) : bool :=
  match s with
  | EmptyString => false
  | String a s' => Ascii.eqb a c || has_char c s'
  end.

Fixpoint occurs (needle s : string) : bool :=
  has_prefix needle s
  || match s with
     | EmptyString => false
     | String _ s' => occurs needle s'
     end.

(** A match of the test pattern that starts at the head of [s]: the
    submatches and the length of the match. The greedy run gives up bytes
    until the closing bracket and colon follow, so the capture ends at
    their last occurrence in the line. *)
Definition test_here (s : string) : option (list string * nat) :=
  if has_prefix "Test [" s then
    let t := drop_string 6 s in
    match last_index_from "]:" (line_of t) 0 None with
    | Some j => Some ([take_string (6 + j + 2) s; take_string j t], (6 + j + 2)%nat)
    | None => None
    end
  else None.

(** A match of the error pattern at the head of [s]. *)
Definition error_here (s : string) : option (list string * nat) :=
  if has_prefix " level=error" s then
    let whole := " level=error" ++ line_of (drop_string 12 s) in
    Some ([whole], String.length whole)
  else None.

(** A match of the message pattern at the head of [s]. *)
Definition msg_here (s : string) : option (list string * nat) :=
  if has_prefix msg_open s then
    let t := drop_string 5 s in
    let payload := unquoted_of t in
    match payload with
    | EmptyString => None
    | _ =>
        if has_prefix (String dquote EmptyString) (drop_string (String.length payload) t)
        then Some ([take_string (5 + String.length payload + 1) s; payload],
                   (5 + String.length payload + 1)%nat)
        else None
    end
  else None.

(** ** Logs made of lines *)

(** The text made of these lines, each followed by a line feed. *)
Definition body_of (lines : list string) : string :=
  fold_right (fun line acc => line ++ String newline acc) EmptyString lines.

(** A line that reports the failure of the test [name]. *)
Definition test_line (name suffix : string) : string :=
  "Test [" ++ name ++ "]:" ++ suffix.

(** What may follow on such a line: no line feed, no closing bracket with
    a colon, no other report. *)
Definition quiet (suffix : string) : Prop :=
  has_char newline suffix = false
  /\ occurs "]:" (String ":" suffix) = false
  /\ occurs "Test [" suffix = false.

(** [needle] does not start within [stamp] when [needle] follows it. *)
Definition first_after (needle stamp : string) : Prop :=
  forall d, (d < String.length stamp)%nat ->
            has_prefix needle (drop_string d (stamp ++ needle)) = false.

(** An error line: a time stamp or the like, the level, the message. *)
Definition error_line (stamp payload tail : string) : string :=
  stamp ++ " level=error " ++ msg_open ++ payload ++ String dquote tail.

(** The error text of such a line, from the space before the level. *)
Definition error_text (payload tail : string) : string :=
  " level=error " ++ msg_open ++ payload ++ String dquote tail.

(** What an error line must be made of. *)
Definition error_line_ok (stamp payload tail : string) : Prop :=
  first_after " level=error" stamp
  /\ payload <> EmptyString
  /\ has_char dquote payload = false
  /\ has_char newline payload = false
  /\ has_char newline tail = false.

Section Find.
(** The matcher of one pattern at the head of the text. A match of
    these patterns is never empty. *)
Variable here : string -> option (list string * nat).

(** [FindAllStringSubmatch(s, n)]: the successive non-overlapping
    matches, leftmost first, at most [n] of them. [skip] counts the
    bytes of the previous match still to be passed. *)
Fixpoint find_all (s : string) (skip : nat) (n : Z) : list (list string) :=
  match s with
  | EmptyString => []
  | String _ s' =>
      match skip with
      | S k => find_all s' k n
      | O =>
          if (n <=? 0)%Z then []
          else
            match here s with
            | Some (m, l) => m :: find_all s' (l - 1)%nat (n - 1)
            | None => find_all s' 0%nat n
            end
      end
  end.

Definition FindAllStringSubmatch (s : string) (n : Z) : list (list string) :=
  find_all s 0%nat n.

(** [FindStringSubmatch(s)]: the leftmost match, [nil] without one. *)
Fixpoint FindStringSubmatch (s : string) : list string :=
  match here s with
  | Some (m, _) => m
  | None =>
      match s with
      | EmptyString => []
      | String _ s' => FindStringSubmatch s'
      end
  end.
End Find.

End Regexp.

(* ===================================================================== *)
(** * Drilldown and log mining of [cmd/show.go]                           *)
(* ===================================================================== *)

Module Counts.

(** The counting idiom of [cmd/show.go]:
<<
    count, ok := m[name]
    if ok { m[name] = count + 1 } else { m[name] = 1 }
>>
*)
Definition bump (name : string) (m : gmap string Z) : gmap string Z :=
  match m !! name with
  | Some count => <[name := Go.wrap64 (count + 1)]> m
  | None => <[name := 1]> m
  end.

(** The count shown for [name]: an absent key counts for nothing. *)
Definition count_of (m : gmap string Z) (name : string) : Z := default 0 (m !! name).

End Counts.

Module Drilldown.
Import Github Counts.

(** The maps and the list that the workers of [printDetailedDashboard]
    share, and update under [mux]. *)
Record state := {
  failedJobCount : gmap string Z;
  failedStepCount : gmap string Z;
  cancelledStepCount : gmap string Z;
  logsURLs : list string
}.

Definition init : state :=
  {| failedJobCount := ∅; failedStepCount := ∅; cancelledStepCount := ∅;
     logsURLs := [] |}.

(** The body of [for _, step := range job.Steps]. *)
Definition record_step (st : state) (step : TaskStep.t) : state :=
  if String.eqb (TaskStep.GetConclusion step) "failure" then
    {| failedJobCount := failedJobCount st;
       failedStepCount := bump (TaskStep.GetName step) (failedStepCount st);
       cancelledStepCount := cancelledStepCount st;
       logsURLs := logsURLs st |}
  else if String.eqb (TaskStep.GetConclusion step) "cancelled" then
    {| failedJobCount := failedJobCount st;
       failedStepCount := failedStepCount st;
       cancelledStepCount := bump (TaskStep.GetName step) (cancelledStepCount st);
       logsURLs := logsURLs st |}
  else st.

(** How many of [steps] have this conclusion and this name. *)
Definition steps_with (conclusion name : string) (steps : list TaskStep.t) : Z :=
  Go.len (filter (fun step => TaskStep.GetConclusion step = conclusion
                              /\ TaskStep.GetName step = name) steps).

(** The jobs whose conclusion is [failure], how many of them have this
    name, and their steps. *)
Definition failed_jobs (jobs : list WorkflowJob.t) : list WorkflowJob.t :=
filter (fun job => WorkflowJob.GetConclusion job = "failure"%string) jobs.

Definition jobs_named (name : string) (jobs : list WorkflowJob.t) : Z :=
Go.len (filter (fun job => WorkflowJob.GetName job = name) (failed_jobs jobs)).

Definition failed_steps (jobs : list WorkflowJob.t) : list TaskStep.t :=
flat_map WorkflowJob.Steps (failed_jobs jobs).

Section Client.
Variable client : Client.
Variables owner repo : string.

(** The body of [for _, job := range jobs]: the request for the log
    reference, then the section between [mux.Lock()] and
    [mux.Unlock()]. *)
Definition record_job (st : state) (job : WorkflowJob.t) : state :=
  if String.eqb (WorkflowJob.GetConclusion job) "failure" then
    let logs := GetWorkflowJobLogs client owner repo (WorkflowJob.GetID job) 10 in
    let st :=
      match logs with
      | inr logsURL =>
          {| failedJobCount := failedJobCount st;
             failedStepCount := failedStepCount st;
             cancelledStepCount := cancelledStepCount st;
             logsURLs := logsURLs st ++ [logsURL] |}
      | inl _ => st
      end in
    let st :=
      {| failedJobCount := bump (WorkflowJob.GetName job) (failedJobCount st);
         failedStepCount := failedStepCount st;
         cancelledStepCount := cancelledStepCount st;
         logsURLs := logsURLs st |} in
    fold_left record_step (WorkflowJob.Steps job) st
  else st.

(** The body of [for runID := range tasks]; an error of [getJobs] is
    logged and the loop continues with the next task. [None]: the fetch
    ran out of fuel. *)
Definition worker_task (fuel : nat) (st : state) (runID : Z) : option state :=
  match Fetch.getJobs client owner repo runID fuel with
  | None => None
  | Some (_, Some _) => Some st
  | Some (jobs, None) => Some (fold_left record_job jobs st)
  end.

(** What the producer sends: [run.GetID()] of each run whose conclusion
    is [failure]. *)
Definition tasks_of (runs : list WorkflowRun.t) : list Z :=
  map WorkflowRun.GetID
    (filter (fun run => String.eqb (WorkflowRun.GetConclusion run) "failure" = true) runs).

Fixpoint run_tasks (fuel : nat) (st : state) (tasks : list Z) : option state :=
  match tasks with
  | [] => Some st
  | runID :: tasks =>
      match worker_task fuel st runID with
      | Some st => run_tasks fuel st tasks
      | None => None
      end
  end.

(** The state at [wg.Wait()] when the tasks are served in the order in
    which they are sent. *)
Definition printDetailedDashboard (fuel : nat) (runs : list WorkflowRun.t) : option state :=
  run_tasks fuel init (tasks_of runs).

(** The jobs that get to [for _, job := range jobs]: those of the tasks
    whose [getJobs] returned without an error. *)
Definition jobs_counted (fuel : nat) (tasks : list Z) : list WorkflowJob.t :=
  flat_map (fun runID =>
              match Fetch.getJobs client owner repo runID fuel with
              | Some (jobs, None) => jobs
              | _ => []
              end) tasks.

(** The references obtained for the failed ones among [jobs]. *)
Definition logs_of (jobs : list WorkflowJob.t) : list string :=
  omap (fun job =>
          match GetWorkflowJobLogs client owner repo (WorkflowJob.GetID job) 10 with
          | inr logsURL => Some logsURL
          | inl _ => None
          end) (failed_jobs jobs).
End Client.
End Drilldown.

Module LogMiner.
Import Counts.
Local Open Scope string_scope.

(** What the workers of [analyzeLogs] share. *)
Record state := {
  failedTestCount : gmap string Z;
  errors : list string;
  errorURLs : list string
}.

Definition init : state :=
  {| failedTestCount := ∅; errors := []; errorURLs := [] |}.

(** The body of the first [for _, match := range matches]. *)
Definition record_test (logsURL : string) (st : state) (m : list string) : state :=
  match m with
  | [_; name] =>
      {| failedTestCount := bump name (failedTestCount st);
         errors := errors st;
         errorURLs := if String.eqb name "check-log-errors"
                      then errorURLs st ++ [logsURL] else errorURLs st |}
  | _ => st
  end.

(** The body of the second one: every submatch is appended. *)
Definition record_error (st : state) (m : list string) : state :=
  {| failedTestCount := failedTestCount st;
     errors := errors st ++ m;
     errorURLs := errorURLs st |}.

(** One retrieved body, between [mux.Lock()] and [mux.Unlock()]. *)
Definition mine_body (logsURL body : string) (st : state) : state :=
  let matches := Regexp.FindAllStringSubmatch Regexp.test_here body 10000 in
  let st := fold_left (record_test logsURL) matches st in
  let matches := Regexp.FindAllStringSubmatch Regexp.error_here body 10000 in
  fold_left record_error matches st.

(** The loop over [errors] after [wg.Wait()]. *)
Definition record_message (errorLogCount : gmap string Z) (errorMessage : string)
    : gmap string Z :=
  match Regexp.FindStringSubmatch Regexp.msg_here errorMessage with
  | [_; payload] => bump payload errorLogCount
  | _ => errorLogCount
  end.

Definition errorLogCount_of (errors : list string) : gmap string Z :=
  fold_left record_message errors ∅.

Section Http.
(** [http.Get] followed by [io.ReadAll]: the body, or an error. *)
Variable http_get : string -> Github.error + string.

(** The body of [for logsURL := range tasks]. *)
Definition worker_task (st : state) (logsURL : string) : state :=
  match http_get logsURL with
  | inl _ => st
  | inr body => mine_body logsURL body st
  end.

(** The two frequency tables and the diagnostic locators, the
    references being served in the order in which they are sent. *)
Definition analyzeLogs (logsURLs : list string)
    : gmap string Z * gmap string Z * list string :=
  let st := fold_left worker_task logsURLs init in
  (failedTestCount st, errorLogCount_of (errors st), errorURLs st).

(** The references whose body was retrieved, each with its body. *)
Definition retrieved (logsURLs : list string) : list (string * string) :=
  omap (fun logsURL =>
          match http_get logsURL with
          | inr body => Some (logsURL, body)
          | inl _ => None
          end) logsURLs.
End Http.

(** The second submatch of each match that has two submatches. *)
Definition captures (matches : list (list string)) : list string :=
  omap (fun m => match m with [_; name] => Some name | _ => None end) matches.

(** The payloads that the loop over [errors] counts. *)
Definition payloads (errors : list string) : list string :=
  captures (map (Regexp.FindStringSubmatch Regexp.msg_here) errors).

(** The tables mined from one body alone. *)
Definition mine (body : string) : gmap string Z * gmap string Z :=
  let st := mine_body "log" body init in
  (failedTestCount st, errorLogCount_of (errors st)).

(** The names that the first pattern captures in [body], and among them
    the reports of the test [check-log-errors]. *)
Definition tests_of (body : string) : list string :=
  captures (Regexp.FindAllStringSubmatch Regexp.test_here body 10000).

Definition sentinel_reports (body : string) : list string :=
  filter (fun name => name = "check-log-errors") (tests_of body).

(** The texts that the second pattern matches in [body]. *)
Definition errors_of (body : string) : list string :=
  concat (Regexp.FindAllStringSubmatch Regexp.error_here body 10000).

End LogMiner.

(* ===================================================================== *)
(** * ShowCmd: the command of [cmd/show.go]                               *)
(* ===================================================================== *)

Module ShowCmd.
Import Github.
Local Open Scope string_scope.

Definition Hour : Go.Duration := 3600 * Go.Second.

Section Clock.
(** [time.Now()] and [Time.Format(time.RFC3339)]. *)
Variable now : Go.Time.
Variable Format_RFC3339 : Go.Time -> string.

(** [d := time.Duration(days) * 24 * time.Hour; from := now.Add(-d)] *)
Definition daysToTimeRange (days : Z) : string :=
  let d := Go.wrap64 (Go.wrap64 (days * 24) * Hour) in
  let from := now + Go.wrap64 (- d) in
  ">=" ++ Format_RFC3339 from.
End Clock.

Section Cmd.
Variable client : Client.
Variables (owner repo : string).

(** The workflows to show and the [details] flag, or the error that
    [RunE] returns: [if workflowFlag != ""] the one workflow named,
    otherwise those that [getWorkflows] discovers. *)
Definition discover (fuel : nat) (workflowFlag : string)
    : option (error + list string * bool) :=
  if negb (String.eqb workflowFlag EmptyString)
  then Some (inr ([workflowFlag], true))
  else
    match Fetch.getWorkflows client owner repo fuel with
    | None => None
    | Some (_, Some err) => Some (inl err)
    | Some (wf, None) => Some (inr (wf, false))
    end.

Variables (branch event : string) (numRuns : Z) (created : string).

(** What a worker does with one workflow read from [tasks]: an error is
    logged and the worker continues, otherwise [result[workflow] = runs]
    under [mux]. As a function of the item, for [Pool]: *)
Definition workFn (fuel : nat) (workflow : string) : option (list WorkflowRun.t) :=
  match Fetch.getWorkflowRuns client owner repo workflow numRuns branch event created fuel with
  | Some (runs, None) => Some runs
  | _ => None
  end.

Definition worker_task (fuel : nat) (result : gmap string (list WorkflowRun.t))
    (workflow : string) : option (gmap string (list WorkflowRun.t)) :=
  match Fetch.getWorkflowRuns client owner repo workflow numRuns branch event created fuel with
  | None => None
  | Some (_, Some _) => Some result
  | Some (runs, None) => Some (<[workflow := runs]> result)
  end.

(** The map at [wg.Wait()] when the workflows are served in the order
    in which they are sent. *)
Fixpoint collect (fuel : nat) (result : gmap string (list WorkflowRun.t))
    (workflows : list string) : option (gmap string (list WorkflowRun.t)) :=
  match workflows with
  | [] => Some result
  | workflow :: workflows =>
      match worker_task fuel result workflow with
      | Some result => collect fuel result workflows
      | None => None
      end
  end.

End Cmd.

Section RunE.
Variable client : Client.
Variable now : Go.Time.
Variable Format_RFC3339 : Go.Time -> string.
Variables (owner repo branch event : string) (numRuns days : Z).

(** [RunE] up to [wg.Wait()]: the error returned, or the map handed to
    the printers together with [details]. *)
Definition showCmd (fuel : nat) (workflowFlag : string)
    : option (error + gmap string (list WorkflowRun.t) * bool) :=
  let created := daysToTimeRange now Format_RFC3339 days in
  match discover client owner repo fuel workflowFlag with
  | None => None
  | Some (inl err) => Some (inl err)
  | Some (inr (workflows, details)) =>
      match collect client owner repo branch event numRuns created fuel ∅ workflows with
      | None => None
      | Some result => Some (inr (result, details))
      end
  end.
End RunE.
End ShowCmd.

(* ===================================================================== *)
(** * Pool: the workers of [showCmd] as a transition system              *)
(* ===================================================================== *)

Module Pool.

(** [tasks] is an unbuffered channel: a send completes when a worker
    receives. A worker either waits at [range tasks], or holds the item it
    received, or has called [wg.Done()]. The call of the work function and
    the section under [mux] that stores its outcome form one step: the
    call reads nothing that the workers share, and the lock serialises the
    stores. *)

Inductive worker (K : Type) : Type :=
| Receiving
| Holding (item : K)
| Exited.
Arguments Receiving {K}.
Arguments Holding {K} _.
Arguments Exited {K}.

Section Pool.
Context {K V : Type} `{Countable K}.

(** [None]: the call returned an error. *)
Variable workFn : K -> option V.

Record state := {
  pending : list K;          (* what the producer has yet to send *)
  closed : bool;             (* [close(tasks)] has run *)
  workers : list (worker K);
  result : gmap K V
}.

Definition init (k : nat) (items : list K) : state :=
  {| pending := items; closed := false;
     workers := replicate k Receiving; result := ∅ |}.

Inductive step : state -> state -> Prop :=
| step_send s i item rest :
    pending s = item :: rest ->
    workers s !! i = Some Receiving ->
    step s {| pending := rest; closed := closed s;
              workers := <[i := Holding item]> (workers s);
              result := result s |}
| step_close s :
    pending s = [] ->
    closed s = false ->
    step s {| pending := []; closed := true;
              workers := workers s; result := result s |}
| step_store s i item v :
    workers s !! i = Some (Holding item) ->
    workFn item = Some v ->
    step s {| pending := pending s; closed := closed s;
              workers := <[i := Receiving]> (workers s);
              result := <[item := v]> (result s) |}
| step_drop s i item :
    workers s !! i = Some (Holding item) ->
    workFn item = None ->
    step s {| pending := pending s; closed := closed s;
              workers := <[i := Receiving]> (workers s);
              result := result s |}
| step_exit s i :
    workers s !! i = Some Receiving ->
    closed s = true ->
    step s {| pending := pending s; closed := closed s;
              workers := <[i := Exited]> (workers s);
              result := result s |}.

(** [wg.Wait()] returns: the producer is past [close(tasks)] and every
    worker has called [wg.Done()]. *)
Definition finished (s : state) : Prop :=
  closed s = true /\ Forall (fun w => w = Exited) (workers s).

(** The map that the items determine. *)
Definition expected (items : list K) : gmap K V :=
  fold_left (fun m item =>
               match workFn item with
               | Some v => <[item := v]> m
               | None => m
               end) items ∅.

(** What holds of every state that the pool can reach. *)
Record inv (items : list K) (k : nat) (s : state) : Prop := {
  inv_result : forall item v,
    result s !! item = Some v -> item ∈ items /\ workFn item = Some v;
  inv_items : forall item,
    item ∈ items ->
    item ∈ pending s
    \/ (exists i, workers s !! i = Some (Holding item))
    \/ result s !! item = workFn item;
  inv_closed : closed s = true -> pending s = [];
  inv_pending : forall item, item ∈ pending s -> item ∈ items;
  inv_holding : forall i item, workers s !! i = Some (Holding item) -> item ∈ items;
  inv_open : closed s = false -> Forall (fun w => w <> Exited) (workers s);
  inv_workers : length (workers s) = k
}.

(** What is left to do: every step makes it smaller. *)
Definition weight (w : worker K) : nat :=
  match w with Receiving => 1 | Holding _ => 2 | Exited => 0 end.

Definition measure (s : state) : nat :=
  (3 * length (pending s) + (if closed s then 0 else 1)
   + sum_list (map weight (workers s)))%nat.
End Pool.
End Pool.

(* ===================================================================== *)
(** * Sample inputs                                                       *)
(* ===================================================================== *)

Module Samples.
Import Github.
Local Open Scope string_scope.

(** A run on [main], triggered by [schedule], started at second [start]
    and updated [seconds] later. *)
Definition run (id : Z) (conclusion : string) (start seconds : Z) : WorkflowRun.t :=
  {| WorkflowRun.GetID := id;
     WorkflowRun.GetConclusion := conclusion;
     WorkflowRun.GetHeadBranch := "main";
     WorkflowRun.GetEvent := "schedule";
     WorkflowRun.GetRunStartedAt := start * Go.Second;
     WorkflowRun.GetUpdatedAt := (start + seconds) * Go.Second |}.

(** Five runs, newest first. *)
Definition five_runs : list WorkflowRun.t :=
  [ run 5 "failure" 500 100; run 4 "success" 400 50; run 3 "success" 300 40;
    run 2 "failure" 200 0; run 1 "success" 100 30 ].


(** Two successful runs of one and two seconds. *)
Definition odd_runs : list WorkflowRun.t :=
  [ run 2 "success" 200 1; run 1 "success" 100 2 ].

Definition step (name conclusion : string) : TaskStep.t :=
  {| TaskStep.GetName := name; TaskStep.GetConclusion := conclusion |}.

Definition job (id : Z) (name conclusion : string) (steps : list TaskStep.t)
    : WorkflowJob.t :=
  {| WorkflowJob.GetID := id; WorkflowJob.GetName := name;
     WorkflowJob.GetConclusion := conclusion; WorkflowJob.Steps := steps |}.

Definition two_workflows : list Workflow.t :=
  [ {| Workflow.GetPath := ".github/workflows/gke.yaml" |};
    {| Workflow.GetPath := ".github/workflows/aks.yaml" |} ].

Definition one_workflow : list Workflow.t :=
  [ {| Workflow.GetPath := ".github/workflows/eks.yaml" |} ].

(** A page of runs with one that was cancelled. *)
Definition mixed_runs : list WorkflowRun.t :=
  [ run 8 "cancelled" 800 10; run 7 "failure" 700 20; run 6 "success" 600 30 ].

Definition some_jobs : list WorkflowJob.t :=
  [ job 11 "build" "failure"
      [ step "checkout" "success"; step "compile" "failure"; step "upload" "cancelled" ];
    job 12 "lint" "success" [ step "checkout" "success" ] ].

(** A source that serves a first page, announces a second one, and fails
    on every later request; it has no log to offer. *)
Definition flaky_client : Client :=
  {| ListWorkflows := fun k _ _ _ =>
       if Nat.eqb k 0 then inr (two_workflows, {| NextPage := 2 |}) else inl "boom";
     ListWorkflowRunsByFileName := fun k _ _ _ _ =>
       if Nat.eqb k 0 then inr (mixed_runs, {| NextPage := 2 |}) else inl "boom";
     ListWorkflowJobs := fun k _ _ _ _ =>
       if Nat.eqb k 0 then inr (some_jobs, {| NextPage := 2 |}) else inl "boom";
     GetWorkflowJobLogs := fun _ _ _ _ => inl "no logs" |}.

(** A source that serves two pages and then has no more. *)
Definition steady_client : Client :=
  {| ListWorkflows := fun k _ _ _ =>
       if Nat.eqb k 0 then inr (two_workflows, {| NextPage := 2 |})
       else inr (one_workflow, {| NextPage := 0 |});
     ListWorkflowRunsByFileName := fun k _ _ _ _ =>
       if Nat.eqb k 0 then inr (mixed_runs, {| NextPage := 2 |})
       else inr (five_runs, {| NextPage := 0 |});
     ListWorkflowJobs := fun k _ _ _ _ =>
       if Nat.eqb k 0 then inr (some_jobs, {| NextPage := 2 |})
       else inr (some_jobs, {| NextPage := 0 |});
     GetWorkflowJobLogs := fun _ _ id _ =>
       if (id =? 11)%Z then inr "https://logs.example/11" else inl "no logs" |}.

(** One success followed by older failures, [n] runs in all. *)
Definition one_success_in (n : nat) : list WorkflowRun.t :=
  run 1 "success" 1000 60 :: replicate (n - 1) (run 0 "failure" 0 60).

(** The map of [showCmd] with two workflows, as a [range] loop may visit
    it: one success in ten runs, then one success in eleven. *)
Definition two_results : list (string * list WorkflowRun.t) :=
  [ ("a.yaml", one_success_in 10); ("b.yaml", one_success_in 11) ].

(** A work function that fails on one workflow. *)
Definition sample_work (item : string) : option Z :=
  if String.eqb item "b.yaml" then None else Some (Z.of_nat (String.length item)).

(** Two workers after two items, one of which failed. *)
Definition drained_pool : @Pool.state string Z _ _ :=
  {| Pool.pending := []; Pool.closed := true;
     Pool.workers := [Pool.Exited; Pool.Exited];
     Pool.result := <["a.yaml" := 6]> (∅ : gmap string Z) |}.

Definition nl : string := String Regexp.newline EmptyString.
Definition quoted (text : string) : string :=
  String Regexp.dquote EmptyString ++ text ++ String Regexp.dquote EmptyString.

(** A log with three failures of the test [foo] and one of [bar], each
    on a line of its own. *)
Definition test_log : string :=
  "Test [foo]: timed out" ++ nl ++ "ok" ++ nl ++ "Test [bar]: refused" ++ nl
  ++ "Test [foo]: timed out" ++ nl ++ "Test [foo]: timed out" ++ nl.

(** Two failures reported on one line. *)
Definition test_line : string := "Test [foo]: Test [bar]: failed" ++ nl.

(** The error line of the specification, twice, starting at the first
    column. *)
Definition bare_error_log : string :=
  "level=error msg=" ++ quoted "disk full" ++ nl
  ++ "level=error msg=" ++ quoted "disk full" ++ nl.

(** The same line after a time stamp, twice, and an error line without a
    message. *)
Definition error_log : string :=
  "time=1 level=error msg=" ++ quoted "disk full" ++ " id=7" ++ nl
  ++ "time=2 level=error code=3" ++ nl
  ++ "time=3 level=error msg=" ++ quoted "disk full" ++ nl.

End Samples.

(* ===================================================================== *)
(** * The specification's sentences, where the code departs from them     *)
(* ===================================================================== *)

Module Stated.

(** The windows of a run list are prefixes whose sizes double from
    [min(4, totalRuns)], none exceeds [totalRuns], and the largest one
    equals [totalRuns]. *)
Definition windows (u : spec_float -> Z) (runs : list Github.WorkflowRun.t) : Prop :=
  exists rows n,
    Dashboard.printDashboard u runs = Dashboard.Returns rows
    /\ Dashboard.window_sizes rows = Dashboard.doubling (Z.min 4 (Go.len runs)) n
    /\ Forall (fun c => c <= Go.len runs) (Dashboard.window_sizes rows)
    /\ last (Dashboard.window_sizes rows) = Some (Go.len runs).

(** The successful runs of the window of size [count], and the sum of
    their durations. *)
Definition successes (runs : list Github.WorkflowRun.t) (count : Z)
    : list Github.WorkflowRun.t :=
  filter (fun run => Dashboard.is_success run = true) (Go.slice_to runs count).



(** A fetch of workflows that meets a [RemoteError] returns, with the
    error, the workflows of the pages it had fetched. *)
Definition partial_workflows (client : Github.Client) (owner repo : string) : Prop :=
  forall fuel t err,
    Fetch.getWorkflows_traced client owner repo fuel = Some t ->
    snd (Fetch.returned t) = Some err ->
    fst (Fetch.returned t) = Fetch.filepaths_of (Fetch.pages_of (Fetch.exchanges t)).

(** A body with [Test [foo]:] three times and [Test [bar]:] once gives
    the counts 3 and 1, and the line [level=error msg=...] with the
    payload [disk full], twice, gives the count 2. *)
Definition log_examples : Prop :=
  fst (LogMiner.mine Samples.test_log)
  = <["foo"%string := 3]> (<["bar"%string := 1]> ∅)
  /\ snd (LogMiner.mine Samples.bare_error_log) = <["disk full"%string := 2]> ∅.

End Stated.

(* ===================================================================== *)
(** * Ranking: [sortMapByValue] of [cmd/show.go]                          *)
(* ===================================================================== *)

Module Ranking.

Record failureCount := { Name : string; Count : Z }.

(** [b.Count - a.Count], the comparator handed to [slices.SortFunc]. *)
Definition by_count (a b : failureCount) : Z := Go.wrap64 (Count b - Count a).

(** [entries] lists the map in the order in which [range] visits it. *)
Definition sortMapByValue (entries : list (string * Z)) : list failureCount :=
Slices.SortFunc by_count
  (map (fun entry => {| Name := fst entry; Count := snd entry |}) entries).

End Ranking.

(* ===================================================================== *)
(** * Facts about the Go primitives                                       *)
(* ===================================================================== *)

Module GoFacts.
Import Go.

Lemma wrap64_id z : minInt64 <= z <= maxInt64 -> wrap64 z = z.
Proof.
  unfold wrap64, minInt64, maxInt64. intros Hz.
  rewrite Z.mod_small by lia. lia.
Qed.

Lemma wrap64_range z : minInt64 <= wrap64 z <= maxInt64.
Proof.
  unfold wrap64, minInt64, maxInt64.
  pose proof (Z.mod_pos_bound (z + 2 ^ 63) (2 ^ 64)). lia.
Qed.

Lemma len_nonneg {A} (s : list A) : 0 <= len s.
Proof. unfold len. lia. Qed.

Lemma len_app {A} (s t : list A) : len (s ++ t) = len s + len t.
Proof. unfold len. rewrite length_app. lia. Qed.

Lemma index_Some {A} (s : list A) i :
  0 <= i < len s -> exists x, index s i = Some x.
Proof.
  unfold index, len. intros Hi.
  destruct (0 <=? i) eqn:E; [|lia].
  destruct (lookup_lt_is_Some_2 s (Z.to_nat i)) as [x Hx]; [lia|]. eauto.
Qed.

Lemma index_take {A} (s : list A) i n :
  0 <= i < n -> index (slice_to s n) i = index s i.
Proof.
  unfold index, slice_to. intros Hi.
  destruct (0 <=? i); [|done]. apply lookup_take_lt. lia.
Qed.

Lemma slice_to_idemp {A} (s : list A) n : slice_to (slice_to s n) n = slice_to s n.
Proof. unfold slice_to. rewrite take_take. f_equal. lia. Qed.

Lemma len_slice_to {A} (s : list A) n : 0 <= n <= len s -> len (slice_to s n) = n.
Proof. unfold len, slice_to. intros Hn. rewrite length_take. lia. Qed.

End GoFacts.

(* ===================================================================== *)
(** * The windows of [printDashboard]                                     *)
(* ===================================================================== *)

Module WindowFacts.
Import Go GoFacts Github Dashboard.

Section Arch.
Variable u : spec_float -> Z.

Lemma window_row_Some runs count :
  1 <= count <= len runs ->
  exists row, window_row u runs count = Some row /\ row_count row = count.
Proof.
  intros Hc. unfold window_row.
  destruct (index_Some runs (count - 1)) as [x ->]; [lia|].
  destruct (index_Some runs 0) as [y ->]; [lia|].
  unfold tally. destruct (len runs <? count) eqn:E; [lia|]. simpl.
  destruct (fold_left _ _ _) as [success totalSeconds]. eauto.
Qed.

(** A row only depends on the [count] most recent runs. *)
Lemma window_row_prefix runs count :
  1 <= count <= len runs ->
  window_row u (slice_to runs count) count = window_row u runs count.
Proof.
  intros Hc. unfold window_row, tally.
  rewrite !index_take by lia. rewrite slice_to_idemp.
  rewrite len_slice_to by lia.
  destruct (len runs <? count) eqn:E1; [lia|].
  destruct (count <? count) eqn:E2; [lia|]. done.
Qed.

Lemma doubling_S count n : doubling count (S n) = count :: doubling (count * 2) n.
Proof.
  unfold doubling. simpl. f_equal; [lia|].
  rewrite <- seq_shift, map_map. apply map_ext. intros k.
  rewrite Nat2Z.inj_succ, Z.pow_succ_r by lia. lia.
Qed.

Lemma window_loop_spec runs :
  len runs < 2 ^ 62 ->
  forall fuel count,
    1 <= count ->
    len runs < count * 2 ^ Z.of_nat fuel ->
    exists rows n,
      window_loop u fuel runs count = Returns rows
      /\ window_sizes rows = doubling count n
      /\ len runs < count * 2 ^ Z.of_nat n
      /\ (len runs < count -> n = 0%nat)
      /\ (count <= len runs -> (0 < n)%nat /\ count * 2 ^ (Z.of_nat n - 1) <= len runs)
      /\ Forall (fun row =>
                   window_row u (slice_to runs (row_count row)) (row_count row)
                   = Some row) rows.
Proof.
  intros Hlen. induction fuel as [|fuel IH]; intros count Hc Hfuel.
  - simpl in *. destruct (len runs >=? count) eqn:E; [lia|].
    exists [], 0%nat. repeat split; simpl; try lia. constructor.
  - simpl. destruct (len runs >=? count) eqn:E.
    + destruct (window_row_Some runs count) as (row & Hrow & Hrc); [lia|].
      rewrite Hrow. rewrite wrap64_id by (unfold minInt64, maxInt64; lia).
      destruct (IH (count * 2)) as (rows & n & -> & Hs & Hub & Hz & Hpos & Hpre).
      { lia. }
      { rewrite Nat2Z.inj_succ, Z.pow_succ_r in Hfuel by lia. lia. }
      exists (row :: rows), (S n). repeat split.
      * rewrite doubling_S. unfold window_sizes in *. simpl. by rewrite Hrc, Hs.
      * rewrite Nat2Z.inj_succ, Z.pow_succ_r by lia. lia.
      * lia.
      * lia.
      * destruct (Z_lt_le_dec (len runs) (count * 2)) as [Hlt|Hle].
        -- rewrite (Hz Hlt). simpl. lia.
        -- destruct (Hpos Hle) as [Hn Hle'].
           replace (Z.of_nat (S n) - 1) with (Z.succ (Z.of_nat n - 1)) by lia.
           rewrite Z.pow_succ_r by lia. lia.
      * constructor; [|done]. rewrite Hrc, window_row_prefix by lia. done.
    + exists [], 0%nat. repeat split; simpl; try lia. constructor.
Qed.
End Arch.
End WindowFacts.

(** C1, counterexample: five runs give the single window of size 4, so the
    largest window is not the whole list. *)
Lemma C1_largest_window_counterexample :
  ~ Stated.windows Go.amd64 Samples.five_runs.
Proof.
  intros (rows & n & Hrows & _ & _ & Hlast).
  vm_compute in Hrows. injection Hrows as <-.
  vm_compute in Hlast. discriminate.
Qed.

(** C1, amended: for a run list of length [totalRuns >= 1], [printDashboard]
    returns one row per window; the sizes are [min(4, totalRuns) * 2^k] for
    [k = 0 .. n-1] with [n >= 1]; every size is at most [totalRuns]; the
    largest one is the last power-of-two multiple of [min(4, totalRuns)]
    that does not exceed [totalRuns] (so it is more than half of it); and
    each row is the row of the prefix of that size. *)
Theorem C1_windows_double_within_the_runs (u : spec_float -> Z)
    (runs : list Github.WorkflowRun.t) :
  1 <= Go.len runs < 2 ^ 62 ->
  exists rows n,
    Dashboard.printDashboard u runs = Dashboard.Returns rows
    /\ (0 < n)%nat
    /\ Dashboard.window_sizes rows = Dashboard.doubling (Z.min 4 (Go.len runs)) n
    /\ Forall (fun c => c <= Go.len runs) (Dashboard.window_sizes rows)
    /\ last (Dashboard.window_sizes rows)
       = Some (Z.min 4 (Go.len runs) * 2 ^ (Z.of_nat n - 1))
    /\ Z.min 4 (Go.len runs) * 2 ^ (Z.of_nat n - 1) <= Go.len runs
       < 2 * (Z.min 4 (Go.len runs) * 2 ^ (Z.of_nat n - 1))
    /\ Forall (fun row =>
                 Dashboard.window_row u
                   (Go.slice_to runs (Dashboard.row_count row)) (Dashboard.row_count row)
                 = Some row) rows.
Proof.
  intros [Hlo Hhi]. unfold Dashboard.printDashboard.
  destruct (Go.len runs =? 0) eqn:E; [lia|].
  set (c := Z.min (Go.len runs) 4).
  replace (Z.min 4 (Go.len runs)) with c by (unfold c; lia).
  destruct (WindowFacts.window_loop_spec u runs Hhi 64 c) as
    (rows & n & Hrun & Hsizes & Hub & _ & Hpos & Hpre).
  { unfold c. lia. }
  { unfold c. change (2 ^ Z.of_nat 64) with 18446744073709551616. lia. }
  destruct Hpos as [Hn Hle]; [unfold c; lia|].
  exists rows, n. split; [done|]. split; [done|]. split; [done|].
  assert (Hpow : 2 ^ Z.of_nat n = 2 * 2 ^ (Z.of_nat n - 1)).
  { rewrite <- Z.pow_succ_r by lia. f_equal. lia. }
  repeat split; try done.
  - rewrite Hsizes. unfold Dashboard.doubling. apply Forall_forall.
    intros x Hx. apply list_elem_of_In, in_map_iff in Hx as (k & <- & Hk).
    apply in_seq in Hk.
    assert (2 ^ Z.of_nat k <= 2 ^ (Z.of_nat n - 1)) by (apply Z.pow_le_mono_r; lia).
    assert (0 < c) by (unfold c; lia). nia.
  - rewrite Hsizes. unfold Dashboard.doubling.
    destruct n as [|n]; [lia|]. rewrite seq_S, map_app. simpl.
    rewrite last_snoc. do 3 f_equal. lia.
  - lia.
Qed.

Lemma C1_windows_double_within_the_runs_witness :
  1 <= Go.len Samples.five_runs < 2 ^ 62
  /\ exists rows n,
    Dashboard.printDashboard Go.amd64 Samples.five_runs = Dashboard.Returns rows
    /\ (0 < n)%nat
    /\ Dashboard.window_sizes rows
       = Dashboard.doubling (Z.min 4 (Go.len Samples.five_runs)) n
    /\ Forall (fun c => c <= Go.len Samples.five_runs) (Dashboard.window_sizes rows)
    /\ last (Dashboard.window_sizes rows)
       = Some (Z.min 4 (Go.len Samples.five_runs) * 2 ^ (Z.of_nat n - 1))
    /\ Z.min 4 (Go.len Samples.five_runs) * 2 ^ (Z.of_nat n - 1)
       <= Go.len Samples.five_runs
       < 2 * (Z.min 4 (Go.len Samples.five_runs) * 2 ^ (Z.of_nat n - 1))
    /\ Forall (fun row =>
                 Dashboard.window_row Go.amd64
                   (Go.slice_to Samples.five_runs (Dashboard.row_count row))
                   (Dashboard.row_count row)
                 = Some row) rows.
Proof.
  split.
  - vm_compute. split; [discriminate | reflexivity].
  - apply (C1_windows_double_within_the_runs Go.amd64 Samples.five_runs).
    vm_compute. split; [discriminate | reflexivity].
Defined.

(* ===================================================================== *)
(** * The average duration of a window                                    *)
(* ===================================================================== *)

Module AverageFacts.
Import Go GoFacts Github Dashboard.

(** The inner loop counts the successful runs of the slice it walks and
    adds up their durations, in the order of the slice. *)
Lemma tally_fold (l : list WorkflowRun.t) :
  forall s t,
    0 <= s -> s + len l <= maxInt64 ->
    fold_left tally_step l (s, t)
    = (s + len (filter (fun run => is_success run = true) l),
       fold_left f64_add
         (map run_seconds (filter (fun run => is_success run = true) l)) t).
Proof.
  induction l as [|run l IH]; intros s t Hs Hl.
  - simpl. f_equal. unfold len. simpl. lia.
  - unfold len in Hl. simpl in Hl. rewrite filter_cons. simpl.
    unfold tally_step at 2. destruct (is_success run) eqn:E.
    + destruct (decide (true = true)) as [_|]; [|done]. simpl.
      rewrite wrap64_id by (unfold minInt64, maxInt64 in *; lia).
      rewrite IH by (unfold len; lia). f_equal. unfold len. simpl. lia.
    + destruct (decide (false = true)) as [|_]; [done|].
      rewrite IH by (unfold len; lia). done.
Qed.

Lemma tally_spec runs count :
  len runs < 2 ^ 62 -> count <= len runs ->
  tally runs count
  = Some (len (Stated.successes runs count),
          fold_left f64_add (map run_seconds (Stated.successes runs count)) f_zero).
Proof.
  intros Hlen Hc. unfold tally.
  destruct (len runs <? count) eqn:E; [lia|]. f_equal.
  rewrite tally_fold; [done|lia|].
  unfold slice_to, len in *. rewrite length_take. unfold maxInt64. lia.
Qed.
End AverageFacts.

Module RowFacts.
Import Go GoFacts Github Dashboard.

Section Arch.
Variable u : spec_float -> Z.

(** Every row that the window loop emits is the row of its own size,
    and that size lies between one and the number of runs. *)
Lemma window_loop_rows runs :
  len runs < 2 ^ 62 ->
  forall fuel count rows,
    1 <= count ->
    window_loop u fuel runs count = Returns rows ->
    Forall (fun row => window_row u runs (row_count row) = Some row
                       /\ 1 <= row_count row <= len runs) rows.
Proof.
  intros Hlen. induction fuel as [|fuel IH]; intros count rows Hc Hrun.
  - simpl in Hrun. destruct (len runs >=? count); [done|].
    injection Hrun as <-. constructor.
  - simpl in Hrun. destruct (len runs >=? count) eqn:E.
    + destruct (WindowFacts.window_row_Some u runs count) as (row & Hrow & Hrc); [lia|].
      rewrite Hrow in Hrun.
      rewrite wrap64_id in Hrun by (unfold minInt64, maxInt64; lia).
      destruct (window_loop u fuel runs (count * 2)) as [rows'| |] eqn:Hrest;
        try done.
      injection Hrun as <-. constructor.
      * rewrite Hrc. split; [done|lia].
      * apply (IH (count * 2)); [lia|done].
    + injection Hrun as <-. constructor.
Qed.

Lemma printDashboard_rows runs rows row :
  len runs < 2 ^ 62 ->
  printDashboard u runs = Returns rows ->
  row ∈ rows ->
  window_row u runs (row_count row) = Some row /\ 1 <= row_count row <= len runs.
Proof.
  intros Hlen Hrun Hin. unfold printDashboard in Hrun.
  destruct (len runs =? 0) eqn:E.
  - injection Hrun as <-. by apply elem_of_nil in Hin.
  - pose proof (len_nonneg runs).
    eapply (window_loop_rows runs Hlen 64) in Hrun; [|lia].
    rewrite Forall_forall in Hrun. by apply Hrun.
Qed.

(** The cells of a row in terms of the successful runs of its window. *)
Lemma window_row_cells runs count row :
  len runs < 2 ^ 62 -> 1 <= count <= len runs ->
  window_row u runs count = Some row ->
  let total :=
    fold_left f64_add (map run_seconds (Stated.successes runs count)) f_zero in
  row_count row = count
  /\ row_success row = len (Stated.successes runs count)
  /\ row_avgDuration row
     = (if f_neq_zero total then Shown (mean_duration u total (row_success row))
        else NA).
Proof.
  intros Hlen Hc Hrow total. unfold window_row in Hrow.
  destruct (index runs (count - 1)) as [x|]; [|done].
  destruct (index runs 0) as [y|]; [|done]. simpl in Hrow.
  rewrite AverageFacts.tally_spec in Hrow by lia. simpl in Hrow.
  injection Hrow as <-. simpl. done.
Qed.
End Arch.
End RowFacts.




(* ===================================================================== *)
(** * The paged fetchers                                                  *)
(* ===================================================================== *)

Module PagedFacts.
Import Github Fetch.

Section Paged.
Context {Q A B R : Type}.
Variable call : nat -> Q -> reply (list A).
Variable turn : Q -> Z -> Q.
Variable keep : list A -> list B.
Variable stop : list B -> bool.
Variable done : list B -> R.
Variable failed : list B -> R.

Local Notation "'loop'" := (paged_loop call turn keep stop done failed).
Local Notation "'walk'" := (Fetch.walk call turn keep stop).
Local Notation "'outcome'" := (Fetch.outcome done failed).
Local Notation "'added'" := (Fetch.added keep).

(** A loop that returns has walked, within its fuel. *)
Lemma loop_walk fuel :
  forall sent o acc t,
    loop fuel sent o acc = Some t ->
    exists more acc' e,
      walk (length sent) o acc more acc' e
      /\ (length more <= fuel)%nat
      /\ exchanges t = sent ++ more
      /\ returned t = outcome acc' e.
Proof.
  induction fuel as [|fuel IH]; intros sent o acc t Hrun; [done|].
  simpl in Hrun. destruct (call (length sent) o) as [err|[page res]] eqn:Hcall.
  - injection Hrun as <-. exists [(o, inl err)], acc, (Some err).
    repeat split; simpl; try done; try lia. by constructor.
  - destruct ((NextPage res =? 0) || stop (acc ++ keep page)) eqn:Hstop.
    + injection Hrun as <-. exists [(o, inr (page, res))], (acc ++ keep page), None.
      repeat split; simpl; try done; try lia. by constructor.
    + apply IH in Hrun as (more & acc' & e & Hwalk & Hlen & Hex & Hret).
      rewrite length_app in Hwalk. simpl in Hwalk.
      replace (length sent + 1)%nat with (S (length sent)) in Hwalk by lia.
      exists ((o, inr (page, res)) :: more), acc', e. repeat split.
      * by eapply walk_next.
      * simpl. lia.
      * rewrite Hex, <- app_assoc. done.
      * done.
Qed.

(** A walk is what the loop does, given fuel for every exchange. *)
Lemma walk_loop k o acc more acc' e :
  walk k o acc more acc' e ->
  forall fuel sent,
    length sent = k -> (length more <= fuel)%nat ->
    loop fuel sent o acc = Some (Traced (sent ++ more) (outcome acc' e)).
Proof.
  induction 1 as [k o acc err Hcall|k o acc page res Hcall Hstop
                 |k o acc page res more acc' e Hcall Hstop Hwalk IH];
    intros fuel sent Hk Hfuel; (destruct fuel as [|fuel]; [simpl in Hfuel; lia|]);
    simpl; rewrite Hk, Hcall.
  - done.
  - by rewrite Hstop.
  - rewrite Hstop. rewrite IH.
    + by rewrite <- app_assoc.
    + rewrite length_app. simpl. lia.
    + simpl in Hfuel. lia.
Qed.

(** More fuel does not change what the loop returns. *)
Lemma loop_more_fuel fuel fuel' sent o acc t :
  loop fuel sent o acc = Some t -> (fuel <= fuel')%nat ->
  loop fuel' sent o acc = Some t.
Proof.
  intros Hrun Hle.
  destruct (loop_walk _ _ _ _ _ Hrun) as (more & acc' & e & Hwalk & Hlen & Hex & Hret).
  rewrite (walk_loop _ _ _ _ _ _ Hwalk fuel' sent eq_refl) by lia.
  destruct t as [ex ret]. simpl in *. by rewrite Hex, Hret.
Qed.

(** ** What a walk tells *)

(** Each reply is the source's answer to the request of that number. *)
Lemma walk_answers k o acc more acc' e :
  walk k o acc more acc' e ->
  forall i q r, more !! i = Some (q, r) -> r = call (k + i)%nat q.
Proof.
  induction 1 as [k o acc err Hcall|k o acc page res Hcall Hstop
                 |k o acc page res more acc' e Hcall Hstop Hwalk IH];
    intros i q r Hi.
  - destruct i; [|done]. injection Hi as <- <-. by rewrite Nat.add_0_r.
  - destruct i; [|done]. injection Hi as <- <-. by rewrite Nat.add_0_r.
  - destruct i as [|i].
    + injection Hi as <- <-. by rewrite Nat.add_0_r.
    + simpl in Hi. rewrite (IH _ _ _ Hi). f_equal. lia.
Qed.

(** What is accumulated is what the pages add, in order. *)
Lemma walk_accumulates k o acc more acc' e :
  walk k o acc more acc' e ->
  acc' = acc ++ flat_map (fun x => added (snd x)) more.
Proof.
  induction 1 as [k o acc err Hcall|k o acc page res Hcall Hstop
                 |k o acc page res more acc' e Hcall Hstop Hwalk IH].
  - by rewrite app_nil_r.
  - simpl. by rewrite app_nil_r.
  - rewrite IH, <- app_assoc. done.
Qed.

(** The walk is not empty, and it starts with the first request. *)
Lemma walk_head k o acc more acc' e :
  walk k o acc more acc' e -> exists r, head more = Some (o, r).
Proof. destruct 1; simpl; eauto. Qed.

(** Only the last request can fail, and its error is the one returned. *)
Lemma walk_error_last k o acc more acc' e :
  walk k o acc more acc' e ->
  (forall i q err, more !! i = Some (q, inl err) ->
                   S i = length more /\ e = Some err)
  /\ (forall err, e = Some err -> exists q, last more = Some (q, inl err)).
Proof.
  induction 1 as [k o acc err Hcall|k o acc page res Hcall Hstop
                 |k o acc page res more acc' e Hcall Hstop Hwalk [IH1 IH2]].
  - split.
    + intros i q err' Hi. destruct i; [|done]. by injection Hi as <- <-.
    + intros err' [= <-]. by exists o.
  - split; [|done]. intros i q err' Hi. destruct i; done.
  - split.
    + intros i q err' Hi. destruct i as [|i]; [done|]. simpl in Hi.
      destruct (IH1 _ _ _ Hi) as [Hlen He]. simpl. by rewrite Hlen.
    + intros err' He. destruct (IH2 _ He) as [q Hq]. exists q.
      destruct (walk_head _ _ _ _ _ _ Hwalk) as [r Hr].
      destruct more; [done|]. done.
Qed.

(** Pagination goes on exactly as long as the page announces a next one
    and the cap is not reached. *)
Lemma walk_stops k o acc more acc' e :
  walk k o acc more acc' e ->
  forall i q page res,
    more !! i = Some (q, inr (page, res)) ->
    let so_far :=
      acc ++ flat_map (fun x => added (snd x)) (take (S i) more) in
    (S i < length more)%nat
    <-> (NextPage res <> 0 /\ stop so_far = false).
Proof.
  induction 1 as [k o acc err Hcall|k o acc page res Hcall Hstop
                 |k o acc page res more acc' e Hcall Hstop Hwalk IH];
    intros i q page' res' Hi so_far.
  - destruct i; done.
  - destruct i; [|done]. injection Hi as <- <- <-. subst so_far. simpl.
    rewrite app_nil_r. apply orb_true_iff in Hstop.
    split; [lia|]. intros [Hnz Hns]. destruct Hstop as [Hz|Hs]; [lia|congruence].
  - destruct i as [|i].
    + injection Hi as <- <- <-. subst so_far. simpl. rewrite app_nil_r.
      apply orb_false_iff in Hstop as [Hz Hs].
      destruct (walk_head _ _ _ _ _ _ Hwalk) as [r Hr].
      split; [intros _; split; [lia|done]|]. intros _. destruct more; [done|].
      simpl. lia.
    + simpl in Hi. specialize (IH _ _ _ _ Hi). subst so_far. simpl.
      rewrite app_assoc. simpl in IH. rewrite <- IH. lia.
Qed.

(** Every request of a walk is the first one with its page replaced. *)
Lemma walk_requests (P : Q -> Prop) k o acc more acc' e :
  walk k o acc more acc' e ->
  P o -> (forall q p, P q -> P (turn q p)) ->
  Forall (fun x => P (fst x)) more.
Proof.
  induction 1 as [k o acc err Hcall|k o acc page res Hcall Hstop
                 |k o acc page res more acc' e Hcall Hstop Hwalk IH];
    intros Ho Hturn; repeat constructor; try done.
  apply IH; [by apply Hturn|done].
Qed.


(** A walk that ends without an error ends on a page that announces no
    next one, or with the cap reached. *)
Lemma walk_ends k o acc more acc' :
  walk k o acc more acc' None ->
  exists q page res,
    last more = Some (q, inr (page, res))
    /\ (NextPage res = 0 \/ stop acc' = true).
Proof.
  intros Hwalk. remember None as e eqn:He.
  induction Hwalk as [k o acc err' Hcall|k o acc page res Hcall Hstop
                     |k o acc page res more acc' e Hcall Hstop Hwalk IH].
  - done.
  - exists o, page, res. split; [done|].
    apply orb_true_iff in Hstop as [Hz|Hs]; [left; lia|by right].
  - destruct (IH He) as (q & page' & res' & Hlast & Hend).
    exists q, page', res'. split; [|done].
    destruct (walk_head _ _ _ _ _ _ Hwalk) as [r Hr]. destruct more; done.
Qed.
End Paged.
End PagedFacts.

Module FetchFacts.
Import Github Fetch.

Section Client.
Variable client : Client.
Variables owner repo : string.

Lemma getWorkflows_loop_paged fuel :
  forall sent o acc,
    getWorkflows_loop client owner repo fuel sent o acc
    = paged_loop (workflows_call client owner repo) workflows_turn id
        (fun _ => false) (filepaths_of) (fun _ => []) fuel sent o acc.
Proof.
  induction fuel as [|fuel IH]; intros sent o acc; [done|]. simpl.
  change (workflows_call client owner repo (length sent) o)
    with (ListWorkflows client (length sent) owner repo o).
  destruct (ListWorkflows client (length sent) owner repo o) as [err|[wf res]]; [done|].
  rewrite orb_false_r. destruct (NextPage res =? 0); [done|]. apply IH.
Qed.

Lemma getWorkflowRuns_loop_paged workflow count fuel :
  forall sent o acc,
    getWorkflowRuns_loop client owner repo workflow count fuel sent o acc
    = paged_loop (runs_call client owner repo workflow) set_runs_page keep_admissible
        (runs_stop count) (capped count) id fuel sent o acc.
Proof.
  induction fuel as [|fuel IH]; intros sent o acc; [done|]. simpl.
  change (runs_call client owner repo workflow (length sent) o)
    with (ListWorkflowRunsByFileName client (length sent) owner repo workflow o).
  destruct (ListWorkflowRunsByFileName client (length sent) owner repo workflow o)
    as [err|[runs res]]; [done|].
  unfold runs_stop at 1.
  destruct ((NextPage res =? 0) || (Go.len (acc ++ keep_admissible runs) >=? count));
    [done|]. apply IH.
Qed.

Lemma getJobs_loop_paged runID fuel :
  forall sent o acc,
    getJobs_loop client owner repo runID fuel sent o acc
    = paged_loop (jobs_call client owner repo runID) jobs_turn id
        (fun _ => false) id id fuel sent o acc.
Proof.
  induction fuel as [|fuel IH]; intros sent o acc; [done|]. simpl.
  change (jobs_call client owner repo runID (length sent) o)
    with (ListWorkflowJobs client (length sent) owner repo runID o).
  destruct (ListWorkflowJobs client (length sent) owner repo runID o) as [err|[jobs res]];
    [done|].
  rewrite orb_false_r. destruct (NextPage res =? 0); [done|]. apply IH.
Qed.

Lemma flat_map_added_id {Q A} (xs : list (Q * reply (list A))) :
  flat_map (fun x => added id (snd x)) xs = pages_of xs.
Proof.
  unfold pages_of. apply flat_map_ext. intros [q [err|[page res]]]; done.
Qed.

Lemma flat_map_added_filter {Q} (xs : list (Q * reply (list WorkflowRun.t))) :
  flat_map (fun x => added keep_admissible (snd x)) xs
  = keep_admissible (pages_of xs).
Proof.
  unfold pages_of, keep_admissible. induction xs as [|[q r] xs IH]; [done|].
  simpl. rewrite filter_app, IH. f_equal. destruct r as [err|[page res]]; done.
Qed.
End Client.
End FetchFacts.

(* ===================================================================== *)
(** * Sorting                                                             *)
(* ===================================================================== *)

Module SortFacts.
Import Slices.

Lemma StronglySorted_snoc {E} (R : E -> E -> Prop) l x :
  StronglySorted R l -> Forall (fun z => R z x) l -> StronglySorted R (l ++ [x]).
Proof.
  induction 1 as [|y l Hl IH Hy]; intros Hx; simpl.
  - repeat constructor.
  - inversion Hx; subst. constructor; [by apply IH|].
    apply Forall_app. split; [done|]. by repeat constructor.
Qed.

Lemma StronglySorted_mono {E} (R S : E -> E -> Prop) l :
  (forall x y, R x y -> S x y) -> StronglySorted R l -> StronglySorted S l.
Proof.
  intros HRS. induction 1 as [|y l Hl IH Hy]; constructor; [done|].
  eapply Forall_impl; [exact Hy|]. intros z. apply HRS.
Qed.

Lemma StronglySorted_rev {E} (R : E -> E -> Prop) l :
  StronglySorted (flip R) l -> StronglySorted R (rev l).
Proof.
  induction 1 as [|y l Hl IH Hy]; simpl; [constructor|].
  apply StronglySorted_snoc; [done|]. apply Forall_forall.
  intros z Hz. rewrite Forall_forall in Hy. apply Hy.
  apply list_elem_of_In. apply list_elem_of_In in Hz. by apply in_rev.
Qed.

Section SortFunc.
Context {E : Type} (cmp : E -> E -> Z).

Local Notation "x ⊑ y" := (may_precede cmp x y) (at level 70).

Lemma move_left_perm x p : Permutation (move_left cmp x p) (x :: p).
Proof.
  induction p as [|y p IH]; simpl; [done|].
  destruct (cmp x y <? 0); [|done].
  rewrite IH. apply perm_swap.
Qed.

Lemma SortFunc_perm data : Permutation (SortFunc cmp data) data.
Proof.
  unfold SortFunc. rewrite <- Permutation_rev.
  assert (Hgen : forall p, Permutation
            (fold_left (fun rev_prefix x => move_left cmp x rev_prefix) data p)
            (rev data ++ p)).
  { induction data as [|x data IH]; intros p; simpl; [done|].
    rewrite IH, move_left_perm, <- app_assoc. done. }
  rewrite Hgen, app_nil_r. symmetry. apply Permutation_rev.
Qed.

Lemma SortFunc_length data : length (SortFunc cmp data) = length data.
Proof. apply Permutation_length, SortFunc_perm. Qed.

(** With a comparator that orders any two elements and does so
    transitively, the outcome is sorted. *)
Hypothesis total : forall x y, x ⊑ y \/ y ⊑ x.
Hypothesis trans : forall x y z, x ⊑ y -> y ⊑ z -> x ⊑ z.

Lemma move_left_sorted x p :
  StronglySorted (flip (may_precede cmp)) p ->
  StronglySorted (flip (may_precede cmp)) (move_left cmp x p).
Proof.
  induction 1 as [|y p Hp IH Hy]; simpl; [repeat constructor|].
  destruct (cmp x y <? 0) eqn:Hlt.
  - constructor; [done|].
    rewrite (move_left_perm x p). constructor; [|done].
    unfold flip. destruct (total x y) as [Hxy|Hyx]; [done|].
    unfold may_precede in Hyx. congruence.
  - constructor; [by constructor|]. constructor; [done|].
    eapply Forall_impl; [exact Hy|]. intros z Hz. unfold flip in *.
    eapply trans; [exact Hz|]. exact Hlt.
Qed.

Lemma SortFunc_sorted data : StronglySorted (may_precede cmp) (SortFunc cmp data).
Proof.
  unfold SortFunc. apply StronglySorted_rev.
  assert (Hgen : forall p, StronglySorted (flip (may_precede cmp)) p ->
            StronglySorted (flip (may_precede cmp))
              (fold_left (fun rev_prefix x => move_left cmp x rev_prefix) data p)).
  { induction data as [|x data IH]; intros p Hp; simpl; [done|].
    apply IH. by apply move_left_sorted. }
  apply Hgen. constructor.
Qed.
End SortFunc.

(** ** The order of strings *)

Lemma ascii_compare_trans a b c o :
  Ascii.compare a b = o -> Ascii.compare b c = o -> o <> Eq -> Ascii.compare a c = o.
Proof.
  unfold Ascii.compare. intros Hab Hbc Ho. destruct o; [done| |].
  - apply N.compare_lt_iff in Hab. apply N.compare_lt_iff in Hbc.
    apply N.compare_lt_iff. by eapply N.lt_trans.
  - apply N.compare_gt_iff in Hab. apply N.compare_gt_iff in Hbc.
    apply N.compare_gt_iff. by eapply N.lt_trans.
Qed.

Lemma string_compare_refl s : String.compare s s = Eq.
Proof.
  induction s as [|a s IH]; simpl; [done|].
  assert (Ascii.compare a a = Eq) as -> by (unfold Ascii.compare; apply N.compare_refl).
  done.
Qed.

Lemma string_compare_lt_trans s1 :
  forall s2 s3,
    String.compare s1 s2 = Lt -> String.compare s2 s3 = Lt -> String.compare s1 s3 = Lt.
Proof.
  induction s1 as [|a s1 IH]; intros [|b s2] [|c s3]; simpl; try done.
  destruct (Ascii.compare a b) eqn:Hab; destruct (Ascii.compare b c) eqn:Hbc;
    try done; intros H12 H23.
  - apply Ascii.compare_eq_iff in Hab, Hbc. subst.
    assert (Ascii.compare c c = Eq) as -> by (unfold Ascii.compare; apply N.compare_refl).
    by eapply IH.
  - apply Ascii.compare_eq_iff in Hab. subst. by rewrite Hbc.
  - apply Ascii.compare_eq_iff in Hbc. subst. by rewrite Hab.
  - by rewrite (ascii_compare_trans a b c Lt).
Qed.

Lemma string_cmp_precede a b :
  may_precede string_cmp a b <-> String.leb a b = true.
Proof.
  unfold may_precede, string_cmp, String.leb. rewrite (String.compare_antisym a b).
  destruct (String.compare b a); simpl; split; done.
Qed.

Lemma string_leb_trans a b c :
  String.leb a b = true -> String.leb b c = true -> String.leb a c = true.
Proof.
  unfold String.leb.
  destruct (String.compare a b) eqn:Hab; [|
    destruct (String.compare b c) eqn:Hbc |]; try done.
  - apply String.compare_eq_iff in Hab. by subst.
  - apply String.compare_eq_iff in Hbc. subst. by rewrite Hab.
  - by rewrite (string_compare_lt_trans a b c).
Qed.

(** [slices.Sort] on strings: an ascending rearrangement. *)
Lemma Sort_sorted data :
  StronglySorted (fun a b => String.leb a b = true) (Sort data).
Proof.
  unfold Sort.
  assert (Hs := SortFunc_sorted string_cmp).
  eapply StronglySorted_mono; [|apply Hs].
  - intros a b. apply string_cmp_precede.
  - intros x y. rewrite !string_cmp_precede. apply String.leb_total.
  - intros x y z. rewrite !string_cmp_precede. apply string_leb_trans.
Qed.

Lemma Sort_perm data : Permutation (Sort data) data.
Proof. apply SortFunc_perm. Qed.
End SortFacts.

Module FetcherFacts.
Import Github Fetch PagedFacts FetchFacts.

Section Client.
Variable client : Client.
Variables owner repo : string.

Lemma getJobs_traced_walk runID fuel t :
  getJobs_traced client owner repo runID fuel = Some t ->
  exists e,
    walk (jobs_call client owner repo runID) jobs_turn id (fun _ => false)
      0 {| JobsListOptions := {| Page := 0 |} |} []
      (exchanges t) (pages_of (exchanges t)) e
    /\ returned t = (pages_of (exchanges t), e)
    /\ (length (exchanges t) <= fuel)%nat.
Proof.
  unfold getJobs_traced. rewrite getJobs_loop_paged. intros Hrun.
  apply loop_walk in Hrun as (more & acc' & e & Hwalk & Hlen & Hex & Hret).
  simpl in Hex, Hwalk. rewrite Hex.
  pose proof (walk_accumulates _ _ _ _ _ _ _ _ _ _ Hwalk) as Hacc.
  simpl in Hacc. rewrite flat_map_added_id in Hacc. subst acc'.
  exists e. repeat split; try done. rewrite Hret. by destruct e.
Qed.

Lemma getWorkflowRuns_traced_walk workflow count branch event created fuel t :
  getWorkflowRuns_traced client owner repo workflow count branch event created fuel
  = Some t ->
  exists e,
    walk (runs_call client owner repo workflow) set_runs_page keep_admissible
      (runs_stop count) 0 (runs_query branch event created) []
      (exchanges t) (keep_admissible (pages_of (exchanges t))) e
    /\ returned t
       = outcome (capped count) id (keep_admissible (pages_of (exchanges t))) e
    /\ (length (exchanges t) <= fuel)%nat.
Proof.
  unfold getWorkflowRuns_traced. rewrite getWorkflowRuns_loop_paged. intros Hrun.
  apply loop_walk in Hrun as (more & acc' & e & Hwalk & Hlen & Hex & Hret).
  simpl in Hex, Hwalk. rewrite Hex.
  pose proof (walk_accumulates _ _ _ _ _ _ _ _ _ _ Hwalk) as Hacc.
  simpl in Hacc. rewrite flat_map_added_filter in Hacc. subst acc'.
  exists e. repeat split; done.
Qed.

Lemma getWorkflows_traced_walk fuel t :
  getWorkflows_traced client owner repo fuel = Some t ->
  exists e,
    walk (workflows_call client owner repo) workflows_turn id (fun _ => false)
      0 {| Page := 0 |} [] (exchanges t) (pages_of (exchanges t)) e
    /\ returned t
       = outcome filepaths_of (fun _ => []) (pages_of (exchanges t)) e
    /\ (length (exchanges t) <= fuel)%nat.
Proof.
  unfold getWorkflows_traced. rewrite getWorkflows_loop_paged. intros Hrun.
  apply loop_walk in Hrun as (more & acc' & e & Hwalk & Hlen & Hex & Hret).
  simpl in Hex, Hwalk. rewrite Hex.
  pose proof (walk_accumulates _ _ _ _ _ _ _ _ _ _ Hwalk) as Hacc.
  simpl in Hacc. rewrite flat_map_added_id in Hacc. subst acc'.
  exists e. repeat split; done.
Qed.

(** More fuel does not change what a fetch returns. *)
Lemma getWorkflows_more_fuel fuel fuel' t :
  getWorkflows_traced client owner repo fuel = Some t -> (fuel <= fuel')%nat ->
  getWorkflows_traced client owner repo fuel' = Some t.
Proof.
  unfold getWorkflows_traced. rewrite !getWorkflows_loop_paged. apply loop_more_fuel.
Qed.

Lemma getWorkflowRuns_more_fuel workflow count branch event created fuel fuel' t :
  getWorkflowRuns_traced client owner repo workflow count branch event created fuel
  = Some t ->
  (fuel <= fuel')%nat ->
  getWorkflowRuns_traced client owner repo workflow count branch event created fuel'
  = Some t.
Proof.
  unfold getWorkflowRuns_traced. rewrite !getWorkflowRuns_loop_paged.
  apply loop_more_fuel.
Qed.

Lemma getJobs_more_fuel runID fuel fuel' t :
  getJobs_traced client owner repo runID fuel = Some t -> (fuel <= fuel')%nat ->
  getJobs_traced client owner repo runID fuel' = Some t.
Proof.
  unfold getJobs_traced. rewrite !getJobs_loop_paged. apply loop_more_fuel.
Qed.
End Client.
End FetcherFacts.

(* ===================================================================== *)
(** * Remote errors                                                       *)
(* ===================================================================== *)

(** C4, counterexample: the source serves one page of two workflows,
    announces a second page and fails on it. [getWorkflows] returns [nil]
    with the error, not the two workflows it had fetched. *)
Lemma C4_workflows_discarded_counterexample :
  ~ Stated.partial_workflows Samples.flaky_client "cilium" "cilium".
Proof.
  intros Hclaim.
  destruct (Fetch.getWorkflows_traced Samples.flaky_client "cilium" "cilium" 5)
    as [t|] eqn:Hrun; [|vm_compute in Hrun; discriminate].
  specialize (Hclaim 5%nat t "boom" Hrun).
  vm_compute in Hrun. injection Hrun as <-.
  specialize (Hclaim eq_refl). vm_compute in Hclaim. discriminate.
Qed.

(** C4, amended: when a page request of the run fetch or of the job fetch
    returns a RemoteError, the fetch stops and returns the records
    accumulated from the pages fetched before, paired with the error; the
    failing request is the last one; the worker that called the fetch leaves
    the shared state as it was and goes on with the other items. The
    workflow fetch returns no record with the error, and [showCmd] returns
    that error instead of going on. *)
Theorem C4_remote_error_keeps_runs_and_jobs
    (client : Github.Client) (owner repo : string) :
  (forall workflow count branch event created fuel t err result,
      Fetch.getWorkflowRuns_traced client owner repo workflow count branch event created fuel
      = Some t ->
      snd (Fetch.returned t) = Some err ->
      fst (Fetch.returned t) = Fetch.keep_admissible (Fetch.pages_of (Fetch.exchanges t))
      /\ (exists q, last (Fetch.exchanges t) = Some (q, inl err))
      /\ (forall i q e, Fetch.exchanges t !! i = Some (q, inl e) ->
                        S i = length (Fetch.exchanges t))
      /\ ShowCmd.worker_task client owner repo branch event count created fuel
           result workflow = Some result
      /\ (forall workflows,
             ShowCmd.collect client owner repo branch event count created fuel
               result (workflow :: workflows)
             = ShowCmd.collect client owner repo branch event count created fuel
                 result workflows))
  /\ (forall runID fuel t err st,
         Fetch.getJobs_traced client owner repo runID fuel = Some t ->
         snd (Fetch.returned t) = Some err ->
         fst (Fetch.returned t) = Fetch.pages_of (Fetch.exchanges t)
         /\ (exists q, last (Fetch.exchanges t) = Some (q, inl err))
         /\ (forall i q e, Fetch.exchanges t !! i = Some (q, inl e) ->
                           S i = length (Fetch.exchanges t))
         /\ Drilldown.worker_task client owner repo fuel st runID = Some st
         /\ (forall tasks,
                Drilldown.run_tasks client owner repo fuel st (runID :: tasks)
                = Drilldown.run_tasks client owner repo fuel st tasks))
  /\ (forall fuel t err,
         Fetch.getWorkflows_traced client owner repo fuel = Some t ->
         snd (Fetch.returned t) = Some err ->
         fst (Fetch.returned t) = []
         /\ (exists q, last (Fetch.exchanges t) = Some (q, inl err))
         /\ (forall now format branch event numRuns days,
                ShowCmd.showCmd client now format owner repo branch event numRuns days
                  fuel EmptyString = Some (inl err)))
  /\ (forall workflow count fuel sent o acc err,
         Github.ListWorkflowRunsByFileName client (length sent) owner repo workflow o
         = inl err ->
         Fetch.getWorkflowRuns_loop client owner repo workflow count (S fuel) sent o acc
         = Some (Fetch.Traced (sent ++ [(o, inl err)]) (acc, Some err)))
  /\ (forall runID fuel sent o acc err,
         Github.ListWorkflowJobs client (length sent) owner repo runID o = inl err ->
         Fetch.getJobs_loop client owner repo runID (S fuel) sent o acc
         = Some (Fetch.Traced (sent ++ [(o, inl err)]) (acc, Some err))).
Proof.
  repeat apply conj.
  - intros workflow count branch event created fuel t err result Hrun Herr.
    destruct (FetcherFacts.getWorkflowRuns_traced_walk _ _ _ _ _ _ _ _ _ _ Hrun)
      as (e & Hwalk & Hret & _).
    rewrite Hret in Herr |- *. destruct e as [err'|]; [|done].
    simpl in Herr. injection Herr as ->.
    destruct (PagedFacts.walk_error_last _ _ _ _ _ _ _ _ _ _ Hwalk) as [Honly Hlast].
    assert (Hw : ShowCmd.worker_task client owner repo branch event count created fuel
                   result workflow = Some result).
    { unfold ShowCmd.worker_task, Fetch.getWorkflowRuns. rewrite Hrun. simpl.
      by rewrite Hret. }
    repeat split.
    + by apply Hlast.
    + intros i q e Hi. by destruct (Honly _ _ _ Hi).
    + done.
    + intros workflows. simpl. by rewrite Hw.
  - intros runID fuel t err st Hrun Herr.
    destruct (FetcherFacts.getJobs_traced_walk _ _ _ _ _ _ Hrun) as (e & Hwalk & Hret & _).
    rewrite Hret in Herr |- *. simpl in Herr. subst e.
    destruct (PagedFacts.walk_error_last _ _ _ _ _ _ _ _ _ _ Hwalk) as [Honly Hlast].
    assert (Hw : Drilldown.worker_task client owner repo fuel st runID = Some st).
    { unfold Drilldown.worker_task, Fetch.getJobs. rewrite Hrun. simpl.
      by rewrite Hret. }
    repeat split.
    + by apply Hlast.
    + intros i q e Hi. by destruct (Honly _ _ _ Hi).
    + done.
    + intros tasks. simpl. by rewrite Hw.
  - intros fuel t err Hrun Herr.
    destruct (FetcherFacts.getWorkflows_traced_walk _ _ _ _ _ Hrun) as (e & Hwalk & Hret & _).
    rewrite Hret in Herr |- *. destruct e as [err'|]; [|done].
    simpl in Herr. injection Herr as ->.
    destruct (PagedFacts.walk_error_last _ _ _ _ _ _ _ _ _ _ Hwalk) as [_ Hlast].
    repeat split.
    + by apply Hlast.
    + intros now format branch event numRuns days.
      unfold ShowCmd.showCmd, ShowCmd.discover, Fetch.getWorkflows. simpl.
      rewrite Hrun. simpl. by rewrite Hret.
  - intros workflow count fuel sent o acc err Hcall. simpl. by rewrite Hcall.
  - intros runID fuel sent o acc err Hcall. simpl. by rewrite Hcall.
Qed.

Lemma C4_remote_error_keeps_runs_and_jobs_witness :
  exists t,
    Fetch.getWorkflowRuns_traced Samples.flaky_client "cilium" "cilium" "gke.yaml" 64
      "main" "schedule" ">=2024-01-01T00:00:00Z" 5 = Some t
    /\ snd (Fetch.returned t) = Some "boom"
    /\ fst (Fetch.returned t) = Fetch.keep_admissible (Fetch.pages_of (Fetch.exchanges t))
    /\ length (fst (Fetch.returned t)) = 2%nat.
Proof.
  destruct (Fetch.getWorkflowRuns_traced Samples.flaky_client "cilium" "cilium" "gke.yaml" 64
              "main" "schedule" ">=2024-01-01T00:00:00Z" 5) as [t|] eqn:Hrun;
    [|vm_compute in Hrun; discriminate].
  exists t.
  assert (Herr : snd (Fetch.returned t) = Some "boom").
  { vm_compute in Hrun. injection Hrun as <-. reflexivity. }
  split; [reflexivity|]. split; [exact Herr|]. split.
  - destruct (C4_remote_error_keeps_runs_and_jobs Samples.flaky_client "cilium" "cilium")
      as [Hruns _].
    exact (proj1 (Hruns _ _ _ _ _ _ _ _ ∅ Hrun Herr)).
  - vm_compute in Hrun. injection Hrun as <-. reflexivity.
Defined.

(* ===================================================================== *)
(** * The run fetch                                                       *)
(* ===================================================================== *)



Module ClockFacts.
Import Go GoFacts ShowCmd.

(** Within some 270 years the arithmetic of [daysToTimeRange] does not
    wrap, and the bound is [days] times 24 hours before now. *)
Lemma daysToTimeRange_exact now format days :
  0 <= days <= 100000 ->
  daysToTimeRange now format days
  = (">=" ++ format (now - days * 24 * Hour))%string.
Proof.
  intros Hd. unfold daysToTimeRange, Hour, Second.
  rewrite (wrap64_id (days * 24)) by (unfold minInt64, maxInt64; lia).
  rewrite (wrap64_id (days * 24 * _)) by (unfold minInt64, maxInt64; lia).
  rewrite wrap64_id by (unfold minInt64, maxInt64; lia).
  replace (now + - (days * 24 * (3600 * 1000000000)))
    with (now - days * 24 * (3600 * 1000000000)) by lia.
  reflexivity.
Qed.
End ClockFacts.

(** C7: with a cap of at least zero, the run fetch sends a first request,
    which asks for page 0 with the branch, the event and the lower bound on
    the creation time that [showCmd] computes from the number of days;
    every request carries these three filters; each reply is the source's
    answer to the request of its number; and the runs returned are the
    runs received whose conclusion is [success] or [failure], all of them
    when the fetch ends with an error and the first [count] of them
    otherwise: the only local test reads the conclusion, not the branch,
    the event or the start time. The worker of [showCmd] stores under the
    workflow what this fetch returns, or nothing when it returns an error,
    and a larger bound on the requests gives the same return. *)
Theorem C7_filters_travel_with_the_query
    (client : Github.Client) (now : Go.Time) (format : Go.Time -> string)
    (owner repo workflow : string) (count : Z) (branch event : string) (days : Z)
    (fuel : nat)
    (t : Fetch.traced Github.ListWorkflowRunsOptions Github.WorkflowRun.t
           (list Github.WorkflowRun.t)) :
  0 <= count ->
  Fetch.getWorkflowRuns_traced client owner repo workflow count branch event
    (ShowCmd.daysToTimeRange now format days) fuel = Some t ->
  let created := ShowCmd.daysToTimeRange now format days in
  let fetched := filter (fun run => Fetch.admissible run = true)
                   (Fetch.pages_of (Fetch.exchanges t)) in
  (exists r, head (Fetch.exchanges t)
             = Some ({| Github.Branch := branch; Github.Event := event;
                        Github.Created := created;
                        Github.RunsListOptions := {| Github.Page := 0 |} |}, r))
  /\ Forall (fun x => Github.Branch (fst x) = branch
                      /\ Github.Event (fst x) = event
                      /\ Github.Created (fst x) = created)
       (Fetch.exchanges t)
  /\ (forall i q r, Fetch.exchanges t !! i = Some (q, r) ->
                    r = Github.ListWorkflowRunsByFileName client i owner repo workflow q)
  /\ fst (Fetch.returned t)
     = match snd (Fetch.returned t) with
       | Some _ => fetched
       | None => take (Z.to_nat count) fetched
       end
  /\ (forall run run',
         Github.WorkflowRun.GetConclusion run = Github.WorkflowRun.GetConclusion run' ->
         Fetch.admissible run = Fetch.admissible run')
  /\ (0 <= days <= 100000 ->
      created = (">=" ++ format (now - days * 24 * ShowCmd.Hour))%string)
  /\ (forall result,
         ShowCmd.worker_task client owner repo branch event count created fuel
           result workflow
         = Some match snd (Fetch.returned t) with
                | Some _ => result
                | None => <[workflow := fst (Fetch.returned t)]> result
                end)
  /\ (forall fuel', (fuel <= fuel')%nat ->
         Fetch.getWorkflowRuns client owner repo workflow count branch event created fuel'
         = Some (Fetch.returned t)).
Proof.
  intros Hcount Hrun created fetched.
  destruct (FetcherFacts.getWorkflowRuns_traced_walk _ _ _ _ _ _ _ _ _ _ Hrun)
    as (e & Hwalk & Hret & _).
  split_and!.
  - exact (PagedFacts.walk_head _ _ _ _ _ _ _ _ _ _ Hwalk).
  - apply (PagedFacts.walk_requests _ _ _ _
             (fun q => Github.Branch q = branch /\ Github.Event q = event
                       /\ Github.Created q = created)
             _ _ _ _ _ _ Hwalk); [done|].
    intros q p Hq. exact Hq.
  - intros i q r Hi.
    exact (PagedFacts.walk_answers _ _ _ _ _ _ _ _ _ _ Hwalk _ _ _ Hi).
  - rewrite Hret. destruct e as [err|]; simpl; [done|].
    unfold Fetch.capped, Go.slice_to. fold fetched.
    destruct (Go.len _ >? count) eqn:E; [done|].
    symmetry. apply take_ge. unfold Go.len in E. fold fetched in E. lia.
  - intros run run' Hc. unfold Fetch.admissible. by rewrite Hc.
  - apply ClockFacts.daysToTimeRange_exact.
  - intros result. unfold ShowCmd.worker_task, Fetch.getWorkflowRuns.
    fold created in Hrun. rewrite Hrun. simpl.
    by destruct (Fetch.returned t) as [runs [err|]].
  - intros fuel' Hle. unfold Fetch.getWorkflowRuns. fold created in Hrun.
    by rewrite (FetcherFacts.getWorkflowRuns_more_fuel _ _ _ _ _ _ _ _ _ _ _ Hrun Hle).
Qed.

Lemma C7_filters_travel_with_the_query_witness :
  exists t,
    0 <= 64
    /\ Fetch.getWorkflowRuns_traced Samples.steady_client "cilium" "cilium" "gke.yaml" 64
         "main" "schedule" (ShowCmd.daysToTimeRange 0 (fun _ => "2024-01-01T00:00:00Z") 30) 5
       = Some t
    /\ (exists r, head (Fetch.exchanges t)
                  = Some ({| Github.Branch := "main"; Github.Event := "schedule";
                             Github.Created :=
                               ShowCmd.daysToTimeRange 0
                                 (fun _ => "2024-01-01T00:00:00Z") 30;
                             Github.RunsListOptions := {| Github.Page := 0 |} |}, r))
    /\ Forall (fun x => Github.Branch (fst x) = "main"
                        /\ Github.Event (fst x) = "schedule"
                        /\ Github.Created (fst x)
                           = ShowCmd.daysToTimeRange 0 (fun _ => "2024-01-01T00:00:00Z") 30)
         (Fetch.exchanges t)
    /\ length (Fetch.exchanges t) = 2%nat
    /\ Go.len (fst (Fetch.returned t)) = 7.
Proof.
  destruct (Fetch.getWorkflowRuns_traced Samples.steady_client "cilium" "cilium" "gke.yaml" 64
              "main" "schedule"
              (ShowCmd.daysToTimeRange 0 (fun _ => "2024-01-01T00:00:00Z") 30) 5)
    as [t|] eqn:Hrun; [|vm_compute in Hrun; discriminate].
  exists t. split; [lia|]. split; [reflexivity|].
  destruct (C7_filters_travel_with_the_query Samples.steady_client 0
              (fun _ => "2024-01-01T00:00:00Z") "cilium" "cilium" "gke.yaml" 64
              "main" "schedule" 30 5 t ltac:(lia) Hrun) as (Hhead & Hall & _).
  split; [exact Hhead|]. split; [exact Hall|].
  vm_compute in Hrun. injection Hrun as <-. split; reflexivity.
Defined.

(* ===================================================================== *)
(** * Workflow discovery                                                  *)
(* ===================================================================== *)

(** C10: when [getWorkflows] returns without an error, the names it returns
    are in ascending byte-wise order and are, up to that rearrangement, the
    base names of the paths of the workflows of all pages received, each
    page being the source's answer to the request of its number; more fuel
    gives the same names. *)
Theorem C10_workflows_sorted_base_names
    (client : Github.Client) (owner repo : string) (fuel : nat)
    (t : Fetch.traced Github.ListOptions Github.Workflow.t (list string)) :
  Fetch.getWorkflows_traced client owner repo fuel = Some t ->
  snd (Fetch.returned t) = None ->
  let names := fst (Fetch.returned t) in
  StronglySorted (fun a b => String.leb a b = true) names
  /\ Permutation names
       (map (fun workflow => GoPath.Base (Github.Workflow.GetPath workflow))
            (Fetch.pages_of (Fetch.exchanges t)))
  /\ (forall i q r, Fetch.exchanges t !! i = Some (q, r) ->
                    r = Github.ListWorkflows client i owner repo q)
  /\ (forall fuel', (fuel <= fuel')%nat ->
         Fetch.getWorkflows client owner repo fuel' = Some (names, None)).
Proof.
  intros Hrun Hnone names.
  destruct (FetcherFacts.getWorkflows_traced_walk _ _ _ _ _ Hrun) as (e & Hwalk & Hret & _).
  rewrite Hret in Hnone. destruct e as [err|]; [done|].
  assert (Hnames : names = Fetch.filepaths_of (Fetch.pages_of (Fetch.exchanges t))).
  { unfold names. by rewrite Hret. }
  split_and!.
  - rewrite Hnames. apply SortFacts.Sort_sorted.
  - rewrite Hnames. apply SortFacts.Sort_perm.
  - intros i q r Hi.
    exact (PagedFacts.walk_answers _ _ _ _ _ _ _ _ _ _ Hwalk _ _ _ Hi).
  - intros fuel' Hle. unfold Fetch.getWorkflows.
    rewrite (FetcherFacts.getWorkflows_more_fuel _ _ _ _ _ _ Hrun Hle). simpl.
    unfold names. rewrite Hret. done.
Qed.

Lemma C10_workflows_sorted_base_names_witness :
  exists t,
    Fetch.getWorkflows_traced Samples.steady_client "cilium" "cilium" 5 = Some t
    /\ snd (Fetch.returned t) = None
    /\ fst (Fetch.returned t) = ["aks.yaml"; "eks.yaml"; "gke.yaml"]%string
    /\ StronglySorted (fun a b => String.leb a b = true) (fst (Fetch.returned t)).
Proof.
  destruct (Fetch.getWorkflows_traced Samples.steady_client "cilium" "cilium" 5)
    as [t|] eqn:Hrun; [|vm_compute in Hrun; discriminate].
  exists t.
  assert (Hnone : snd (Fetch.returned t) = None).
  { vm_compute in Hrun. injection Hrun as <-. reflexivity. }
  split; [reflexivity|]. split; [exact Hnone|]. split.
  - vm_compute in Hrun. injection Hrun as <-. reflexivity.
  - exact (proj1 (C10_workflows_sorted_base_names Samples.steady_client
                    "cilium" "cilium" 5 t Hrun Hnone)).
Defined.

(* ===================================================================== *)
(** * The summary                                                         *)
(* ===================================================================== *)

(** C3, at the failing input: two workflows with success rates of 10% and
    of 9.09%, visited in this order. The comparator truncates the
    difference of the rates to an integer, here to zero, so the sort leaves
    the two rows where they are and the success-rate table lists the higher
    rate first. *)
Theorem C3_success_rates_out_of_order :
  let rate_table := fst (Dashboard.printSummary Go.amd64 Samples.two_results 10) in
  map Dashboard.workflow rate_table = ["a.yaml"; "b.yaml"]%string
  /\ map Dashboard.successRate rate_table = [Dashboard.rate 1 10; Dashboard.rate 1 11]
  /\ SFltb (Dashboard.rate 1 11) (Dashboard.rate 1 10) = true
  /\ Dashboard.by_successRate Go.amd64
       {| Dashboard.workflow := "b.yaml"; Dashboard.from := 0; Dashboard.to := 0;
          Dashboard.averageDuration := 0; Dashboard.successRate := Dashboard.rate 1 11;
          Dashboard.success := 1; Dashboard.count := 11 |}
       {| Dashboard.workflow := "a.yaml"; Dashboard.from := 0; Dashboard.to := 0;
          Dashboard.averageDuration := 0; Dashboard.successRate := Dashboard.rate 1 10;
          Dashboard.success := 1; Dashboard.count := 10 |} = 0.
Proof. vm_compute. repeat split. Qed.

(* ===================================================================== *)
(** * Counting                                                            *)
(* ===================================================================== *)

Module CountFacts.
Import Go GoFacts Counts.

Lemma wrap64_add_l x y : wrap64 (wrap64 x + y) = wrap64 (x + y).
Proof.
  unfold wrap64.
  replace ((x + 2 ^ 63) mod 2 ^ 64 - 2 ^ 63 + y + 2 ^ 63)
    with ((x + 2 ^ 63) mod 2 ^ 64 + y) by lia.
  rewrite Zplus_mod_idemp_l. do 2 f_equal. lia.
Qed.

Lemma lookup_bump_ne m name other : name <> other -> bump name m !! other = m !! other.
Proof.
  intros Hne. unfold bump. destruct (m !! name); by rewrite lookup_insert_ne.
Qed.

Lemma count_of_bump_ne m name other :
  name <> other -> count_of (bump name m) other = count_of m other.
Proof. intros Hne. unfold count_of. by rewrite lookup_bump_ne. Qed.

Lemma count_of_bump m name : count_of (bump name m) name = wrap64 (count_of m name + 1).
Proof.
  unfold count_of, bump. destruct (m !! name) eqn:E; rewrite lookup_insert_eq; done.
Qed.

Lemma bump_is_Some m name other :
  is_Some (bump name m !! other) <-> other = name \/ is_Some (m !! other).
Proof.
  destruct (decide (name = other)) as [->|Hne].
  - unfold bump. destruct (m !! other) eqn:E; rewrite lookup_insert_eq;
      split; eauto.
  - rewrite lookup_bump_ne by done. split; [by right|]. by intros [->|].
Qed.

(** Bumping the keys of a list one after the other adds, for each key,
    the number of its occurrences. *)
Lemma count_of_bumps {A} (key : A -> string) (l : list A) name :
  forall m,
    in_int64 (count_of m name) ->
    count_of (fold_left (fun m x => bump (key x) m) l m) name
    = wrap64 (count_of m name + len (filter (fun x => key x = name) l)).
Proof.
  induction l as [|x l IH]; intros m Hm.
  - simpl. unfold len. simpl. rewrite Z.add_0_r. symmetry. by apply wrap64_id.
  - simpl. rewrite filter_cons. destruct (decide (key x = name)) as [Hx|Hx].
    + rewrite IH; rewrite Hx, count_of_bump; [|apply wrap64_range].
      rewrite wrap64_add_l. f_equal. unfold len. simpl length. lia.
    + rewrite IH; rewrite count_of_bump_ne by done; done.
Qed.
End CountFacts.

(* ===================================================================== *)
(** * The failure drilldown                                               *)
(* ===================================================================== *)

Module DrilldownFacts.
Import Go GoFacts Github Counts CountFacts Drilldown.

Lemma steps_with_cons conclusion name step steps :
  steps_with conclusion name (step :: steps)
  = (if decide (TaskStep.GetConclusion step = conclusion
                /\ TaskStep.GetName step = name) then 1 else 0)
    + steps_with conclusion name steps.
Proof.
  unfold steps_with, len. rewrite filter_cons.
  destruct (decide _); simpl length; lia.
Qed.

(** The loop over the steps of a job counts, name by name, the steps that
    failed and those that were cancelled, and touches nothing else. *)
Lemma record_steps_counts steps name :
  forall st,
    in_int64 (count_of (failedStepCount st) name) ->
    in_int64 (count_of (cancelledStepCount st) name) ->
    let st' := fold_left record_step steps st in
    count_of (failedStepCount st') name
    = wrap64 (count_of (failedStepCount st) name + steps_with "failure" name steps)
    /\ count_of (cancelledStepCount st') name
       = wrap64 (count_of (cancelledStepCount st) name
                 + steps_with "cancelled" name steps)
    /\ failedJobCount st' = failedJobCount st
    /\ logsURLs st' = logsURLs st.
Proof.
  induction steps as [|step steps IH]; intros st Hf Hc; simpl.
  - unfold steps_with, len. simpl. rewrite !Z.add_0_r, !wrap64_id by done. done.
  - rewrite !steps_with_cons. unfold record_step at 2 4 6 8.
    destruct (String.eqb (TaskStep.GetConclusion step) "failure") eqn:E1.
    + apply String.eqb_eq in E1.
      destruct (decide (TaskStep.GetConclusion step = "cancelled"%string
                        /\ TaskStep.GetName step = name)) as [[Hx _]|_]; [congruence|].
      destruct (decide (TaskStep.GetName step = name)) as [Hn|Hn].
      * destruct (decide _) as [_|Hno]; [|by destruct Hno].
        edestruct IH as (-> & -> & -> & ->); simpl.
        { rewrite Hn, count_of_bump. apply wrap64_range. }
        { done. }
        rewrite Hn, count_of_bump, wrap64_add_l. split_and!; try done. f_equal. lia.
      * destruct (decide _) as [[_ Hyes]|_]; [done|].
        edestruct IH as (-> & -> & -> & ->); simpl.
        { by rewrite count_of_bump_ne. }
        { done. }
        rewrite count_of_bump_ne by done. done.
    + apply String.eqb_neq in E1.
      destruct (decide (TaskStep.GetConclusion step = "failure"%string
                        /\ TaskStep.GetName step = name)) as [[Hx _]|_]; [done|].
      destruct (String.eqb (TaskStep.GetConclusion step) "cancelled") eqn:E2.
      * apply String.eqb_eq in E2.
        destruct (decide (TaskStep.GetName step = name)) as [Hn|Hn].
        -- destruct (decide _) as [_|Hno]; [|by destruct Hno].
           edestruct IH as (-> & -> & -> & ->); simpl.
           { done. }
           { rewrite Hn, count_of_bump. apply wrap64_range. }
           rewrite Hn, count_of_bump, wrap64_add_l. split_and!; try done. f_equal. lia.
        -- destruct (decide _) as [[_ Hyes]|_]; [done|].
           edestruct IH as (-> & -> & -> & ->); simpl.
           { done. }
           { by rewrite count_of_bump_ne. }
           rewrite count_of_bump_ne by done. done.
      * apply String.eqb_neq in E2.
        destruct (decide _) as [[Hx _]|_]; [done|].
        edestruct IH as (-> & -> & -> & ->); done.
Qed.
End DrilldownFacts.

(* ===================================================================== *)
(** * The worker pool                                                     *)
(* ===================================================================== *)

Module PoolFacts.
Import Pool.

Section Pool.
Context {K V : Type} `{Countable K}.
Variable workFn : K -> option V.
Variable items : list K.
Variable k : nat.

Local Notation "'state'" := (@Pool.state K V _ _).

Local Notation "'inv'" := (Pool.inv workFn items k).

Lemma inv_init : inv (init k items).
Proof.
  constructor; simpl.
  - intros item v Hv. by rewrite lookup_empty in Hv.
  - intros item Hin. by left.
  - done.
  - done.
  - intros i item Hi. apply lookup_replicate in Hi. by destruct Hi.
  - intros _. apply Forall_forall. intros w Hw.
    apply elem_of_replicate in Hw as [-> _]. done.
  - apply length_replicate.
Qed.

Lemma inv_step s s' : inv s -> step workFn s s' -> inv s'.
Proof.
  intros [Hres Hitems Hclosed Hpend Hhold Hopen Hlen] Hstep.
  destruct Hstep as [s i item rest Hp Hw|s Hp Hc|s i item v Hw Hf|s i item Hw Hf|s i Hw Hc];
    constructor; simpl; try done.
  - (* send *)
    intros item' Hin. destruct (Hitems _ Hin) as [Hpe|[[j Hj]|Hr]].
    + rewrite Hp in Hpe. apply elem_of_cons in Hpe as [->|Hrest]; [|by left].
      right. left. exists i. apply list_lookup_insert_eq. by eapply lookup_lt_Some.
    + right. left. exists j. rewrite list_lookup_insert_ne; [done|].
      intros ->. congruence.
    + by right; right.
  - intros Hc. specialize (Hclosed Hc). congruence.
  - intros item' Hin. apply Hpend. rewrite Hp. by right.
  - intros j item' Hj. apply list_lookup_insert_Some in Hj as [(_ & Heq & _)|[_ Hj]].
    + injection Heq as <-. apply Hpend. rewrite Hp. by left.
    + by eapply Hhold.
  - intros Hc. specialize (Hopen Hc). apply Forall_insert; done.
  - by rewrite length_insert.
  - (* close *)
    intros item Hin. destruct (Hitems _ Hin) as [Hpe|Hother]; [|by right].
    rewrite Hp in Hpe. by apply elem_of_nil in Hpe.
  - intros item Hin. by apply elem_of_nil in Hin.
  - (* store *)
    intros item' v' Hv. destruct (decide (item = item')) as [<-|Hne].
    + rewrite lookup_insert_eq in Hv. injection Hv as <-. split; [|done].
      by eapply Hhold.
    + rewrite lookup_insert_ne in Hv by done. by apply Hres.
  - intros item' Hin. destruct (decide (item = item')) as [<-|Hne].
    + right. right. by rewrite lookup_insert_eq.
    + destruct (Hitems _ Hin) as [Hpe|[[j Hj]|Hr]]; [by left| |].
      * right. left. exists j. rewrite list_lookup_insert_ne; [done|].
        intros ->. congruence.
      * right. right. by rewrite lookup_insert_ne.
  - intros j item' Hj. apply list_lookup_insert_Some in Hj as [(_ & Heq & _)|[_ Hj]];
      [done|by eapply Hhold].
  - intros Hc. specialize (Hopen Hc). apply Forall_insert; done.
  - by rewrite length_insert.
  - (* drop *)
    intros item' Hin. destruct (decide (item = item')) as [<-|Hne].
    + right. right. rewrite Hf. destruct (result s !! item) as [v|] eqn:Hv; [|done].
      destruct (Hres _ _ Hv) as [_ Hsome]. congruence.
    + destruct (Hitems _ Hin) as [Hpe|[[j Hj]|Hr]]; [by left| |by right; right].
      right. left. exists j. rewrite list_lookup_insert_ne; [done|].
      intros ->. congruence.
  - intros j item' Hj. apply list_lookup_insert_Some in Hj as [(_ & Heq & _)|[_ Hj]];
      [done|by eapply Hhold].
  - intros Hc. specialize (Hopen Hc). apply Forall_insert; done.
  - by rewrite length_insert.
  - (* exit *)
    intros item' Hin. destruct (Hitems _ Hin) as [Hpe|[[j Hj]|Hr]];
      [by left| |by right; right].
    right. left. exists j. rewrite list_lookup_insert_ne; [done|].
    intros ->. congruence.
  - intros j item' Hj. apply list_lookup_insert_Some in Hj as [(_ & Heq & _)|[_ Hj]];
      [done|by eapply Hhold].
  - intros Hc'. congruence.
  - by rewrite length_insert.
Qed.

Lemma inv_reachable s : rtc (step workFn) (init k items) s -> inv s.
Proof.
  intros Hrtc. apply rtc_nsteps in Hrtc as [n Hn].
  revert s Hn. induction n as [|n IH]; intros s Hn.
  - apply nsteps_once_inv in Hn || inversion Hn; subst; apply inv_init.
  - apply nsteps_inv_r in Hn as (s1 & Hn & Hstep).
    eapply inv_step; [by apply IH|done].
Qed.

(** ** Every step makes the measure smaller *)

Lemma weight_insert (ws : list (worker K)) i w w' :
  ws !! i = Some w ->
  (sum_list (map weight (<[i := w']> ws)) + weight w
   = sum_list (map weight ws) + weight w')%nat.
Proof.
  revert i. induction ws as [|x ws IH]; intros i Hi; [done|].
  destruct i as [|i]; simpl in *.
  - injection Hi as ->. lia.
  - specialize (IH _ Hi). lia.
Qed.

Lemma step_measure s s' : step workFn s s' -> (measure s' < measure s)%nat.
Proof.
  intros Hstep.
  destruct Hstep as [s i item rest Hp Hw|s Hp Hc|s i item v Hw Hf|s i item Hw Hf|s i Hw Hc];
    unfold measure; simpl.
  - pose proof (weight_insert _ _ _ (Holding item) Hw) as Hsum.
    rewrite Hp. simpl in *. lia.
  - rewrite Hp, Hc. simpl. lia.
  - pose proof (weight_insert _ _ _ (@Receiving K) Hw) as Hsum. simpl in *. lia.
  - pose proof (weight_insert _ _ _ (@Receiving K) Hw) as Hsum. simpl in *. lia.
  - pose proof (weight_insert _ _ _ (@Exited K) Hw) as Hsum. simpl in *. lia.
Qed.

(** ** A pool that has not finished can take a step *)

Lemma workers_holding (ws : list (worker K)) :
  (exists i item, ws !! i = Some (Holding item))
  \/ Forall (fun w => w = Receiving \/ w = Exited) ws.
Proof.
  induction ws as [|w ws [(i & item & Hi)|Hall]].
  - right. constructor.
  - left. by exists (S i), item.
  - destruct w as [|item|].
    + right. constructor; [by left|done].
    + left. by exists 0%nat, item.
    + right. constructor; [by right|done].
Qed.

Lemma workers_receiving (ws : list (worker K)) :
  Forall (fun w => w = Receiving \/ w = Exited) ws ->
  (exists i, ws !! i = Some Receiving) \/ Forall (fun w => w = Exited) ws.
Proof.
  induction 1 as [|w ws Hw Hall IH]; [right; constructor|].
  destruct Hw as [Hw|Hw]; subst w; [left; by exists 0%nat|].
  destruct IH as [[i Hi]|IH]; [left; by exists (S i)|right; by constructor].
Qed.

Lemma step_progress s :
  (0 < k)%nat -> inv s -> ~ finished s -> exists s', step workFn s s'.
Proof.
  intros Hk [Hres Hitems Hclosed Hpend Hhold Hopen Hlen] Hnot.
  destruct (workers_holding (workers s)) as [(i & item & Hi)|Hall].
  { destruct (workFn item) as [v|] eqn:Hf.
    - eexists. by eapply step_store.
    - eexists. by eapply step_drop. }
  destruct (workers_receiving _ Hall) as [[i Hi]|Hexited].
  - destruct (pending s) as [|item rest] eqn:Hp.
    + destruct (closed s) eqn:Hc.
      * eexists. by eapply step_exit.
      * eexists. by eapply step_close.
    + eexists. by eapply step_send.
  - destruct (closed s) eqn:Hc.
    + destruct Hnot. by split.
    + specialize (Hopen eq_refl).
      destruct (workers s) as [|w ws]; [simpl in Hlen; lia|].
      inversion Hexited; subst. inversion Hopen; subst. done.
Qed.

(** ** What a finished pool holds *)

Lemma finished_result s :
  inv s -> finished s ->
  pending s = []
  /\ forall item,
       result s !! item = if decide (item ∈ items) then workFn item else None.
Proof.
  intros [Hres Hitems Hclosed Hpend Hhold Hopen Hlen] [Hc Hexited].
  split; [by apply Hclosed|]. intros item. destruct (decide (item ∈ items)) as [Hin|Hout].
  - destruct (Hitems _ Hin) as [Hpe|[[j Hj]|Hr]]; [| |done].
    + rewrite (Hclosed Hc) in Hpe. by apply elem_of_nil in Hpe.
    + rewrite Forall_forall in Hexited.
      assert (Holding item = Exited) by (eapply Hexited, list_elem_of_lookup_2, Hj).
      done.
  - destruct (result s !! item) as [v|] eqn:Hv; [|done].
    by destruct (Hres _ _ Hv).
Qed.

Lemma finished_size s :
  inv s -> finished s -> NoDup items ->
  size (result s) = length (filter (fun item => is_Some (workFn item)) items).
Proof.
  intros Hinv Hfin Hnodup.
  destruct (finished_result s Hinv Hfin) as [_ Hlook].
  rewrite <- size_dom.
  assert (Hdom : dom (result s)
                 = list_to_set (filter (fun item => is_Some (workFn item)) items)).
  { apply set_eq. intros item.
    rewrite elem_of_dom, elem_of_list_to_set, list_elem_of_filter, Hlook.
    destruct (decide (item ∈ items)); split; try tauto.
    intros [? ?]. done. }
  rewrite Hdom. apply size_list_to_set. by apply NoDup_filter.
Qed.
End Pool.
End PoolFacts.

(** C5: whatever the number [k >= 1] of workers and whatever the order in
    which the workers receive items and store their outcomes, a pool that
    has reached [wg.Wait()]'s return has sent every item and seen every
    worker exit, and the shared map then holds, for each item whose work
    function returned without error, the entry of that item, and nothing
    else; with distinct items that is as many entries as such items. A pool
    that has not got there can always take a step, and every step brings it
    closer, so no schedule blocks or runs forever. *)
Theorem C5_pool_result_independent_of_schedule
    {K V : Type} `{Countable K} (workFn : K -> option V)
    (items : list K) (k : nat) (s : @Pool.state K V _ _) :
  (1 <= k)%nat ->
  rtc (Pool.step workFn) (Pool.init k items) s ->
  (Pool.finished s ->
   Pool.pending s = []
   /\ Forall (fun w => w = Pool.Exited) (Pool.workers s)
   /\ (forall item,
          Pool.result s !! item = if decide (item ∈ items) then workFn item else None)
   /\ (NoDup items ->
       size (Pool.result s) = length (filter (fun item => is_Some (workFn item)) items)))
  /\ (~ Pool.finished s -> exists s', Pool.step workFn s s')
  /\ (forall s', Pool.step workFn s s' -> (Pool.measure s' < Pool.measure s)%nat).
Proof.
  intros Hk Hreach.
  pose proof (PoolFacts.inv_reachable workFn items k s Hreach) as Hinv.
  split_and!.
  - intros Hfin. destruct (PoolFacts.finished_result workFn items k s Hinv Hfin) as [Hp Hr].
    split_and!; [done|by destruct Hfin|done|].
    intros Hnodup. by apply (PoolFacts.finished_size workFn items k).
  - intros Hnot. eapply PoolFacts.step_progress; [|done|done]. lia.
  - intros s'. apply PoolFacts.step_measure.
Qed.

Lemma C5_pool_result_independent_of_schedule_witness :
  (1 <= 2)%nat
  /\ rtc (Pool.step Samples.sample_work)
       (Pool.init 2 ["a.yaml"; "b.yaml"]%string) Samples.drained_pool
  /\ Pool.finished Samples.drained_pool
  /\ Pool.pending Samples.drained_pool = []
  /\ forall item,
       Pool.result Samples.drained_pool !! item
       = if decide (item ∈ ["a.yaml"; "b.yaml"]%string) then Samples.sample_work item
         else None.
Proof.
  assert (Hrun : rtc (Pool.step Samples.sample_work)
                   (Pool.init 2 ["a.yaml"; "b.yaml"]%string) Samples.drained_pool).
  { eapply rtc_l; [eapply (Pool.step_send _ _ 0%nat); reflexivity|].
    eapply rtc_l; [eapply (Pool.step_send _ _ 1%nat); reflexivity|].
    eapply rtc_l; [eapply (Pool.step_drop _ _ 1%nat); reflexivity|].
    eapply rtc_l; [eapply (Pool.step_store _ _ 0%nat); reflexivity|].
    eapply rtc_l; [eapply Pool.step_close; reflexivity|].
    eapply rtc_l; [eapply (Pool.step_exit _ _ 0%nat); reflexivity|].
    eapply rtc_l; [eapply (Pool.step_exit _ _ 1%nat); reflexivity|].
    apply rtc_refl. }
  assert (Hfin : Pool.finished Samples.drained_pool).
  { split; [reflexivity|]. repeat constructor. }
  split; [lia|]. split; [exact Hrun|]. split; [exact Hfin|].
  destruct (C5_pool_result_independent_of_schedule Samples.sample_work
              ["a.yaml"; "b.yaml"]%string 2 Samples.drained_pool ltac:(lia) Hrun)
    as (Hdone & _ & _).
  destruct (Hdone Hfin) as (Hp & _ & Hr & _). split; [exact Hp|exact Hr].
Defined.

(* ===================================================================== *)
(** * The log miner                                                       *)
(* ===================================================================== *)

(** C8, counterexample: the error line of the specification starts with
    [level=error]; the pattern asks for a space before it, so the line
    matches nothing and the table of error messages stays empty. *)
Lemma C8_bare_error_line_counterexample : ~ Stated.log_examples.
Proof.
  intros [_ Herr].
  apply (f_equal (fun m : gmap string Z => m !! "disk full"%string)) in Herr.
  vm_compute in Herr. discriminate.
Qed.

Module RegexpFacts.
Import Regexp.

Section Find.
Variable here : string -> option (list string * nat).

(** At most [n] matches are returned. *)
Lemma find_all_length s :
  forall skip n, (length (find_all here s skip n) <= Z.to_nat n)%nat.
Proof.
  induction s as [|c s IH]; intros skip n; simpl; [lia|].
  destruct skip as [|skip]; [|apply IH].
  destruct (n <=? 0) eqn:E; [simpl; lia|].
  destruct (here (String c s)) as [[m l]|]; [|apply IH].
  simpl. specialize (IH (l - 1)%nat (n - 1)). lia.
Qed.

(** Every match returned is a match of the pattern somewhere. *)
Lemma find_all_here (P : list string -> Prop) :
  (forall s m l, here s = Some (m, l) -> P m) ->
  forall s skip n, Forall P (find_all here s skip n).
Proof.
  intros HP. induction s as [|c s IH]; intros skip n; simpl; [constructor|].
  destruct skip as [|skip]; [|apply IH].
  destruct (n <=? 0); [constructor|].
  destruct (here (String c s)) as [[m l]|] eqn:Hm; [|apply IH].
  constructor; [by eapply HP|apply IH].
Qed.

Lemma FindStringSubmatch_here (P : list string -> Prop) :
  P [] -> (forall s m l, here s = Some (m, l) -> P m) ->
  forall s, P (FindStringSubmatch here s).
Proof.
  intros Hnil HP. induction s as [|c s IH]; simpl.
  - destruct (here EmptyString) as [[m l]|] eqn:Hm; [by eapply HP|done].
  - destruct (here (String c s)) as [[m l]|] eqn:Hm; [by eapply HP|done].
Qed.
End Find.
End RegexpFacts.

Module MinerFacts.
Import Go GoFacts Counts CountFacts LogMiner.

Lemma record_tests_table logsURL matches :
  forall st,
    failedTestCount (fold_left (record_test logsURL) matches st)
    = fold_left (fun m name => bump name m) (captures matches) (failedTestCount st)
    /\ errors (fold_left (record_test logsURL) matches st) = errors st.
Proof.
  induction matches as [|m matches IH]; intros st; [done|].
  simpl. destruct (IH (record_test logsURL st m)) as [-> ->].
  unfold captures. simpl.
  destruct m as [|whole [|name [|? ?]]]; simpl; done.
Qed.

Lemma record_errors_table matches :
  forall st,
    failedTestCount (fold_left record_error matches st) = failedTestCount st
    /\ errors (fold_left record_error matches st) = errors st ++ concat matches
    /\ errorURLs (fold_left record_error matches st) = errorURLs st.
Proof.
  induction matches as [|m matches IH]; intros st; simpl.
  - by rewrite app_nil_r.
  - destruct (IH (record_error st m)) as (-> & -> & ->). simpl.
    by rewrite app_assoc.
Qed.

Lemma errorLogCount_payloads errors :
  forall m,
    fold_left record_message errors m
    = fold_left (fun m payload => bump payload m) (payloads errors) m.
Proof.
  induction errors as [|e errors IH]; intros m; [done|].
  simpl. rewrite IH. unfold payloads, captures, record_message. simpl.
  destruct (Regexp.FindStringSubmatch Regexp.msg_here e) as [|whole [|payload [|? ?]]];
    done.
Qed.
End MinerFacts.

Module StringFacts.
Import Regexp.
Local Open Scope string_scope.

Lemma append_cons x (a b : string) : String x a ++ b = String x (a ++ b).
Proof. reflexivity. Qed.

Lemma append_nil_l (b : string) : EmptyString ++ b = b.
Proof. reflexivity. Qed.

Ltac sred := rewrite ?append_cons, ?append_nil_l; simpl.

Lemma append_assoc (a b c : string) : (a ++ b) ++ c = a ++ (b ++ c).
Proof. induction a as [|x a IH]; sred; [done|]. by rewrite IH. Qed.

Lemma append_nil_r (a : string) : a ++ EmptyString = a.
Proof. induction a as [|x a IH]; sred; [done|]. by rewrite IH. Qed.

Lemma length_append (a b : string) :
  String.length (a ++ b) = (String.length a + String.length b)%nat.
Proof. induction a as [|x a IH]; sred; [done|]. by rewrite IH. Qed.

Lemma has_prefix_app p s : has_prefix p (p ++ s) = true.
Proof.
  induction p as [|a p IH]; sred; [done|]. by rewrite Ascii.eqb_refl, IH.
Qed.

Lemma has_prefix_inv p :
  forall s, has_prefix p s = true -> s = p ++ drop_string (String.length p) s.
Proof.
  induction p as [|a p IH]; intros s Hp; sred; simpl in Hp; [done|].
  destruct s as [|b s]; [done|]. apply andb_true_iff in Hp as [Hab Hp].
  apply Ascii.eqb_eq in Hab. subst b. f_equal. by apply IH.
Qed.

Lemma drop_string_app p s : drop_string (String.length p) (p ++ s) = s.
Proof. induction p as [|a p IH]; sred; [by destruct s|done]. Qed.

Lemma take_string_app p s : take_string (String.length p) (p ++ s) = p.
Proof.
  induction p as [|a p IH]; sred; [by destruct s|]. by rewrite IH.
Qed.

Lemma take_drop_string n : forall s, take_string n s ++ drop_string n s = s.
Proof.
  induction n as [|n IH]; intros s; simpl; [by destruct s|].
  destruct s as [|c s]; sred; [done|]. by rewrite IH.
Qed.

Lemma has_char_app c a b : has_char c (a ++ b) = has_char c a || has_char c b.
Proof.
  induction a as [|x a IH]; sred; [done|]. by rewrite IH, orb_assoc.
Qed.

(** ** Lines *)

Lemma line_of_no_newline s : has_char newline (line_of s) = false.
Proof.
  induction s as [|c s IH]; simpl; [done|].
  destruct (Ascii.eqb c newline) eqn:E; simpl; [done|]. by rewrite E, IH.
Qed.

Lemma line_of_app l r :
  has_char newline l = false -> line_of (l ++ r) = l ++ line_of r.
Proof.
  induction l as [|c l IH]; sred; [done|]. intros Hl.
  apply orb_false_iff in Hl as [Hc Hl]. rewrite Hc. by rewrite IH.
Qed.

Lemma line_of_newline r : line_of (String newline r) = EmptyString.
Proof. reflexivity. Qed.

Lemma line_of_prefix s : s = line_of s ++ drop_string (String.length (line_of s)) s.
Proof.
  induction s as [|c s IH]; simpl; [done|].
  destruct (Ascii.eqb c newline); sred; [done|]. by rewrite <- IH.
Qed.

Lemma take_string_prefix n : forall a b,
  (n <= String.length a)%nat -> take_string n (a ++ b) = take_string n a.
Proof.
  induction n as [|n IH]; intros a b Hn; simpl; [by destruct a; destruct b|].
  destruct a as [|c a]; sred; simpl in Hn; [lia|]. rewrite IH; [done|lia].
Qed.

Lemma has_char_take c n : forall s,
  has_char c s = false -> has_char c (take_string n s) = false.
Proof.
  induction n as [|n IH]; intros s Hs; simpl; [by destruct s|].
  destruct s as [|a s]; simpl in *; [done|].
  apply orb_false_iff in Hs as [Ha Hs]. by rewrite Ha, IH.
Qed.

Lemma length_take_string n : forall s,
  (n <= String.length s)%nat -> String.length (take_string n s) = n.
Proof.
  induction n as [|n IH]; intros s Hn; simpl; [by destruct s|].
  destruct s as [|a s]; simpl in *; [lia|]. rewrite IH; [done|lia].
Qed.

(** ** The last occurrence *)

(** What [last_index_from] returns is the position of an occurrence after
    which there is no other, or what was found before if there is none. *)
Lemma last_index_from_Some needle s :
  has_prefix needle EmptyString = false ->
  forall i found j,
    last_index_from needle s i found = Some j ->
    (found = Some j /\ occurs needle s = false)
    \/ (exists d, j = (i + d)%nat /\ (d < String.length s)%nat
                  /\ has_prefix needle (drop_string d s) = true
                  /\ occurs needle (drop_string (S d) s) = false).
Proof.
  intros Hne. induction s as [|c s IH]; intros i found j Hj; simpl in Hj.
  - rewrite Hne in Hj. left. simpl. by rewrite Hne.
  - apply IH in Hj as [[Hf Hocc]|(d & -> & Hd & Hp & Hocc)].
    + destruct (has_prefix needle (String c s)) eqn:Hp.
      * right. exists 0%nat. injection Hf as <-. simpl.
        split_and!; try done; lia.
      * left. simpl. simpl in Hp. rewrite Hp. done.
    + right. exists (S d). simpl. split_and!; try done; lia.
Qed.

(** Where [needle] does not occur, what was found before stays. *)
Lemma last_index_from_absent needle s :
  forall k found,
    occurs needle s = false -> last_index_from needle s k found = found.
Proof.
  induction s as [|y s IH]; intros k found Ho; simpl in *.
  - apply orb_false_iff in Ho as [Hp _]. by rewrite Hp.
  - apply orb_false_iff in Ho as [Hp Ho]. simpl in Hp. rewrite Hp. by apply IH.
Qed.

(** With no occurrence further on, the last one is the one that follows
    [a]. *)
Lemma last_index_from_at (needle a rest : string) :
  occurs needle (drop_string 1 (needle ++ rest)) = false ->
  forall i found,
    last_index_from needle (a ++ needle ++ rest) i found
    = Some (i + String.length a)%nat.
Proof.
  intros Hocc. induction a as [|c a IH]; intros i found.
  - rewrite append_nil_l. simpl String.length. rewrite Nat.add_0_r.
    pose proof (has_prefix_app needle rest) as Hp.
    destruct (needle ++ rest) as [|x s] eqn:E.
    + simpl. by rewrite Hp.
    + simpl in Hocc. cbn [last_index_from]. rewrite Hp.
      by apply last_index_from_absent.
  - rewrite append_cons. cbn [last_index_from String.length].
    replace (i + S (String.length a))%nat with (S i + String.length a)%nat by lia.
    apply IH.
Qed.
End StringFacts.

Module PatternFacts.
Import Regexp StringFacts.
Local Open Scope string_scope.

Lemma line_of_rest s : line_of (drop_string (String.length (line_of s)) s) = EmptyString.
Proof.
  induction s as [|c s IH]; simpl; [done|].
  destruct (Ascii.eqb c newline) eqn:E; simpl; [by rewrite E|done].
Qed.

(** A match of the test pattern is the literal, a capture without line
    feed, and the closing bracket and colon, which do not occur again in
    what is left of the line. *)
Lemma test_here_sound s m l :
  test_here s = Some (m, l) ->
  exists cap rest,
    s = "Test [" ++ cap ++ "]:" ++ rest
    /\ m = ["Test [" ++ cap ++ "]:"; cap]
    /\ l = String.length ("Test [" ++ cap ++ "]:")
    /\ has_char newline cap = false
    /\ occurs "]:" (line_of rest) = false.
Proof.
  unfold test_here. destruct (has_prefix "Test [" s) eqn:Hp; [|done].
  apply has_prefix_inv in Hp. change (String.length "Test [") with 6%nat in Hp.
  set (t := drop_string 6 s) in *.
  destruct (last_index_from "]:" (line_of t) 0 None) as [j|] eqn:Hj; [|done].
  remember (take_string (6 + j + 2) s) as whole eqn:Hwhole.
  remember (6 + j + 2)%nat as total eqn:Htotal.
  intros [= <- <-].
  apply last_index_from_Some in Hj as [[? _]|(d & Hjd & Hd & Hclose & Hmax)];
    [done| |done].
  simpl in Hjd. subst j. apply has_prefix_inv in Hclose.
  change (String.length "]:") with 2%nat in Hclose.
  set (line := line_of t) in *.
  set (r2 := drop_string 2 (drop_string d line)) in *.
  pose proof (line_of_prefix t) as Ht. fold line in Ht.
  set (rest0 := drop_string (String.length line) t) in *.
  assert (Hline : line = take_string d line ++ "]:" ++ r2).
  { rewrite <- Hclose. symmetry. apply take_drop_string. }
  assert (Hcap : take_string d t = take_string d line).
  { rewrite Ht at 1. apply take_string_prefix. lia. }
  assert (Hlen : String.length (take_string d line) = d).
  { apply length_take_string. lia. }
  exists (take_string d line), (r2 ++ rest0). split_and!.
  - rewrite Hp at 1. f_equal. rewrite Ht at 1. rewrite Hline at 1.
    by rewrite !append_assoc.
  - rewrite Hcap. f_equal. rewrite Hwhole.
    assert (Hs : s = ("Test [" ++ take_string d line ++ "]:") ++ (r2 ++ rest0)).
    { rewrite Hp at 1. rewrite Ht at 1. rewrite Hline at 1.
      by rewrite !append_assoc. }
    rewrite Hs at 1.
    replace total
      with (String.length ("Test [" ++ take_string d line ++ "]:")).
    + by rewrite take_string_app.
    + rewrite Htotal, !length_append, Hlen. simpl. lia.
  - rewrite Htotal, !length_append, Hlen. simpl. lia.
  - apply has_char_take, line_of_no_newline.
  - assert (Hr2 : has_char newline r2 = false).
    { pose proof (line_of_no_newline t) as Hno. fold line in Hno.
      rewrite Hline, !has_char_app in Hno.
      apply orb_false_iff in Hno as [_ Hno]. by apply orb_false_iff in Hno as [_ Hno]. }
    rewrite line_of_app by done. unfold rest0, line. rewrite line_of_rest, append_nil_r.
    replace (drop_string (S d) line) with (String ":" r2) in Hmax.
    + simpl in Hmax. done.
    + rewrite Hline at 1.
      replace (S d) with (String.length (take_string d line ++ "]")).
      * replace (take_string d line ++ "]:" ++ r2)
          with ((take_string d line ++ "]") ++ String ":" r2).
        -- by rewrite drop_string_app.
        -- by rewrite append_assoc.
      * rewrite length_append, Hlen. simpl. lia.
Qed.

(** A match of the error pattern is the literal with its leading space
    and the rest of the line. *)
Lemma error_here_sound s m l :
  error_here s = Some (m, l) ->
  exists text rest,
    s = " level=error" ++ text ++ rest
    /\ m = [" level=error" ++ text]
    /\ l = String.length (" level=error" ++ text)
    /\ has_char newline text = false
    /\ line_of rest = EmptyString.
Proof.
  unfold error_here. destruct (has_prefix " level=error" s) eqn:Hp; [|done].
  apply has_prefix_inv in Hp. change (String.length " level=error") with 12%nat in Hp.
  set (t := drop_string 12 s) in *. intros [= <- <-].
  exists (line_of t), (drop_string (String.length (line_of t)) t). split_and!; try done.
  - rewrite Hp at 1. f_equal. apply line_of_prefix.
  - apply line_of_no_newline.
  - apply line_of_rest.
Qed.

Lemma unquoted_of_no_quote s : has_char dquote (unquoted_of s) = false.
Proof.
  induction s as [|c s IH]; simpl; [done|].
  destruct (Ascii.eqb c dquote) eqn:E; simpl; [done|]. by rewrite E, IH.
Qed.

Lemma unquoted_of_prefix s :
  s = unquoted_of s ++ drop_string (String.length (unquoted_of s)) s.
Proof.
  induction s as [|c s IH]; simpl; [done|].
  destruct (Ascii.eqb c dquote); sred; [done|]. by rewrite <- IH.
Qed.

(** A match of the message pattern is the literal, a payload that is not
    empty and holds no double quote, and a double quote. *)
Lemma msg_here_sound s m l :
  msg_here s = Some (m, l) ->
  exists payload rest,
    s = msg_open ++ payload ++ String dquote rest
    /\ m = [msg_open ++ payload ++ String dquote EmptyString; payload]
    /\ payload <> EmptyString
    /\ has_char dquote payload = false.
Proof.
  unfold msg_here. destruct (has_prefix msg_open s) eqn:Hp; [|done].
  apply has_prefix_inv in Hp. change (String.length msg_open) with 5%nat in Hp.
  set (t := drop_string 5 s) in *.
  destruct (unquoted_of t) as [|c payload] eqn:Hpay; [done|].
  destruct (has_prefix _ (drop_string _ t)) eqn:Hq; [|done].
  remember (5 + String.length (String c payload) + 1)%nat as total eqn:Htotal.
  intros [= <- <-]. apply has_prefix_inv in Hq.
  change (String.length (String dquote EmptyString)) with 1%nat in Hq.
  pose proof (unquoted_of_prefix t) as Ht. rewrite Hpay in Ht.
  set (after := drop_string (String.length (String c payload)) t) in *.
  exists (String c payload), (drop_string 1 after).
  assert (Hs : s = msg_open ++ String c payload ++ String dquote (drop_string 1 after)).
  { rewrite Hp at 1. f_equal. rewrite Ht at 1. f_equal. exact Hq. }
  split_and!; try done.
  - f_equal. rewrite Hs at 1.
    replace (msg_open ++ String c payload ++ String dquote (drop_string 1 after))
      with ((msg_open ++ String c payload ++ String dquote EmptyString)
            ++ drop_string 1 after).
    + replace total
        with (String.length (msg_open ++ String c payload ++ String dquote EmptyString)).
      * by rewrite take_string_app.
      * rewrite Htotal, !length_append. simpl. lia.
    + rewrite !append_assoc. done.
  - rewrite <- Hpay. apply unquoted_of_no_quote.
Qed.
End PatternFacts.

Module LineFacts.
Import Regexp StringFacts PatternFacts.
Local Open Scope string_scope.

Section Find.
Variable here : string -> option (list string * nat).

Lemma find_all_exhausted s skip n :
  (n <= 0)%Z -> find_all here s skip n = [] \/ skip <> 0%nat.
Proof.
  intros Hn. destruct skip; [left|by right].
  destruct s; simpl; [done|]. destruct (n <=? 0)%Z eqn:E; [done|lia].
Qed.

(** The bytes of a match are passed over. *)
Lemma find_all_skip a : forall r n,
  find_all here (a ++ r) (String.length a) n = find_all here r 0 n.
Proof.
  induction a as [|c a IH]; intros r n; sred; [done|]. apply IH.
Qed.

(** A stretch in which the pattern matches nowhere yields nothing. *)
Lemma find_all_absent a : forall r n,
  (forall d, (d < String.length a)%nat -> here (drop_string d (a ++ r)) = None) ->
  find_all here (a ++ r) 0 n = find_all here r 0 n.
Proof.
  induction a as [|c a IH]; intros r n Habs; sred; [done|].
  destruct (n <=? 0)%Z eqn:E.
  - destruct (find_all_exhausted r 0 n) as [->|]; [lia|done|done].
  - pose proof (Habs 0%nat ltac:(simpl; lia)) as H0. simpl in H0.
    rewrite append_cons in H0. rewrite H0.
    apply IH. intros d Hd. apply (Habs (S d)). simpl. lia.
Qed.

(** A match at the head is taken, and the search goes on after it. *)
Lemma find_all_match mt r m n :
  mt <> EmptyString -> (0 < n)%Z ->
  here (mt ++ r) = Some (m, String.length mt) ->
  find_all here (mt ++ r) 0 n = m :: find_all here r 0 (n - 1)%Z.
Proof.
  intros Hne Hn Hm. destruct mt as [|c mt]; [done|].
  rewrite append_cons. cbn [find_all]. rewrite <- append_cons, Hm.
  destruct (n <=? 0)%Z eqn:E; [lia|]. f_equal.
  replace (String.length (String c mt) - 1)%nat with (String.length mt)
    by (simpl; lia).
  apply find_all_skip.
Qed.
End Find.

(** ** Where a literal cannot start *)

Lemma occurs_drop needle s d :
  occurs needle s = false -> has_prefix needle (drop_string d s) = false.
Proof.
  revert d. induction s as [|c s IH]; intros d Ho; simpl in Ho.
  - apply orb_false_iff in Ho as [Hp _]. by destruct d.
  - apply orb_false_iff in Ho as [Hp Ho]. destruct d as [|d]; [done|]. by apply IH.
Qed.

(** A literal without the byte [c] that starts in [u], before a [c],
    lies within [u]. *)
Lemma has_prefix_before c p : forall u r,
  has_char c p = false ->
  has_prefix p (u ++ String c r) = true -> has_prefix p u = true.
Proof.
  induction p as [|a p IH]; intros u r Hc Hp; [done|].
  simpl in Hc. apply orb_false_iff in Hc as [Hac Hc].
  destruct u as [|b u].
  - rewrite append_nil_l in Hp. simpl in Hp.
    apply andb_true_iff in Hp as [Heq _]. congruence.
  - rewrite append_cons in Hp. simpl in *.
    apply andb_true_iff in Hp as [Heq Hp]. rewrite Heq. by eapply IH.
Qed.

Lemma drop_string_app_lt d : forall a r,
  (d <= String.length a)%nat -> drop_string d (a ++ r) = drop_string d a ++ r.
Proof.
  induction d as [|d IH]; intros a r Hd; simpl; [by destruct a; destruct r|].
  destruct a as [|c a]; simpl in Hd; [lia|]. rewrite append_cons. apply IH. lia.
Qed.

(** ** Lines that report a failed test *)

Lemma test_here_line name suffix rest :
  has_char newline name = false -> quiet suffix ->
  test_here (test_line name suffix ++ String newline rest)
  = Some (["Test [" ++ name ++ "]:"; name], String.length ("Test [" ++ name ++ "]:")).
Proof.
  intros Hname (Hnl & Hclose & _). unfold test_here, test_line.
  set (t := name ++ "]:" ++ suffix ++ String newline rest).
  assert (Hs : ("Test [" ++ name ++ "]:" ++ suffix) ++ String newline rest
               = "Test [" ++ t).
  { unfold t. by rewrite !append_assoc. }
  cbv zeta. rewrite Hs, has_prefix_app.
  replace (drop_string 6 ("Test [" ++ t)) with t
    by (symmetry; apply (drop_string_app "Test [")).
  assert (Hline : line_of t = name ++ "]:" ++ suffix).
  { unfold t. rewrite line_of_app by done.
    rewrite (line_of_app "]:") by done. rewrite line_of_app by done.
    by rewrite line_of_newline, append_nil_r. }
  rewrite Hline, last_index_from_at by done. rewrite Nat.add_0_l.
  assert (H3 : (6 + String.length name + 2)%nat
               = String.length ("Test [" ++ name ++ "]:")).
  { rewrite !length_append. simpl. lia. }
  assert (H1 : take_string (6 + String.length name + 2) ("Test [" ++ t)
               = "Test [" ++ name ++ "]:").
  { rewrite H3. unfold t.
    replace ("Test [" ++ name ++ "]:" ++ suffix ++ String newline rest)
      with (("Test [" ++ name ++ "]:") ++ suffix ++ String newline rest)
      by (by rewrite !append_assoc).
    apply take_string_app. }
  assert (H2 : take_string (String.length name) t = name).
  { unfold t. apply take_string_app. }
  rewrite H1, H2, H3. done.
Qed.

Lemma test_here_quiet suffix rest d :
  quiet suffix -> (d < String.length (suffix ++ String newline EmptyString))%nat ->
  test_here (drop_string d ((suffix ++ String newline EmptyString) ++ rest)) = None.
Proof.
  intros (_ & _ & Hno) Hd. rewrite length_append in Hd. simpl in Hd.
  rewrite append_assoc. rewrite append_cons, append_nil_l.
  rewrite drop_string_app_lt by lia. unfold test_here.
  destruct (has_prefix "Test [" (drop_string d suffix ++ String newline rest)) eqn:Hp;
    [|done].
  apply has_prefix_before in Hp; [|done].
  by rewrite occurs_drop in Hp.
Qed.

(** In a log made of such lines the pattern matches once per line, and the
    capture is the name. *)
Lemma test_lines_matches (lines : list (string * string)) :
  forall n,
    Forall (fun line => has_char newline (fst line) = false /\ quiet (snd line)) lines ->
    (Z.of_nat (length lines) <= n)%Z ->
    FindAllStringSubmatch test_here
      (body_of (map (fun line => test_line (fst line) (snd line)) lines)) n
    = map (fun line => ["Test [" ++ fst line ++ "]:"; fst line]) lines.
Proof.
  unfold FindAllStringSubmatch.
  induction lines as [|[name suffix] lines IH]; intros n Hall Hn; [done|].
  inversion Hall as [|? ? [Hname Hq] Hrest]; subst. simpl in Hname, Hq.
  simpl length in Hn. cbn [map body_of fold_right fst snd].
  fold (body_of (map (fun line => test_line (fst line) (snd line)) lines)).
  set (rest := body_of _).
  replace (test_line name suffix ++ String newline rest)
    with (("Test [" ++ name ++ "]:")
          ++ ((suffix ++ String newline EmptyString) ++ rest)).
  2:{ unfold test_line. rewrite !append_assoc. done. }
  rewrite (find_all_match test_here _ _ ["Test [" ++ name ++ "]:"; name]).
  - f_equal. rewrite find_all_absent.
    + apply IH; [done|lia].
    + intros d Hd. by apply test_here_quiet.
  - done.
  - lia.
  - rewrite <- (test_here_line name suffix rest Hname Hq). f_equal.
    unfold test_line. by rewrite !append_assoc.
Qed.
End LineFacts.

Module ErrorLineFacts.
Import Regexp StringFacts PatternFacts LineFacts.
Local Open Scope string_scope.

Lemma has_prefix_long p : forall a r,
  (String.length p <= String.length a)%nat -> has_prefix p (a ++ r) = has_prefix p a.
Proof.
  induction p as [|x p IH]; intros a r Hlen; [done|].
  destruct a as [|y a]; simpl in Hlen; [lia|]. rewrite append_cons. simpl.
  rewrite IH; [done|lia].
Qed.

Lemma length_drop_string d : forall s,
  String.length (drop_string d s) = (String.length s - d)%nat.
Proof.
  induction d as [|d IH]; intros s; simpl; [by destruct s; simpl; lia|].
  destruct s as [|c s]; simpl; [done|]. apply IH.
Qed.

Lemma error_text_line payload tail :
  has_char newline payload = false -> has_char newline tail = false ->
  line_of (drop_string 12 (error_text payload tail)
           ++ String newline EmptyString)
  = drop_string 12 (error_text payload tail).
Proof.
  intros Hp Ht. unfold error_text.
  change (drop_string 12 (" level=error " ++ msg_open ++ payload ++ String dquote tail))
    with (" " ++ msg_open ++ payload ++ String dquote tail).
  rewrite line_of_app; [by rewrite line_of_newline, append_nil_r|].
  rewrite !has_char_app, Hp. simpl. by rewrite Ht.
Qed.

(** The error pattern matches an error text up to the end of its line. *)
Lemma error_here_text payload tail rest :
  has_char newline payload = false -> has_char newline tail = false ->
  error_here (error_text payload tail ++ String newline rest)
  = Some ([error_text payload tail], String.length (error_text payload tail)).
Proof.
  intros Hp Ht. unfold error_here.
  assert (Hs : error_text payload tail ++ String newline rest
               = " level=error"
                 ++ ((" " ++ msg_open ++ payload ++ String dquote tail)
                     ++ String newline rest)).
  { unfold error_text. rewrite !append_assoc. done. }
  cbv zeta. rewrite Hs, has_prefix_app.
  replace (drop_string 12 (" level=error" ++ ((" " ++ msg_open ++ payload ++ String dquote tail)
                     ++ String newline rest)))
    with ((" " ++ msg_open ++ payload ++ String dquote tail) ++ String newline rest)
    by (symmetry; apply (drop_string_app " level=error")).
  rewrite line_of_app.
  2:{ rewrite !has_char_app, Hp. simpl. by rewrite Ht. }
  rewrite line_of_newline, append_nil_r.
  assert (Ht' : " level=error" ++ " " ++ msg_open ++ payload ++ String dquote tail
                = error_text payload tail).
  { reflexivity. }
  by rewrite Ht'.
Qed.

Lemma error_here_stamp stamp more d :
  first_after " level=error" stamp -> (d < String.length stamp)%nat ->
  error_here (drop_string d (stamp ++ " level=error" ++ more)) = None.
Proof.
  intros Hfirst Hd. unfold error_here.
  replace (stamp ++ " level=error" ++ more) with ((stamp ++ " level=error") ++ more)
    by (by rewrite append_assoc).
  rewrite drop_string_app_lt by (rewrite length_append; lia).
  rewrite has_prefix_long.
  - by rewrite Hfirst.
  - rewrite length_drop_string, length_append. simpl. lia.
Qed.

(** In a log made of error lines the pattern matches once per line, from
    the space before the level to the end of the line. *)
Lemma error_lines_matches (lines : list (string * string * string)) :
  forall n,
    Forall (fun line => error_line_ok (fst (fst line)) (snd (fst line)) (snd line)) lines ->
    (Z.of_nat (length lines) <= n)%Z ->
    FindAllStringSubmatch error_here
      (body_of (map (fun line => error_line (fst (fst line)) (snd (fst line)) (snd line))
                    lines)) n
    = map (fun line => [error_text (snd (fst line)) (snd line)]) lines.
Proof.
  unfold FindAllStringSubmatch.
  induction lines as [|[[stamp payload] tail] lines IH]; intros n Hall Hn; [done|].
  inversion Hall as [|? ? (Hfirst & Hne & Hq & Hp & Ht) Hrest]; subst.
  simpl in Hfirst, Hne, Hq, Hp, Ht.
  simpl length in Hn. cbn [map body_of fold_right fst snd].
  fold (body_of (map (fun line => error_line (fst (fst line)) (snd (fst line)) (snd line))
                     lines)).
  set (rest := body_of _).
  replace (error_line stamp payload tail ++ String newline rest)
    with (stamp ++ (error_text payload tail
                    ++ (String newline EmptyString ++ rest))).
  2:{ unfold error_line, error_text. rewrite !append_assoc. done. }
  rewrite find_all_absent.
  2:{ intros d Hd.
      replace (stamp ++ error_text payload tail ++ String newline EmptyString ++ rest)
        with (stamp ++ " level=error"
              ++ (" " ++ msg_open ++ payload ++ String dquote tail)
              ++ String newline EmptyString ++ rest).
      - by apply error_here_stamp.
      - unfold error_text. by rewrite !append_assoc. }
  rewrite (find_all_match error_here _ _ [error_text payload tail]).
  - f_equal. rewrite find_all_absent.
    + apply IH; [done|lia].
    + intros d Hd. simpl in Hd. destruct d as [|d]; [done|lia].
  - done.
  - lia.
  - rewrite append_cons, append_nil_l. by apply error_here_text.
Qed.

(** ** The message of an error text *)

Lemma unquoted_of_app payload tail :
  has_char dquote payload = false ->
  unquoted_of (payload ++ String dquote tail) = payload.
Proof.
  induction payload as [|c payload IH]; intros Hq; sred; [done|].
  simpl in Hq. apply orb_false_iff in Hq as [Hc Hq]. rewrite Hc. by rewrite IH.
Qed.

Lemma msg_here_payload payload tail :
  payload <> EmptyString -> has_char dquote payload = false ->
  msg_here (msg_open ++ payload ++ String dquote tail)
  = Some ([msg_open ++ payload ++ String dquote EmptyString; payload],
          String.length (msg_open ++ payload ++ String dquote EmptyString)).
Proof.
  intros Hne Hq. unfold msg_here. cbv zeta. rewrite has_prefix_app.
  replace (drop_string 5 (msg_open ++ payload ++ String dquote tail))
    with (payload ++ String dquote tail)
    by (symmetry; apply (drop_string_app msg_open)).
  rewrite unquoted_of_app by done.
  assert (Hm : forall (X : Type) (a b : X),
             match payload with EmptyString => a | String _ _ => b end = b).
  { intros X a b. by destruct payload. }
  rewrite Hm, drop_string_app. simpl has_prefix at 1.
  assert (H3 : (5 + String.length payload + 1)%nat
               = String.length (msg_open ++ payload ++ String dquote EmptyString)).
  { rewrite !length_append. simpl. lia. }
  rewrite H3.
  replace (msg_open ++ payload ++ String dquote tail)
    with ((msg_open ++ payload ++ String dquote EmptyString) ++ tail).
  - by rewrite take_string_app.
  - rewrite !append_assoc. done.
Qed.

Lemma FindStringSubmatch_head here s m l :
  here s = Some (m, l) -> FindStringSubmatch here s = m.
Proof. intros Hm. destruct s; simpl; by rewrite Hm. Qed.

(** The payload counted for an error text is its message. *)
Lemma error_text_payload payload tail :
  payload <> EmptyString -> has_char dquote payload = false ->
  FindStringSubmatch msg_here (error_text payload tail)
  = [msg_open ++ payload ++ String dquote EmptyString; payload].
Proof.
  intros Hne Hq. unfold error_text.
  set (r := msg_open ++ payload ++ String dquote tail).
  assert (Hr : FindStringSubmatch msg_here r
               = [msg_open ++ payload ++ String dquote EmptyString; payload]).
  { eapply FindStringSubmatch_head. by apply msg_here_payload. }
  rewrite <- Hr. clearbody r. clear. sred. reflexivity.
Qed.
End ErrorLineFacts.

Module MinerLineFacts.
Import Go GoFacts Counts CountFacts Regexp LogMiner MinerFacts.

Lemma mine_tables body :
  LogMiner.mine body
  = (fold_left (fun m name => bump name m)
       (captures (FindAllStringSubmatch test_here body 10000)) ∅,
     fold_left (fun m payload => bump payload m)
       (payloads (concat (FindAllStringSubmatch error_here body 10000))) ∅).
Proof.
  unfold mine, mine_body.
  destruct (record_errors_table (FindAllStringSubmatch error_here body 10000)
              (fold_left (record_test "log")
                 (FindAllStringSubmatch test_here body 10000) init)) as (-> & -> & _).
  destruct (record_tests_table "log" (FindAllStringSubmatch test_here body 10000) init)
    as [-> ->].
  unfold errorLogCount_of. rewrite errorLogCount_payloads. done.
Qed.

(** Counting from the empty table gives the number of occurrences. *)
Lemma count_of_tally (names : list string) name :
  len names <= maxInt64 ->
  count_of (fold_left (fun m x => bump x m) names ∅) name
  = len (filter (fun x => x = name) names).
Proof.
  intros Hlen. rewrite (count_of_bumps (fun x => x)).
  - unfold count_of at 1. rewrite lookup_empty. simpl. apply wrap64_id.
    pose proof (length_filter (fun x => x = name) names).
    unfold len, minInt64, maxInt64 in *. lia.
  - unfold count_of. rewrite lookup_empty. simpl. unfold in_int64, minInt64, maxInt64. lia.
Qed.

Lemma captures_pairs {A} (whole name : A -> string) (lines : list A) :
  captures (map (fun line => [whole line; name line]) lines) = map name lines.
Proof.
  unfold captures. induction lines as [|line lines IH]; [done|].
  simpl. f_equal. exact IH.
Qed.

Lemma concat_singletons {A B} (f : A -> B) (lines : list A) :
  concat (map (fun line => [f line]) lines) = map f lines.
Proof. induction lines as [|line lines IH]; simpl; [done|]. by rewrite IH. Qed.

Lemma payloads_error_texts (lines : list (string * string * string)) :
  Forall (fun line => error_line_ok (fst (fst line)) (snd (fst line)) (snd line)) lines ->
  payloads (map (fun line => error_text (snd (fst line)) (snd line)) lines)
  = map (fun line => snd (fst line)) lines.
Proof.
  intros Hall. unfold payloads.
  rewrite <- (captures_pairs
                (fun line => msg_open ++ snd (fst line) ++ String dquote EmptyString)%string
                (fun line => snd (fst line)) lines).
  f_equal. rewrite map_map.
  induction Hall as [|line lines (_ & Hne & Hq & _) Hall IH]; [done|].
  cbn [map]. rewrite ErrorLineFacts.error_text_payload by done. f_equal. exact IH.
Qed.
End MinerLineFacts.

(** C8, amended: from one body the miner takes at most 10000 matches of the
    test pattern and at most 10000 of the error pattern. A match of the test
    pattern is [Test [], a capture without line feed and []:], the capture
    running to the last []:] of the line; the count of a name goes up by the
    number of matches whose capture is that name. The error texts are the
    matches of [ level=error], with the space before it, up to the end of
    the line; the count of a payload is the number of error texts whose
    first [msg=] with a quoted payload that is not empty has that payload,
    and an error text without one changes no table. So in a log of lines
    [Test [name]:...], one report per line, each name is counted once per
    line, and in a log of lines [... level=error msg=...] each payload is
    counted once per line: three lines for [foo] and one for [bar] give 3
    and 1, and the payload [disk full] on two lines after a time stamp gives
    2; the same line starting with [level=error] at the first column matches
    nothing. *)
Theorem C8_log_miner_counts :
  (forall body,
      Go.len (Regexp.FindAllStringSubmatch Regexp.test_here body 10000) <= 10000
      /\ Go.len (Regexp.FindAllStringSubmatch Regexp.error_here body 10000) <= 10000
      /\ Forall (fun m => exists cap,
                     m = [("Test [" ++ cap ++ "]:")%string; cap]
                     /\ Regexp.has_char Regexp.newline cap = false)
           (Regexp.FindAllStringSubmatch Regexp.test_here body 10000)
      /\ Forall (fun m => exists text,
                     m = [(" level=error" ++ text)%string]
                     /\ Regexp.has_char Regexp.newline text = false)
           (Regexp.FindAllStringSubmatch Regexp.error_here body 10000))
  /\ (forall logsURL body st name,
         Go.in_int64 (Counts.count_of (LogMiner.failedTestCount st) name) ->
         Counts.count_of
           (LogMiner.failedTestCount (LogMiner.mine_body logsURL body st)) name
         = Go.wrap64
             (Counts.count_of (LogMiner.failedTestCount st) name
              + Go.len (filter (fun cap => cap = name)
                          (LogMiner.captures
                             (Regexp.FindAllStringSubmatch Regexp.test_here body 10000))))
         /\ LogMiner.errors (LogMiner.mine_body logsURL body st)
            = LogMiner.errors st
              ++ concat (Regexp.FindAllStringSubmatch Regexp.error_here body 10000))
  /\ (forall errors payload,
         Go.len (LogMiner.payloads errors) <= Go.maxInt64 ->
         Counts.count_of (LogMiner.errorLogCount_of errors) payload
         = Go.len (filter (fun p => p = payload) (LogMiner.payloads errors)))
  /\ (forall table errorMessage,
         Regexp.FindStringSubmatch Regexp.msg_here errorMessage = [] ->
         LogMiner.record_message table errorMessage = table)
  /\ (forall (lines : list (string * string)) name,
         Forall (fun line => Regexp.has_char Regexp.newline (fst line) = false
                             /\ Regexp.quiet (snd line)) lines ->
         Go.len lines <= 10000 ->
         Counts.count_of
           (fst (LogMiner.mine
                   (Regexp.body_of
                      (map (fun line => Regexp.test_line (fst line) (snd line)) lines))))
           name
         = Go.len (filter (fun cap => cap = name) (map fst lines)))
  /\ (forall (lines : list (string * string * string)) payload,
         Forall (fun line =>
                   Regexp.error_line_ok (fst (fst line)) (snd (fst line)) (snd line)) lines ->
         Go.len lines <= 10000 ->
         Counts.count_of
           (snd (LogMiner.mine
                   (Regexp.body_of
                      (map (fun line =>
                              Regexp.error_line (fst (fst line)) (snd (fst line)) (snd line))
                           lines))))
           payload
         = Go.len (filter (fun p => p = payload)
                     (map (fun line => snd (fst line)) lines)))
  /\ LogMiner.mine Samples.test_log
     = (<["foo"%string := 3]> (<["bar"%string := 1]> ∅), ∅)
  /\ LogMiner.mine Samples.error_log = (∅, <["disk full"%string := 2]> ∅)
  /\ LogMiner.mine Samples.bare_error_log = (∅, ∅)
  /\ fst (LogMiner.mine Samples.test_line) = <["foo]: Test [bar"%string := 1]> ∅.
Proof.
  split_and!.
  - intros body. split_and!.
    + pose proof (RegexpFacts.find_all_length Regexp.test_here body 0 10000) as Hl.
      unfold Go.len, Regexp.FindAllStringSubmatch. lia.
    + pose proof (RegexpFacts.find_all_length Regexp.error_here body 0 10000) as Hl.
      unfold Go.len, Regexp.FindAllStringSubmatch. lia.
    + apply RegexpFacts.find_all_here. intros s m l Hm.
      destruct (PatternFacts.test_here_sound s m l Hm) as (cap & rest & _ & -> & _ & Hc & _).
      by exists cap.
    + apply RegexpFacts.find_all_here. intros s m l Hm.
      destruct (PatternFacts.error_here_sound s m l Hm)
        as (text & rest & _ & -> & _ & Hc & _).
      by exists text.
  - intros logsURL body st name Hin. unfold LogMiner.mine_body.
    destruct (MinerFacts.record_errors_table
                (Regexp.FindAllStringSubmatch Regexp.error_here body 10000)
                (fold_left (LogMiner.record_test logsURL)
                   (Regexp.FindAllStringSubmatch Regexp.test_here body 10000) st))
      as (-> & -> & _).
    destruct (MinerFacts.record_tests_table logsURL
                (Regexp.FindAllStringSubmatch Regexp.test_here body 10000) st) as [-> ->].
    split; [|done].
    by apply (CountFacts.count_of_bumps (fun x => x)).
  - intros errors payload Hlen. unfold LogMiner.errorLogCount_of.
    rewrite MinerFacts.errorLogCount_payloads.
    by apply MinerLineFacts.count_of_tally.
  - intros table errorMessage Hnone. unfold LogMiner.record_message. by rewrite Hnone.
  - intros lines name Hall Hlen. rewrite MinerLineFacts.mine_tables. simpl fst.
    rewrite LineFacts.test_lines_matches by (done || (unfold Go.len in Hlen; lia)).
    rewrite MinerLineFacts.captures_pairs.
    apply MinerLineFacts.count_of_tally.
    unfold Go.len, Go.maxInt64 in *. rewrite length_map. lia.
  - intros lines payload Hall Hlen. rewrite MinerLineFacts.mine_tables. simpl snd.
    rewrite ErrorLineFacts.error_lines_matches by (done || (unfold Go.len in Hlen; lia)).
    rewrite MinerLineFacts.concat_singletons.
    rewrite MinerLineFacts.payloads_error_texts by done.
    apply MinerLineFacts.count_of_tally.
    unfold Go.len, Go.maxInt64 in *. rewrite length_map. lia.
  - vm_compute. reflexivity.
  - vm_compute. reflexivity.
  - vm_compute. reflexivity.
  - vm_compute. reflexivity.
Qed.

Lemma C8_log_miner_counts_witness :
  let lines := [("foo", " timed out"); ("bar", " refused"); ("foo", " again")]%string in
  Forall (fun line => Regexp.has_char Regexp.newline (fst line) = false
                      /\ Regexp.quiet (snd line)) lines
  /\ Go.len lines <= 10000
  /\ Counts.count_of
       (fst (LogMiner.mine
               (Regexp.body_of
                  (map (fun line => Regexp.test_line (fst line) (snd line)) lines))))
       "foo"
     = 2.
Proof.
  intros lines.
  assert (Hall : Forall (fun line => Regexp.has_char Regexp.newline (fst line) = false
                                     /\ Regexp.quiet (snd line)) lines).
  { repeat constructor. }
  assert (Hlen : Go.len lines <= 10000) by (vm_compute; discriminate).
  split; [exact Hall|]. split; [exact Hlen|].
  destruct C8_log_miner_counts as (_ & _ & _ & _ & Hlines & _).
  etrans; [exact (Hlines lines "foo"%string Hall Hlen)|reflexivity].
Defined.

(* ===================================================================== *)
(** * Sorting what a comparator orders                                    *)
(* ===================================================================== *)

Module SortOnFacts.
Import Slices.

Section SortOn.
Context {E : Type} (cmp : E -> E -> Z) (P : E -> Prop).

(** The comparator orders the elements that satisfy [P]. *)
Hypothesis total : forall x y, P x -> P y -> may_precede cmp x y \/ may_precede cmp y x.
Hypothesis trans :
  forall x y z, P x -> P y -> P z ->
                may_precede cmp x y -> may_precede cmp y z -> may_precede cmp x z.

Lemma move_left_sorted_on x p :
  P x -> Forall P p ->
  StronglySorted (flip (may_precede cmp)) p ->
  StronglySorted (flip (may_precede cmp)) (move_left cmp x p).
Proof.
  intros Hx HP Hs. induction Hs as [|y p Hp IH Hy]; simpl; [repeat constructor|].
  inversion HP as [|? ? Hpy HPp]; subst.
  destruct (cmp x y <? 0) eqn:Hlt.
  - constructor; [by apply IH|].
    rewrite (SortFacts.move_left_perm cmp x p). constructor; [|done].
    unfold flip. destruct (total x y Hx Hpy) as [Hxy|Hyx]; [done|].
    unfold may_precede in Hyx. congruence.
  - constructor; [by constructor|]. constructor; [done|].
    rewrite Forall_forall in Hy, HPp. apply Forall_forall. intros z Hz.
    unfold flip in *. apply (trans z y x); auto.
Qed.

Lemma SortFunc_sorted_on data :
  Forall P data -> StronglySorted (may_precede cmp) (SortFunc cmp data).
Proof.
  intros HP. unfold SortFunc. apply SortFacts.StronglySorted_rev.
  assert (Hgen : forall p,
             Forall P p -> StronglySorted (flip (may_precede cmp)) p ->
             Forall P (fold_left (fun rev_prefix x => move_left cmp x rev_prefix) data p)
             /\ StronglySorted (flip (may_precede cmp))
                  (fold_left (fun rev_prefix x => move_left cmp x rev_prefix) data p)).
  { induction HP as [|x data Hx HP IH]; intros p Hp Hs; simpl; [done|].
    apply IH.
    - rewrite (SortFacts.move_left_perm cmp x p). by constructor.
    - by apply move_left_sorted_on. }
  apply Hgen; constructor.
Qed.
End SortOn.
End SortOnFacts.

Module RankingFacts.
Import Go GoFacts Slices Ranking.

Lemma StronglySorted_mono_on {E} (P : E -> Prop) (R S : E -> E -> Prop) l :
  Forall P l -> (forall x y, P x -> P y -> R x y -> S x y) ->
  StronglySorted R l -> StronglySorted S l.
Proof.
  intros HP HRS Hs. induction Hs as [|y l Hl IH Hy]; [constructor|].
  inversion HP as [|? ? Hpy HPl]; subst. constructor; [by apply IH|].
  rewrite Forall_forall in Hy, HPl. apply Forall_forall. intros z Hz. auto.
Qed.

(** Between counts that are not negative the comparator does not wrap. *)
Lemma by_count_precede a b :
  0 <= Count a <= maxInt64 -> 0 <= Count b <= maxInt64 ->
  may_precede by_count a b <-> Count b <= Count a.
Proof.
  intros Ha Hb. unfold may_precede, by_count.
  rewrite wrap64_id by (unfold minInt64, maxInt64 in *; lia).
  rewrite Z.ltb_ge. lia.
Qed.
End RankingFacts.

(** X1: [sortMapByValue] returns one entry per key of the map, with the
    count of that key, and lists them by descending count, whatever the
    order in which the map is visited; counts are taken not to be negative,
    as those that [bump] produces below 2^63 are. *)
Theorem X1_sortMapByValue_ranks_the_map
    (m : gmap string Z) (entries : list (string * Z)) :
  entries ≡ₚ map_to_list m ->
  (forall name c, m !! name = Some c -> 0 <= c <= Go.maxInt64) ->
  let ranked := Ranking.sortMapByValue entries in
  (forall name c,
      {| Ranking.Name := name; Ranking.Count := c |} ∈ ranked <-> m !! name = Some c)
  /\ length ranked = size m
  /\ StronglySorted (fun a b => Ranking.Count b <= Ranking.Count a) ranked.
Proof.
  intros Hperm Hpos ranked.
  set (mk := fun entry : string * Z =>
               {| Ranking.Name := fst entry; Ranking.Count := snd entry |}).
  assert (Hranked : ranked ≡ₚ map mk (map_to_list m)).
  { unfold ranked, Ranking.sortMapByValue. rewrite SortFacts.SortFunc_perm.
    fold mk. by apply Permutation_map. }
  assert (Hin : forall name c,
             {| Ranking.Name := name; Ranking.Count := c |} ∈ ranked
             <-> m !! name = Some c).
  { intros name c. rewrite Hranked, list_elem_of_In, in_map_iff. split.
    - intros ([n c'] & Heq & Hin). injection Heq as -> ->.
      by apply list_elem_of_In, elem_of_map_to_list in Hin.
    - intros Hm. exists (name, c). split; [done|].
      by apply list_elem_of_In, elem_of_map_to_list. }
  assert (HP : Forall (fun a => 0 <= Ranking.Count a <= Go.maxInt64)
                 (map mk entries)).
  { apply Forall_forall. intros a Ha.
    apply list_elem_of_In, in_map_iff in Ha as ([n c] & <- & Hin').
    apply list_elem_of_In in Hin'. rewrite Hperm in Hin'.
    apply elem_of_map_to_list in Hin'. simpl. by eapply Hpos. }
  split_and!.
  - exact Hin.
  - rewrite Hranked, length_map. apply length_map_to_list.
  - unfold ranked, Ranking.sortMapByValue. fold mk.
    eapply (RankingFacts.StronglySorted_mono_on
              (fun a => 0 <= Ranking.Count a <= Go.maxInt64)).
    + rewrite SortFacts.SortFunc_perm. exact HP.
    + intros x y Hx Hy Hxy. by apply RankingFacts.by_count_precede.
    + apply (SortOnFacts.SortFunc_sorted_on Ranking.by_count
               (fun a => 0 <= Ranking.Count a <= Go.maxInt64)); [| |exact HP].
      * intros x y Hx Hy. rewrite !RankingFacts.by_count_precede by done. lia.
      * intros x y z Hx Hy Hz. rewrite !RankingFacts.by_count_precede by done. lia.
Qed.

Lemma X1_sortMapByValue_ranks_the_map_witness :
  let m : gmap string Z := <["lint"%string := 1]> (<["build"%string := 3]> ∅) in
  map_to_list m ≡ₚ map_to_list m
  /\ (forall name c, m !! name = Some c -> 0 <= c <= Go.maxInt64)
  /\ length (Ranking.sortMapByValue (map_to_list m)) = size m
  /\ StronglySorted (fun a b => Ranking.Count b <= Ranking.Count a)
       (Ranking.sortMapByValue (map_to_list m)).
Proof.
  intros m.
  assert (Hpos : forall name c, m !! name = Some c -> 0 <= c <= Go.maxInt64).
  { intros name c Hm. unfold m in Hm.
    apply lookup_insert_Some in Hm as [[_ <-]|[_ Hm]]; [unfold Go.maxInt64; lia|].
    apply lookup_insert_Some in Hm as [[_ <-]|[_ Hm]]; [unfold Go.maxInt64; lia|].
    by rewrite lookup_empty in Hm. }
  split; [reflexivity|]. split; [exact Hpos|].
  destruct (X1_sortMapByValue_ranks_the_map m (map_to_list m) (reflexivity _) Hpos)
    as (_ & Hlen & Hsorted).
  split; [exact Hlen|exact Hsorted].
Defined.

(* ===================================================================== *)
(** * The tables of the summary                                           *)
(* ===================================================================== *)

Module SummaryFacts.
Import Go GoFacts Github Dashboard Slices.

Section Arch.
Variable u : spec_float -> Z.

Lemma stats_of_nil wf : stats_of u wf [] = None.
Proof. done. Qed.

Lemma stats_of_Some wf runs :
  length runs <> 0%nat ->
  exists st, stats_of u wf runs = Some st
             /\ workflow st = wf /\ count st = len runs /\ 0 < count st.
Proof.
  intros Hne. unfold stats_of.
  assert (0 < len runs) by (unfold len; lia).
  destruct (len runs =? 0) eqn:E; [lia|].
  destruct (index_Some runs (len runs - 1)) as [x ->]; [lia|].
  destruct (index_Some runs 0) as [y ->]; [lia|]. simpl.
  unfold tally. destruct (len runs <? len runs) eqn:E2; [lia|]. simpl.
  destruct (fold_left _ _ _) as [s t]. eauto.
Qed.

(** The workflows of the summary are those with at least one run, in the
    order in which the map is visited. *)
Lemma statsList_workflows (result : list (string * list WorkflowRun.t)) :
  map workflow (statsList_of u result)
  = map fst (filter (fun entry => length (snd entry) <> 0%nat) result).
Proof.
  unfold statsList_of. induction result as [|[wf runs] result IH]; [done|].
  rewrite filter_cons. simpl. destruct (decide (length runs <> 0%nat)) as [Hne|He].
  - destruct (stats_of_Some wf runs Hne) as (st & -> & <- & _). simpl. f_equal. exact IH.
  - assert (runs = []) as -> by (destruct runs; [done|simpl in He; lia]).
    rewrite stats_of_nil. exact IH.
Qed.

Lemma statsList_entries (result : list (string * list WorkflowRun.t)) :
  Forall (fun st => exists runs,
              (workflow st, runs) ∈ result /\ count st = len runs /\ 0 < count st)
         (statsList_of u result).
Proof.
  unfold statsList_of. induction result as [|[wf runs] result IH]; [constructor|].
  simpl. destruct (stats_of u wf runs) as [st|] eqn:Hst.
  - constructor.
    + destruct (decide (length runs = 0%nat)) as [He|Hne].
      * destruct runs; [by rewrite stats_of_nil in Hst|simpl in He; lia].
      * destruct (stats_of_Some wf runs Hne) as (st' & Hst' & Hw & Hc & Hp).
        rewrite Hst in Hst'. injection Hst' as <-. exists runs. rewrite Hw.
        split; [by left|done].
    + eapply Forall_impl; [exact IH|]. intros st' (runs' & Hin & Hc).
      exists runs'. split; [by right|done].
  - eapply Forall_impl; [exact IH|]. intros st' (runs' & Hin & Hc).
    exists runs'. split; [by right|done].
Qed.

Lemma top_rows_length {A} top (l : list A) :
  length (top_rows top l) = Nat.min (Z.to_nat top) (length l).
Proof. unfold top_rows. apply length_take. Qed.

Lemma top_rows_part {A} top (l : list A) : exists rest, top_rows top l ++ rest = l.
Proof. exists (drop (Z.to_nat top) l). apply take_drop. Qed.

Lemma StronglySorted_take {A} (R : A -> A -> Prop) n l :
  StronglySorted R l -> StronglySorted R (take n l).
Proof.
  intros Hs. revert n. induction Hs as [|x l Hl IH Hx]; intros [|n]; simpl;
    try constructor; [apply IH|]. by apply Forall_take.
Qed.

(** Between durations of less than 2^62 nanoseconds either way the
    comparator of the second sort does not wrap. *)
Lemma by_averageDuration_precede a b :
  - 2 ^ 62 <= averageDuration a < 2 ^ 62 ->
  - 2 ^ 62 <= averageDuration b < 2 ^ 62 ->
  may_precede by_averageDuration a b <-> averageDuration b <= averageDuration a.
Proof.
  intros Ha Hb. unfold may_precede, by_averageDuration.
  rewrite wrap64_id by (unfold minInt64, maxInt64; lia).
  rewrite Z.ltb_ge. lia.
Qed.
End Arch.
End SummaryFacts.

(** X2: [printSummary] leaves out the workflows without runs and keeps the
    others; each of its two tables has [top] rows, or as many as there are
    such workflows if they are fewer (none when [top] is negative), and the
    rows of a table are distinct entries of the list of statistics. *)
Theorem X2_summary_tables_rows (u : spec_float -> Z)
    (result : list (string * list Github.WorkflowRun.t)) (top : Z) :
  let stats := Dashboard.statsList_of u result in
  let tables := Dashboard.printSummary u result top in
  map Dashboard.workflow stats
  = map fst (filter (fun entry => length (snd entry) <> 0%nat) result)
  /\ Forall (fun st => exists runs,
                 (Dashboard.workflow st, runs) ∈ result
                 /\ Dashboard.count st = Go.len runs /\ 0 < Dashboard.count st) stats
  /\ length (fst tables) = Nat.min (Z.to_nat top) (length stats)
  /\ length (snd tables) = Nat.min (Z.to_nat top) (length stats)
  /\ (exists rest, fst tables ++ rest ≡ₚ stats)
  /\ (exists rest, snd tables ++ rest ≡ₚ stats).
Proof.
  intros stats tables. unfold tables, Dashboard.printSummary. simpl.
  split_and!.
  - apply SummaryFacts.statsList_workflows.
  - apply SummaryFacts.statsList_entries.
  - by rewrite SummaryFacts.top_rows_length, SortFacts.SortFunc_length.
  - by rewrite SummaryFacts.top_rows_length, !SortFacts.SortFunc_length.
  - destruct (SummaryFacts.top_rows_part top
                (Slices.SortFunc (Dashboard.by_successRate u) stats)) as [rest Hrest].
    exists rest. fold stats. rewrite Hrest. apply SortFacts.SortFunc_perm.
  - destruct (SummaryFacts.top_rows_part top
                (Slices.SortFunc Dashboard.by_averageDuration
                   (Slices.SortFunc (Dashboard.by_successRate u) stats))) as [rest Hrest].
    exists rest. fold stats. rewrite Hrest. by rewrite !SortFacts.SortFunc_perm.
Qed.

(** X3: when the average durations are less than 2^62 nanoseconds either
    side of zero, the
    average-duration table of [printSummary] lists them from the longest
    to the shortest. *)
Theorem X3_summary_durations_descend (u : spec_float -> Z)
    (result : list (string * list Github.WorkflowRun.t)) (top : Z) :
  Forall (fun st => - 2 ^ 62 <= Dashboard.averageDuration st < 2 ^ 62)
         (Dashboard.statsList_of u result) ->
  StronglySorted
    (fun a b => Dashboard.averageDuration b <= Dashboard.averageDuration a)
    (snd (Dashboard.printSummary u result top)).
Proof.
  intros Hbound. unfold Dashboard.printSummary. simpl.
  apply SummaryFacts.StronglySorted_take.
  set (first := Slices.SortFunc (Dashboard.by_successRate u) _).
  assert (HP : Forall (fun st => - 2 ^ 62 <= Dashboard.averageDuration st < 2 ^ 62) first).
  { unfold first. by rewrite SortFacts.SortFunc_perm. }
  eapply (RankingFacts.StronglySorted_mono_on
            (fun st => - 2 ^ 62 <= Dashboard.averageDuration st < 2 ^ 62)).
  - by rewrite SortFacts.SortFunc_perm.
  - intros x y Hx Hy Hxy. by apply SummaryFacts.by_averageDuration_precede.
  - apply (SortOnFacts.SortFunc_sorted_on Dashboard.by_averageDuration
             (fun st => - 2 ^ 62 <= Dashboard.averageDuration st < 2 ^ 62));
      [| |exact HP].
    + intros x y Hx Hy. rewrite !SummaryFacts.by_averageDuration_precede by done. lia.
    + intros x y z Hx Hy Hz. rewrite !SummaryFacts.by_averageDuration_precede by done. lia.
Qed.

Lemma X3_summary_durations_descend_witness :
  Forall (fun st => - 2 ^ 62 <= Dashboard.averageDuration st < 2 ^ 62)
         (Dashboard.statsList_of Go.amd64 Samples.two_results)
  /\ StronglySorted
       (fun a b => Dashboard.averageDuration b <= Dashboard.averageDuration a)
       (snd (Dashboard.printSummary Go.amd64 Samples.two_results 10)).
Proof.
  assert (Hbound : Forall (fun st => - 2 ^ 62 <= Dashboard.averageDuration st < 2 ^ 62)
                     (Dashboard.statsList_of Go.amd64 Samples.two_results)).
  { assert (Hb : forallb (fun st => (- 2 ^ 62 <=? Dashboard.averageDuration st)
                                    && (Dashboard.averageDuration st <? 2 ^ 62))
                   (Dashboard.statsList_of Go.amd64 Samples.two_results) = true)
      by (vm_compute; reflexivity).
    apply Forall_forall. intros st Hst. apply list_elem_of_In in Hst.
    apply (proj1 (forallb_forall _ _) Hb) in Hst.
    apply andb_true_iff in Hst as [H1 H2]. lia. }
  split; [exact Hbound|].
  exact (X3_summary_durations_descend Go.amd64 Samples.two_results 10 Hbound).
Defined.

(* ===================================================================== *)
(** * The rows of the dashboard                                           *)
(* ===================================================================== *)

Module TableFacts.
Import Go GoFacts Github Dashboard.

Lemma filter_all {A} (P : A -> Prop) `{forall x, Decision (P x)} (l : list A) :
  length (filter P l) = length l <-> Forall P l.
Proof.
  induction l as [|x l IH]; [by split; [constructor|]|].
  rewrite filter_cons. pose proof (length_filter P l) as Hle.
  destruct (decide (P x)) as [HP|HP]; simpl.
  - split.
    + intros Hl. constructor; [done|]. apply IH. lia.
    + intros Hall. inversion Hall; subst. f_equal. by apply IH.
  - split; [lia|]. intros Hall. by inversion Hall.
Qed.

(** A window twice as long holds the successes of the shorter one and at
    most as many more as it has more runs. *)
Lemma successes_double (runs : list WorkflowRun.t) count :
  0 <= count ->
  len (Stated.successes runs count) <= len (Stated.successes runs (2 * count))
  /\ len (Stated.successes runs (2 * count))
     <= len (Stated.successes runs count) + count.
Proof.
  intros Hc. unfold Stated.successes, slice_to, len.
  replace (Z.to_nat (2 * count)) with (Z.to_nat count + Z.to_nat count)%nat by lia.
  rewrite <- take_take_drop, filter_app, length_app.
  pose proof (length_filter (fun run => is_success run = true)
                (take (Z.to_nat count) (drop (Z.to_nat count) runs))) as Hle.
  rewrite length_take in Hle. lia.
Qed.

Lemma lookup_map {A B} (f : A -> B) (l : list A) i :
  map f l !! i = f <$> l !! i.
Proof.
  revert i. induction l as [|x l IH]; intros [|i]; simpl; try done.
Qed.

Lemma doubling_lookup count n i x :
  doubling count n !! i = Some x -> x = count * 2 ^ Z.of_nat i.
Proof.
  unfold doubling. rewrite lookup_map. intros Hx.
  destruct (seq 0 n !! i) as [k|] eqn:Hk; [|done].
  apply lookup_seq in Hk as [-> _]. simpl in Hx. by injection Hx as <-.
Qed.
End TableFacts.

(** X4: in every row of [printDashboard] the success count lies between
    zero and the window size, and equals the window size exactly when every
    run of the window has conclusion [success]; from one row to the next the
    window size doubles and the success count grows by at least zero and at
    most the size of the earlier window. *)
Theorem X4_dashboard_rows_counts (u : spec_float -> Z)
    (runs : list Github.WorkflowRun.t) (rows : list Dashboard.WindowRow) :
  Go.len runs < 2 ^ 62 ->
  Dashboard.printDashboard u runs = Dashboard.Returns rows ->
  Forall (fun row =>
            0 <= Dashboard.row_success row <= Dashboard.row_count row
            /\ (Dashboard.row_success row = Dashboard.row_count row
                <-> Forall (fun run => Dashboard.is_success run = true)
                      (Go.slice_to runs (Dashboard.row_count row)))) rows
  /\ (forall i row next,
         rows !! i = Some row -> rows !! S i = Some next ->
         Dashboard.row_count next = 2 * Dashboard.row_count row
         /\ Dashboard.row_success row <= Dashboard.row_success next
            <= Dashboard.row_success row + Dashboard.row_count row).
Proof.
  intros Hlen Hrun.
  assert (Hcells : forall row, row ∈ rows ->
             1 <= Dashboard.row_count row <= Go.len runs
             /\ Dashboard.row_success row
                = Go.len (Stated.successes runs (Dashboard.row_count row))).
  { intros row Hin.
    destruct (RowFacts.printDashboard_rows u runs rows row Hlen Hrun Hin) as [Hrow Hc].
    destruct (RowFacts.window_row_cells u runs _ row Hlen Hc Hrow) as (_ & Hs & _).
    done. }
  split.
  - apply Forall_forall. intros row Hin. destruct (Hcells row Hin) as [Hc Hs].
    rewrite Hs. unfold Stated.successes.
    pose proof (length_filter (fun run => Dashboard.is_success run = true)
                  (Go.slice_to runs (Dashboard.row_count row))) as Hle.
    assert (Hsl : Go.len (Go.slice_to runs (Dashboard.row_count row))
                  = Dashboard.row_count row) by (apply GoFacts.len_slice_to; lia).
    unfold Go.len in *. split; [lia|].
    pose proof (TableFacts.filter_all (fun run => Dashboard.is_success run = true)
                  (Go.slice_to runs (Dashboard.row_count row))) as Hall.
    rewrite <- Hall. split; intros Heq; lia.
  - intros i row next Hi Hnext.
    assert (Hsizes : exists n, Dashboard.window_sizes rows
                               = Dashboard.doubling (Z.min (Go.len runs) 4) n).
    { unfold Dashboard.printDashboard in Hrun.
      destruct (Go.len runs =? 0) eqn:E.
      - injection Hrun as <-. done.
      - pose proof (GoFacts.len_nonneg runs).
        destruct (WindowFacts.window_loop_spec u runs Hlen 64 (Z.min (Go.len runs) 4))
          as (rows' & n & Hrun' & Hs & _); [lia| |].
        + change (2 ^ Z.of_nat 64) with 18446744073709551616. lia.
        + rewrite Hrun in Hrun'. injection Hrun' as <-. by exists n. }
    destruct Hsizes as [n Hsizes].
    assert (Hci : Dashboard.row_count row = Z.min (Go.len runs) 4 * 2 ^ Z.of_nat i).
    { apply (TableFacts.doubling_lookup _ n). rewrite <- Hsizes.
      unfold Dashboard.window_sizes. rewrite TableFacts.lookup_map, Hi. done. }
    assert (Hcn : Dashboard.row_count next = Z.min (Go.len runs) 4 * 2 ^ Z.of_nat (S i)).
    { apply (TableFacts.doubling_lookup _ n). rewrite <- Hsizes.
      unfold Dashboard.window_sizes. rewrite TableFacts.lookup_map, Hnext. done. }
    assert (Hdouble : Dashboard.row_count next = 2 * Dashboard.row_count row).
    { rewrite Hcn, Hci, Nat2Z.inj_succ, Z.pow_succ_r by lia. lia. }
    split; [done|].
    destruct (Hcells row (list_elem_of_lookup_2 _ _ _ Hi)) as [Hc Hs].
    destruct (Hcells next (list_elem_of_lookup_2 _ _ _ Hnext)) as [_ Hs'].
    rewrite Hs, Hs', Hdouble. apply TableFacts.successes_double. lia.
Qed.

Lemma X4_dashboard_rows_counts_witness :
  exists rows,
    Go.len Samples.five_runs < 2 ^ 62
    /\ Dashboard.printDashboard Go.amd64 Samples.five_runs = Dashboard.Returns rows
    /\ Forall (fun row =>
                 0 <= Dashboard.row_success row <= Dashboard.row_count row
                 /\ (Dashboard.row_success row = Dashboard.row_count row
                     <-> Forall (fun run => Dashboard.is_success run = true)
                           (Go.slice_to Samples.five_runs (Dashboard.row_count row))))
         rows.
Proof.
  destruct (Dashboard.printDashboard Go.amd64 Samples.five_runs) as [rows| |] eqn:Hrun;
    try (vm_compute in Hrun; discriminate).
  exists rows.
  assert (Hlen : Go.len Samples.five_runs < 2 ^ 62) by (vm_compute; reflexivity).
  split; [exact Hlen|]. split; [reflexivity|].
  exact (proj1 (X4_dashboard_rows_counts Go.amd64 Samples.five_runs rows Hlen Hrun)).
Defined.

(* ===================================================================== *)
(** * Cursors and termination of the paged loops                          *)
(* ===================================================================== *)

Module CursorFacts.
Import Github Fetch.

Section Paged.
Context {Q A B R : Type}.
Variable call : nat -> Q -> reply (list A).
Variable turn : Q -> Z -> Q.
Variable keep : list A -> list B.
Variable stop : list B -> bool.
Variable done : list B -> R.
Variable failed : list B -> R.

(** Each request after the first is the one before it, turned to the page
    that the reply to that one announced. *)
Lemma walk_cursor k o acc more acc' e :
  walk call turn keep stop k o acc more acc' e ->
  forall i q page res q' r',
    more !! i = Some (q, inr (page, res)) ->
    more !! S i = Some (q', r') ->
    q' = turn q (NextPage res).
Proof.
  induction 1 as [k o acc err Hcall|k o acc page res Hcall Hstop
                 |k o acc page res more acc' e Hcall Hstop Hwalk IH];
    intros i q page' res' q' r' Hi Hnext.
  - destruct i; done.
  - destruct i; done.
  - destruct i as [|i].
    + injection Hi as <- <- <-. simpl in Hnext.
      destruct (PagedFacts.walk_head _ _ _ _ _ _ _ _ _ _ Hwalk) as [r Hr].
      destruct more as [|x more]; [done|]. simpl in Hr, Hnext.
      injection Hr as ->. by injection Hnext as <- _.
    + simpl in Hi, Hnext. by eapply IH.
Qed.

(** If the source answers request number [n] with an error or with a page
    that announces no next one, whatever is asked, then the loop returns
    within [n + 1] requests. *)
Lemma loop_returns n :
  (forall q, final (call n q)) ->
  forall d sent o acc,
    (length sent + d = n)%nat ->
    exists t, paged_loop call turn keep stop done failed (S d) sent o acc = Some t.
Proof.
  intros Hfinal. induction d as [|d IH]; intros sent o acc Hlen.
  - simpl. rewrite Nat.add_0_r in Hlen. specialize (Hfinal o). rewrite <- Hlen in Hfinal.
    destruct (call (length sent) o) as [err|[page res]]; [eauto|].
    simpl in Hfinal. rewrite Hfinal. simpl. eauto.
  - cbn [paged_loop]. destruct (call (length sent) o) as [err|[page res]]; [eauto|].
    destruct ((NextPage res =? 0) || stop (acc ++ keep page)); [eauto|].
    apply IH. rewrite length_app. simpl. lia.
Qed.
End Paged.
End CursorFacts.

(** X5: the three fetchers follow the cursor: the first request asks for
    page 0 and each later one for the page that the reply before it
    announced; and [getJobs], when it returns without an error, returns the
    jobs of all pages received, in order, the last page being the only one
    that announces no next page. *)
Theorem X5_fetchers_follow_the_cursor
    (client : Github.Client) (owner repo : string) :
  (forall runID fuel t,
      Fetch.getJobs_traced client owner repo runID fuel = Some t ->
      (exists r, head (Fetch.exchanges t)
                 = Some ({| Github.JobsListOptions := {| Github.Page := 0 |} |}, r))
      /\ (forall i q page res q' r',
             Fetch.exchanges t !! i = Some (q, inr (page, res)) ->
             Fetch.exchanges t !! S i = Some (q', r') ->
             Github.Page (Github.JobsListOptions q') = Github.NextPage res)
      /\ (snd (Fetch.returned t) = None ->
          fst (Fetch.returned t) = Fetch.pages_of (Fetch.exchanges t)
          /\ forall i q page res,
               Fetch.exchanges t !! i = Some (q, inr (page, res)) ->
               (S i = length (Fetch.exchanges t) <-> Github.NextPage res = 0)))
  /\ (forall fuel t,
         Fetch.getWorkflows_traced client owner repo fuel = Some t ->
         (exists r, head (Fetch.exchanges t) = Some ({| Github.Page := 0 |}, r))
         /\ (forall i q page res q' r',
                Fetch.exchanges t !! i = Some (q, inr (page, res)) ->
                Fetch.exchanges t !! S i = Some (q', r') ->
                Github.Page q' = Github.NextPage res))
  /\ (forall workflow count branch event created fuel t,
         Fetch.getWorkflowRuns_traced client owner repo workflow count
           branch event created fuel = Some t ->
         (exists r, head (Fetch.exchanges t)
                    = Some (Fetch.runs_query branch event created, r))
         /\ (forall i q page res q' r',
                Fetch.exchanges t !! i = Some (q, inr (page, res)) ->
                Fetch.exchanges t !! S i = Some (q', r') ->
                Github.Page (Github.RunsListOptions q') = Github.NextPage res)).
Proof.
  split_and!.
  - intros runID fuel t Hrun.
    destruct (FetcherFacts.getJobs_traced_walk _ _ _ _ _ _ Hrun) as (e & Hwalk & Hret & _).
    split_and!.
    + exact (PagedFacts.walk_head _ _ _ _ _ _ _ _ _ _ Hwalk).
    + intros i q page res q' r' Hi Hnext.
      by rewrite (CursorFacts.walk_cursor _ _ _ _ _ _ _ _ _ _ Hwalk _ _ _ _ _ _ Hi Hnext).
    + intros Hnone. rewrite Hret in Hnone |- *. simpl in Hnone. subst e.
      split; [done|]. intros i q page res Hi.
      pose proof (PagedFacts.walk_stops _ _ _ _ _ _ _ _ _ _ Hwalk _ _ _ _ Hi) as Hstops.
      cbv zeta in Hstops.
      assert (Hlt : (i < length (Fetch.exchanges t))%nat) by (by eapply lookup_lt_Some).
      split.
      * intros Hlast. destruct (decide (Github.NextPage res = 0)) as [|Hnz]; [done|].
        assert (S i < length (Fetch.exchanges t))%nat by (apply Hstops; by split). lia.
      * intros Hz. destruct (decide (S i = length (Fetch.exchanges t))) as [|Hne]; [done|].
        assert (S i < length (Fetch.exchanges t))%nat as Hmore by lia.
        apply Hstops in Hmore as [Hnz _]. done.
  - intros fuel t Hrun.
    destruct (FetcherFacts.getWorkflows_traced_walk _ _ _ _ _ Hrun) as (e & Hwalk & Hret & _).
    split.
    + exact (PagedFacts.walk_head _ _ _ _ _ _ _ _ _ _ Hwalk).
    + intros i q page res q' r' Hi Hnext.
      by rewrite (CursorFacts.walk_cursor _ _ _ _ _ _ _ _ _ _ Hwalk _ _ _ _ _ _ Hi Hnext).
  - intros workflow count branch event created fuel t Hrun.
    destruct (FetcherFacts.getWorkflowRuns_traced_walk _ _ _ _ _ _ _ _ _ _ Hrun)
      as (e & Hwalk & Hret & _).
    split.
    + exact (PagedFacts.walk_head _ _ _ _ _ _ _ _ _ _ Hwalk).
    + intros i q page res q' r' Hi Hnext.
      by rewrite (CursorFacts.walk_cursor _ _ _ _ _ _ _ _ _ _ Hwalk _ _ _ _ _ _ Hi Hnext).
Qed.

Lemma X5_fetchers_follow_the_cursor_witness :
  exists t,
    Fetch.getJobs_traced Samples.steady_client "cilium" "cilium" 42 5 = Some t
    /\ snd (Fetch.returned t) = None
    /\ fst (Fetch.returned t) = Fetch.pages_of (Fetch.exchanges t)
    /\ length (Fetch.exchanges t) = 2%nat.
Proof.
  destruct (Fetch.getJobs_traced Samples.steady_client "cilium" "cilium" 42 5)
    as [t|] eqn:Hrun; [|vm_compute in Hrun; discriminate].
  exists t.
  assert (Hnone : snd (Fetch.returned t) = None).
  { vm_compute in Hrun. injection Hrun as <-. reflexivity. }
  split; [reflexivity|]. split; [exact Hnone|]. split.
  - destruct (X5_fetchers_follow_the_cursor Samples.steady_client "cilium" "cilium")
      as (Hjobs & _).
    destruct (Hjobs 42 5%nat t Hrun) as (_ & _ & Hdone).
    exact (proj1 (Hdone Hnone)).
  - vm_compute in Hrun. injection Hrun as <-. reflexivity.
Defined.

(** X6: if the source answers request number [n] with an error or with a
    page that announces no next one, whatever is asked, then each of the
    three fetchers returns within [n + 1] requests, and with any larger
    bound returns the same; for the run fetch this is for a cap of at least
    zero, a negative one making the slice expression after the loop
    panic. *)
Theorem X6_fetchers_return
    (client : Github.Client) (owner repo : string) (n : nat) :
  (forall q, Fetch.final (Github.ListWorkflows client n owner repo q)) ->
  (forall workflow q,
      Fetch.final (Github.ListWorkflowRunsByFileName client n owner repo workflow q)) ->
  (forall runID q, Fetch.final (Github.ListWorkflowJobs client n owner repo runID q)) ->
  (exists r, forall fuel, (n < fuel)%nat ->
             Fetch.getWorkflows client owner repo fuel = Some r)
  /\ (forall workflow count branch event created,
         0 <= count ->
         exists r, forall fuel, (n < fuel)%nat ->
                   Fetch.getWorkflowRuns client owner repo workflow count
                     branch event created fuel = Some r)
  /\ (forall runID,
         exists r, forall fuel, (n < fuel)%nat ->
                   Fetch.getJobs client owner repo runID fuel = Some r).
Proof.
  intros Hw Hr Hj. split_and!.
  - destruct (CursorFacts.loop_returns (Fetch.workflows_call client owner repo)
                Fetch.workflows_turn id (fun _ => false) Fetch.filepaths_of (fun _ => [])
                n Hw n [] {| Github.Page := 0 |} [] eq_refl) as [t Ht].
    exists (Fetch.returned t). intros fuel Hfuel.
    unfold Fetch.getWorkflows, Fetch.getWorkflows_traced.
    rewrite FetchFacts.getWorkflows_loop_paged.
    assert (Hle : (S n <= fuel)%nat) by lia.
    by rewrite (PagedFacts.loop_more_fuel _ _ _ _ _ _ _ _ _ _ _ _ Ht Hle).
  - intros workflow count branch event created _.
    destruct (CursorFacts.loop_returns (Fetch.runs_call client owner repo workflow)
                Fetch.set_runs_page Fetch.keep_admissible (Fetch.runs_stop count)
                (Fetch.capped count) id n (Hr workflow) n []
                (Fetch.runs_query branch event created) [] eq_refl) as [t Ht].
    exists (Fetch.returned t). intros fuel Hfuel. unfold Fetch.runs_query in Ht.
    unfold Fetch.getWorkflowRuns, Fetch.getWorkflowRuns_traced.
    rewrite FetchFacts.getWorkflowRuns_loop_paged.
    assert (Hle : (S n <= fuel)%nat) by lia.
    by rewrite (PagedFacts.loop_more_fuel _ _ _ _ _ _ _ _ _ _ _ _ Ht Hle).
  - intros runID.
    destruct (CursorFacts.loop_returns (Fetch.jobs_call client owner repo runID)
                Fetch.jobs_turn id (fun _ => false) id id
                n (Hj runID) n [] {| Github.JobsListOptions := {| Github.Page := 0 |} |}
                [] eq_refl) as [t Ht].
    exists (Fetch.returned t). intros fuel Hfuel.
    unfold Fetch.getJobs, Fetch.getJobs_traced.
    rewrite FetchFacts.getJobs_loop_paged.
    assert (Hle : (S n <= fuel)%nat) by lia.
    by rewrite (PagedFacts.loop_more_fuel _ _ _ _ _ _ _ _ _ _ _ _ Ht Hle).
Qed.

Lemma X6_fetchers_return_witness :
  (forall q, Fetch.final (Github.ListWorkflows Samples.flaky_client 1 "cilium" "cilium" q))
  /\ (exists r, forall fuel, (1 < fuel)%nat ->
                Fetch.getWorkflows Samples.flaky_client "cilium" "cilium" fuel = Some r)
  /\ 0 <= 4
  /\ (exists r, forall fuel, (1 < fuel)%nat ->
                Fetch.getWorkflowRuns Samples.flaky_client "cilium" "cilium" "gke.yaml" 4
                  "main" "schedule" ">=2024-01-01T00:00:00Z" fuel = Some r).
Proof.
  assert (Hw : forall q, Fetch.final
                 (Github.ListWorkflows Samples.flaky_client 1 "cilium" "cilium" q))
    by (intros q; exact I).
  assert (Hcount : 0 <= 4) by lia.
  destruct (X6_fetchers_return Samples.flaky_client "cilium" "cilium" 1 Hw
              (fun _ _ => I) (fun _ _ => I)) as (Hworkflows & Hruns & _).
  split; [exact Hw|]. split; [exact Hworkflows|]. split; [exact Hcount|].
  exact (Hruns "gke.yaml"%string 4 "main"%string "schedule"%string
           ">=2024-01-01T00:00:00Z"%string Hcount).
Defined.

(* ===================================================================== *)
(** * The drilldown over the jobs of a run                                *)
(* ===================================================================== *)

Module JobsFacts.
Import Go GoFacts Github Counts CountFacts Drilldown.

Section Client.
Variable client : Client.
Variables owner repo : string.

Lemma record_job_other st job :
  WorkflowJob.GetConclusion job <> "failure"%string ->
  record_job client owner repo st job = st.
Proof.
  intros Hc. unfold record_job. apply String.eqb_neq in Hc. by rewrite Hc.
Qed.

(** What one failed job adds to the three tables and to the references. *)
Lemma record_job_failed st job name :
  WorkflowJob.GetConclusion job = "failure"%string ->
  in_int64 (count_of (failedStepCount st) name) ->
  in_int64 (count_of (cancelledStepCount st) name) ->
  let st' := record_job client owner repo st job in
  count_of (failedJobCount st') name
  = (if decide (WorkflowJob.GetName job = name)
     then wrap64 (count_of (failedJobCount st) name + 1)
     else count_of (failedJobCount st) name)
  /\ count_of (failedStepCount st') name
     = wrap64 (count_of (failedStepCount st) name
               + steps_with "failure" name (WorkflowJob.Steps job))
  /\ count_of (cancelledStepCount st') name
     = wrap64 (count_of (cancelledStepCount st) name
               + steps_with "cancelled" name (WorkflowJob.Steps job))
  /\ (length (logsURLs st') <= S (length (logsURLs st)))%nat.
Proof.
  intros Hc Hf Hcn st'. subst st'. unfold record_job.
  apply String.eqb_eq in Hc. rewrite Hc.
  set (logs := GetWorkflowJobLogs client owner repo _ 10).
  match goal with
  | |- context [fold_left record_step _ ?s] => set (st1 := s)
  end.
  destruct (DrilldownFacts.record_steps_counts (WorkflowJob.Steps job) name st1)
    as (Hfs & Hcs & Hjobs & Hlogs).
  { subst st1. simpl. by destruct logs. }
  { subst st1. simpl. by destruct logs. }
  rewrite Hfs, Hcs, Hjobs, Hlogs. subst st1. simpl.
  split_and!.
  - destruct (decide _) as [<-|Hne].
    + destruct logs; simpl; apply count_of_bump.
    + destruct logs; simpl; by apply count_of_bump_ne.
  - by destruct logs.
  - by destruct logs.
  - destruct logs; simpl; [lia|]. rewrite length_app. simpl. lia.
Qed.

Lemma steps_with_app conclusion name s1 s2 :
  steps_with conclusion name (s1 ++ s2)
  = steps_with conclusion name s1 + steps_with conclusion name s2.
Proof. unfold steps_with, len. rewrite filter_app, length_app. lia. Qed.

Lemma steps_with_nonneg conclusion name steps : 0 <= steps_with conclusion name steps.
Proof. unfold steps_with. apply len_nonneg. Qed.

(** The tables after the jobs of a run. *)
Lemma record_jobs_counts jobs name :
  forall st,
    in_int64 (count_of (failedJobCount st) name) ->
    in_int64 (count_of (failedStepCount st) name) ->
    in_int64 (count_of (cancelledStepCount st) name) ->
    let st' := fold_left (record_job client owner repo) jobs st in
    count_of (failedJobCount st') name
    = wrap64 (count_of (failedJobCount st) name + jobs_named name jobs)
    /\ count_of (failedStepCount st') name
       = wrap64 (count_of (failedStepCount st) name
                 + steps_with "failure" name (failed_steps jobs))
    /\ count_of (cancelledStepCount st') name
       = wrap64 (count_of (cancelledStepCount st) name
                 + steps_with "cancelled" name (failed_steps jobs))
    /\ (length (logsURLs st') <= length (logsURLs st) + length (failed_jobs jobs))%nat.
Proof.
  induction jobs as [|job jobs IH]; intros st Hj Hf Hc; simpl.
  - unfold jobs_named, failed_steps, failed_jobs, steps_with, len. simpl.
    rewrite !Z.add_0_r, !wrap64_id by done. split_and!; try done; lia.
  - unfold jobs_named, failed_steps, failed_jobs. rewrite filter_cons.
    destruct (decide (WorkflowJob.GetConclusion job = "failure"%string)) as [Hfail|Hok].
    + destruct (record_job_failed st job name Hfail Hf Hc) as (Hj1 & Hf1 & Hc1 & Hl1).
      edestruct (IH (record_job client owner repo st job)) as (-> & -> & -> & Hl).
      { rewrite Hj1. destruct (decide _); [apply wrap64_range|done]. }
      { rewrite Hf1. apply wrap64_range. }
      { rewrite Hc1. apply wrap64_range. }
      rewrite Hj1, Hf1, Hc1. simpl flat_map. rewrite !steps_with_app.
      fold (failed_jobs jobs). fold (failed_steps jobs). fold (jobs_named name jobs).
      rewrite filter_cons. split_and!.
      * destruct (decide (WorkflowJob.GetName job = name)) as [Hn|Hn].
        -- rewrite wrap64_add_l. f_equal. unfold jobs_named, len. simpl length. lia.
        -- done.
      * rewrite wrap64_add_l. f_equal. lia.
      * rewrite wrap64_add_l. f_equal. lia.
      * simpl length. lia.
    + rewrite record_job_other by done. by apply IH.
Qed.

Lemma jobs_named_perm name jobs jobs' :
  jobs ≡ₚ jobs' -> jobs_named name jobs = jobs_named name jobs'.
Proof.
  intros Hp. unfold jobs_named, failed_jobs, len. by rewrite Hp.
Qed.

Lemma steps_with_perm conclusion name steps steps' :
  steps ≡ₚ steps' -> steps_with conclusion name steps = steps_with conclusion name steps'.
Proof. intros Hp. unfold steps_with, len. by rewrite Hp. Qed.

Lemma failed_steps_perm jobs jobs' :
  jobs ≡ₚ jobs' -> failed_steps jobs ≡ₚ failed_steps jobs'.
Proof.
  intros Hp. unfold failed_steps, failed_jobs.
  assert (Hf : filter (fun job => WorkflowJob.GetConclusion job = "failure"%string) jobs
               ≡ₚ filter (fun job => WorkflowJob.GetConclusion job = "failure"%string) jobs')
    by (by rewrite Hp).
  induction Hf as [|x l l' Hl IH|x y l|l l' l'' H1 IH1 H2 IH2]; simpl.
  - done.
  - by rewrite IH.
  - rewrite !app_assoc. f_equiv. apply Permutation_app_comm.
  - by rewrite IH1.
Qed.
End Client.
End JobsFacts.

(** X7: after the jobs of a run have gone through the critical section of
    [printDetailedDashboard], the count of a job name has grown by the
    number of jobs with conclusion [failure] and that name, the failed-step
    and cancelled-step counts of a step name by the number of steps of those
    jobs with that name and conclusion, and the reference list by at most
    one reference per such job; the three counts are the same in whatever
    order the jobs are taken. Counts are [int] values. *)
Theorem X7_drilldown_counts_any_order
    (client : Github.Client) (owner repo : string)
    (jobs jobs' : list Github.WorkflowJob.t) (st : Drilldown.state) (name : string) :
  jobs ≡ₚ jobs' ->
  Go.in_int64 (Counts.count_of (Drilldown.failedJobCount st) name) ->
  Go.in_int64 (Counts.count_of (Drilldown.failedStepCount st) name) ->
  Go.in_int64 (Counts.count_of (Drilldown.cancelledStepCount st) name) ->
  let after := fold_left (Drilldown.record_job client owner repo) jobs st in
  let after' := fold_left (Drilldown.record_job client owner repo) jobs' st in
  Counts.count_of (Drilldown.failedJobCount after) name
  = Go.wrap64 (Counts.count_of (Drilldown.failedJobCount st) name
               + Drilldown.jobs_named name jobs)
  /\ Counts.count_of (Drilldown.failedStepCount after) name
     = Go.wrap64 (Counts.count_of (Drilldown.failedStepCount st) name
                  + Drilldown.steps_with "failure" name (Drilldown.failed_steps jobs))
  /\ Counts.count_of (Drilldown.cancelledStepCount after) name
     = Go.wrap64 (Counts.count_of (Drilldown.cancelledStepCount st) name
                  + Drilldown.steps_with "cancelled" name (Drilldown.failed_steps jobs))
  /\ (length (Drilldown.logsURLs after)
      <= length (Drilldown.logsURLs st) + length (Drilldown.failed_jobs jobs))%nat
  /\ Counts.count_of (Drilldown.failedJobCount after') name
     = Counts.count_of (Drilldown.failedJobCount after) name
  /\ Counts.count_of (Drilldown.failedStepCount after') name
     = Counts.count_of (Drilldown.failedStepCount after) name
  /\ Counts.count_of (Drilldown.cancelledStepCount after') name
     = Counts.count_of (Drilldown.cancelledStepCount after) name.
Proof.
  intros Hperm Hj Hf Hc after after'.
  destruct (JobsFacts.record_jobs_counts client owner repo jobs name st Hj Hf Hc)
    as (H1 & H2 & H3 & H4).
  destruct (JobsFacts.record_jobs_counts client owner repo jobs' name st Hj Hf Hc)
    as (H1' & H2' & H3' & _).
  fold after in H1, H2, H3, H4. fold after' in H1', H2', H3'.
  split_and!; try done.
  - rewrite H1, H1'. by rewrite (JobsFacts.jobs_named_perm name jobs jobs').
  - rewrite H2, H2'. f_equal. f_equal. symmetry.
    by apply JobsFacts.steps_with_perm, JobsFacts.failed_steps_perm.
  - rewrite H3, H3'. f_equal. f_equal. symmetry.
    by apply JobsFacts.steps_with_perm, JobsFacts.failed_steps_perm.
Qed.

Lemma X7_drilldown_counts_any_order_witness :
  let after := fold_left (Drilldown.record_job Samples.steady_client "cilium" "cilium")
                 Samples.some_jobs Drilldown.init in
  Samples.some_jobs ≡ₚ rev Samples.some_jobs
  /\ Go.in_int64 (Counts.count_of (Drilldown.failedJobCount Drilldown.init) "build")
  /\ Counts.count_of (Drilldown.failedJobCount after) "build"
     = Go.wrap64 (Counts.count_of (Drilldown.failedJobCount Drilldown.init) "build"
                  + Drilldown.jobs_named "build" Samples.some_jobs)
  /\ Counts.count_of (Drilldown.failedJobCount after) "build" = 1.
Proof.
  intros after.
  assert (Hperm : Samples.some_jobs ≡ₚ rev Samples.some_jobs) by apply Permutation_rev.
  assert (Hin : forall m : gmap string Z, m = ∅ ->
                  Go.in_int64 (Counts.count_of m "build")).
  { intros m ->. vm_compute. split; discriminate. }
  split; [exact Hperm|]. split; [by apply Hin|]. split.
  - exact (proj1 (X7_drilldown_counts_any_order Samples.steady_client "cilium" "cilium"
                    Samples.some_jobs (rev Samples.some_jobs) Drilldown.init "build"
                    Hperm (Hin _ eq_refl) (Hin _ eq_refl) (Hin _ eq_refl))).
  - vm_compute. reflexivity.
Defined.

(* ===================================================================== *)
(** * The detailed dashboard over all failed runs                         *)
(* ===================================================================== *)

Module DetailFacts.
Import Go GoFacts Github Counts CountFacts Drilldown.

Section Client.
Variable client : Client.
Variables owner repo : string.

Lemma record_steps_logs steps :
  forall st, logsURLs (fold_left record_step steps st) = logsURLs st.
Proof.
  induction steps as [|step steps IH]; intros st; simpl; [done|].
  rewrite IH. unfold record_step.
  destruct (String.eqb _ "failure"); [done|]. by destruct (String.eqb _ "cancelled").
Qed.

Lemma record_jobs_logs jobs :
  forall st,
    logsURLs (fold_left (record_job client owner repo) jobs st)
    = logsURLs st ++ logs_of client owner repo jobs.
Proof.
  induction jobs as [|job jobs IH]; intros st; simpl.
  - unfold logs_of, failed_jobs. simpl. by rewrite app_nil_r.
  - rewrite IH. unfold logs_of, failed_jobs. rewrite filter_cons.
    unfold record_job.
    destruct (decide (WorkflowJob.GetConclusion job = "failure"%string)) as [Hf|Hf].
    + apply String.eqb_eq in Hf. rewrite Hf. rewrite record_steps_logs. simpl.
      destruct (GetWorkflowJobLogs client owner repo (WorkflowJob.GetID job) 10); simpl.
      * done.
      * by rewrite <- app_assoc.
    + apply String.eqb_neq in Hf. by rewrite Hf.
Qed.

(** The tasks one after the other are one pass over the jobs counted. *)
Lemma run_tasks_fold fuel tasks :
  forall st st',
    run_tasks client owner repo fuel st tasks = Some st' ->
    st' = fold_left (record_job client owner repo)
            (jobs_counted client owner repo fuel tasks) st.
Proof.
  induction tasks as [|runID tasks IH]; intros st st' Hrun; simpl in *.
  - by injection Hrun as <-.
  - unfold worker_task in Hrun. rewrite fold_left_app.
    destruct (Fetch.getJobs client owner repo runID fuel) as [[jobs [err|]]|];
      [by apply IH|by apply IH|done].
Qed.

Lemma elem_of_jobs_counted fuel tasks job :
  job ∈ jobs_counted client owner repo fuel tasks
  <-> exists runID jobs,
        runID ∈ tasks
        /\ Fetch.getJobs client owner repo runID fuel = Some (jobs, None)
        /\ job ∈ jobs.
Proof.
  unfold jobs_counted. rewrite list_elem_of_In, in_flat_map. split.
  - intros (runID & Hin & Hjob). apply list_elem_of_In in Hin, Hjob.
    destruct (Fetch.getJobs client owner repo runID fuel) as [[jobs [err|]]|] eqn:E;
      try by apply elem_of_nil in Hjob.
    by exists runID, jobs.
  - intros (runID & jobs & Hin & Hget & Hjob). exists runID.
    rewrite Hget. by rewrite <- !list_elem_of_In.
Qed.

(** If the source answers request number [n] for jobs with an error or
    with a page that announces no next one, the job fetch returns, and so
    does the drilldown. *)
Lemma getJobs_returns n fuel runID :
  (forall runID q, Fetch.final (ListWorkflowJobs client n owner repo runID q)) ->
  (n < fuel)%nat ->
  exists r, Fetch.getJobs client owner repo runID fuel = Some r.
Proof.
  intros Hfinal Hfuel.
  destruct (CursorFacts.loop_returns (Fetch.jobs_call client owner repo runID)
              Fetch.jobs_turn id (fun _ => false) id id
              n (Hfinal runID) n [] {| JobsListOptions := {| Page := 0 |} |}
              [] eq_refl) as [t Ht].
  exists (Fetch.returned t). unfold Fetch.getJobs, Fetch.getJobs_traced.
  rewrite FetchFacts.getJobs_loop_paged.
  assert (Hle : (S n <= fuel)%nat) by lia.
  by rewrite (PagedFacts.loop_more_fuel _ _ _ _ _ _ _ _ _ _ _ _ Ht Hle).
Qed.

Lemma run_tasks_returns n fuel tasks :
  (forall runID q, Fetch.final (ListWorkflowJobs client n owner repo runID q)) ->
  (n < fuel)%nat ->
  forall st, exists st', run_tasks client owner repo fuel st tasks = Some st'.
Proof.
  intros Hfinal Hfuel. induction tasks as [|runID tasks IH]; intros st; simpl; [eauto|].
  unfold worker_task.
  destruct (getJobs_returns n fuel runID Hfinal Hfuel) as [[jobs [err|]] ->]; apply IH.
Qed.

(** The tables and the references at [wg.Wait()]. *)
Lemma dashboard_totals fuel runs st name :
  printDetailedDashboard client owner repo fuel runs = Some st ->
  let jobs := jobs_counted client owner repo fuel (tasks_of runs) in
  count_of (failedJobCount st) name = wrap64 (jobs_named name jobs)
  /\ count_of (failedStepCount st) name
     = wrap64 (steps_with "failure" name (failed_steps jobs))
  /\ count_of (cancelledStepCount st) name
     = wrap64 (steps_with "cancelled" name (failed_steps jobs))
  /\ logsURLs st = logs_of client owner repo jobs.
Proof.
  intros Hrun jobs. unfold printDetailedDashboard in Hrun.
  apply run_tasks_fold in Hrun. fold jobs in Hrun.
  assert (Hzero : in_int64 (count_of (∅ : gmap string Z) name)).
  { unfold count_of. rewrite lookup_empty. simpl. vm_compute. split; discriminate. }
  destruct (JobsFacts.record_jobs_counts client owner repo jobs name init
              Hzero Hzero Hzero) as (Hj & Hf & Hc & _).
  rewrite <- Hrun in Hj, Hf, Hc.
  split_and!.
  - rewrite Hj. unfold count_of. simpl. by rewrite lookup_empty.
  - rewrite Hf. unfold count_of. simpl. by rewrite lookup_empty.
  - rewrite Hc. unfold count_of. simpl. by rewrite lookup_empty.
  - rewrite Hrun, record_jobs_logs. done.
Qed.

(** The jobs counted are those of the failed runs whose fetch returned no
    error. *)
Lemma jobs_counted_of_runs fuel runs job :
  job ∈ jobs_counted client owner repo fuel (tasks_of runs)
  <-> exists run fetched,
        run ∈ runs
        /\ WorkflowRun.GetConclusion run = "failure"%string
        /\ Fetch.getJobs client owner repo (WorkflowRun.GetID run) fuel
           = Some (fetched, None)
        /\ job ∈ fetched.
Proof.
  rewrite elem_of_jobs_counted. split.
  - intros (runID & fetched & Hin & Hget & Hjob).
    unfold tasks_of in Hin. apply list_elem_of_In, in_map_iff in Hin.
    destruct Hin as (run & <- & Hin). apply list_elem_of_In, list_elem_of_filter in Hin.
    destruct Hin as [Hconc Hin]. apply String.eqb_eq in Hconc.
    by exists run, fetched.
  - intros (run & fetched & Hin & Hconc & Hget & Hjob).
    exists (WorkflowRun.GetID run), fetched. split_and!; try done.
    unfold tasks_of. apply list_elem_of_In, in_map_iff. exists run.
    split; [done|]. apply list_elem_of_In, list_elem_of_filter.
    split; [by apply String.eqb_eq|done].
Qed.
End Client.
End DetailFacts.

(** C9: the tasks of the drilldown are the identifiers of the runs whose
    conclusion is [failure]; a job with another conclusion changes nothing;
    for a job whose conclusion is [failure] the count of its name goes up by
    one whether or not its log reference is obtained, the reference list
    gains that reference or, on an error, nothing, and for every step name
    the failed-step count goes up by the number of steps of the job with
    that name and conclusion [failure], the cancelled-step count by those
    with conclusion [cancelled]; steps with other conclusions count for
    neither. So when [printDetailedDashboard] gets to [wg.Wait()], the jobs
    that went through this are those of the runs with conclusion [failure]
    whose job fetch returned no error; the count of a job name is the
    number of them with conclusion [failure] and that name, the failed-step
    and cancelled-step counts of a step name are the numbers of steps of
    those failed jobs with that name and conclusion, and the references are
    the ones obtained for those failed jobs, in their order. The drilldown
    gets there whenever the source ends every job fetch at some request.
    Counts are [int] values. *)
Theorem C9_drilldown_counts (client : Github.Client) (owner repo : string) :
  (forall runs runID,
      runID ∈ Drilldown.tasks_of runs
      <-> exists run, run ∈ runs
                      /\ Github.WorkflowRun.GetConclusion run = "failure"%string
                      /\ Github.WorkflowRun.GetID run = runID)
  /\ (forall st job,
         Github.WorkflowJob.GetConclusion job <> "failure"%string ->
         Drilldown.record_job client owner repo st job = st)
  /\ (forall st job name,
         Github.WorkflowJob.GetConclusion job = "failure"%string ->
         Go.in_int64 (Counts.count_of (Drilldown.failedStepCount st) name) ->
         Go.in_int64 (Counts.count_of (Drilldown.cancelledStepCount st) name) ->
         let st' := Drilldown.record_job client owner repo st job in
         Counts.count_of (Drilldown.failedJobCount st') (Github.WorkflowJob.GetName job)
         = Go.wrap64 (Counts.count_of (Drilldown.failedJobCount st)
                        (Github.WorkflowJob.GetName job) + 1)
         /\ (name <> Github.WorkflowJob.GetName job ->
             Drilldown.failedJobCount st' !! name = Drilldown.failedJobCount st !! name)
         /\ Drilldown.logsURLs st'
            = Drilldown.logsURLs st
              ++ match Github.GetWorkflowJobLogs client owner repo
                         (Github.WorkflowJob.GetID job) 10 with
                 | inr logsURL => [logsURL]
                 | inl _ => []
                 end
         /\ Counts.count_of (Drilldown.failedStepCount st') name
            = Go.wrap64 (Counts.count_of (Drilldown.failedStepCount st) name
                         + Drilldown.steps_with "failure" name
                             (Github.WorkflowJob.Steps job))
         /\ Counts.count_of (Drilldown.cancelledStepCount st') name
            = Go.wrap64 (Counts.count_of (Drilldown.cancelledStepCount st) name
                         + Drilldown.steps_with "cancelled" name
                             (Github.WorkflowJob.Steps job)))
  /\ (forall fuel runs st name,
         Drilldown.printDetailedDashboard client owner repo fuel runs = Some st ->
         let jobs := Drilldown.jobs_counted client owner repo fuel
                       (Drilldown.tasks_of runs) in
         (forall job,
             job ∈ jobs
             <-> exists run fetched,
                   run ∈ runs
                   /\ Github.WorkflowRun.GetConclusion run = "failure"%string
                   /\ Fetch.getJobs client owner repo (Github.WorkflowRun.GetID run) fuel
                      = Some (fetched, None)
                   /\ job ∈ fetched)
         /\ Counts.count_of (Drilldown.failedJobCount st) name
            = Go.wrap64 (Drilldown.jobs_named name jobs)
         /\ Counts.count_of (Drilldown.failedStepCount st) name
            = Go.wrap64 (Drilldown.steps_with "failure" name
                           (Drilldown.failed_steps jobs))
         /\ Counts.count_of (Drilldown.cancelledStepCount st) name
            = Go.wrap64 (Drilldown.steps_with "cancelled" name
                           (Drilldown.failed_steps jobs))
         /\ Drilldown.logsURLs st = Drilldown.logs_of client owner repo jobs)
  /\ (forall n fuel runs,
         (forall runID q,
             Fetch.final (Github.ListWorkflowJobs client n owner repo runID q)) ->
         (n < fuel)%nat ->
         exists st, Drilldown.printDetailedDashboard client owner repo fuel runs = Some st).
Proof.
  split_and!.
  - intros runs runID. unfold Drilldown.tasks_of. rewrite list_elem_of_In, in_map_iff.
    split.
    + intros (run & Hid & Hin). apply list_elem_of_In, list_elem_of_filter in Hin.
      destruct Hin as [Hc Hin]. apply String.eqb_eq in Hc. eauto.
    + intros (run & Hin & Hc & Hid). exists run. split; [done|].
      apply list_elem_of_In, list_elem_of_filter. split; [|done].
      by apply String.eqb_eq.
  - intros st job Hc. unfold Drilldown.record_job.
    apply String.eqb_neq in Hc. by rewrite Hc.
  - intros st job name Hc Hf Hcn st'. subst st'. unfold Drilldown.record_job.
    apply String.eqb_eq in Hc. rewrite Hc.
    set (logs := Github.GetWorkflowJobLogs client owner repo _ 10).
    match goal with
    | |- context [fold_left Drilldown.record_step _ ?s] => set (st1 := s)
    end.
    destruct (DrilldownFacts.record_steps_counts (Github.WorkflowJob.Steps job) name st1)
      as (Hfs & Hcs & Hjobs & Hlogs).
    { subst st1. simpl. by destruct logs. }
    { subst st1. simpl. by destruct logs. }
    rewrite Hfs, Hcs, Hjobs, Hlogs. subst st1. simpl.
    split_and!.
    + destruct logs; simpl; apply CountFacts.count_of_bump.
    + intros Hne. destruct logs; simpl; by apply CountFacts.lookup_bump_ne.
    + destruct logs; simpl; [by rewrite app_nil_r|done].
    + by destruct logs.
    + by destruct logs.
  - intros fuel runs st name Hrun jobs. split.
    + intros job. apply DetailFacts.jobs_counted_of_runs.
    + by apply DetailFacts.dashboard_totals.
  - intros n fuel runs Hfinal Hfuel. unfold Drilldown.printDetailedDashboard.
    by apply (DetailFacts.run_tasks_returns client owner repo n).
Qed.

Lemma C9_drilldown_counts_witness :
  let job := Samples.job 11 "build" "failure"
               [ Samples.step "checkout" "success"; Samples.step "compile" "failure";
                 Samples.step "upload" "cancelled" ] in
  let st' := Drilldown.record_job Samples.flaky_client "cilium" "cilium"
               Drilldown.init job in
  Github.WorkflowJob.GetConclusion job = "failure"%string
  /\ Go.in_int64 (Counts.count_of (Drilldown.failedStepCount Drilldown.init) "compile")
  /\ Go.in_int64 (Counts.count_of (Drilldown.cancelledStepCount Drilldown.init) "compile")
  /\ Counts.count_of (Drilldown.failedJobCount st') "build" = 1
  /\ Drilldown.logsURLs st' = []
  /\ Counts.count_of (Drilldown.failedStepCount st') "compile" = 1
  /\ Counts.count_of (Drilldown.cancelledStepCount st') "compile" = 0
  /\ (forall runID q,
         Fetch.final (Github.ListWorkflowJobs Samples.steady_client 1 "cilium" "cilium"
                        runID q))
  /\ (1 < 5)%nat
  /\ exists st,
       Drilldown.printDetailedDashboard Samples.steady_client "cilium" "cilium" 5
         Samples.mixed_runs = Some st
       /\ Counts.count_of (Drilldown.failedJobCount st) "build" = 2
       /\ Counts.count_of (Drilldown.failedStepCount st) "compile" = 2
       /\ Counts.count_of (Drilldown.cancelledStepCount st) "upload" = 2
       /\ Counts.count_of (Drilldown.failedJobCount st) "lint" = 0.
Proof.
  intros job st'.
  assert (Hc : Github.WorkflowJob.GetConclusion job = "failure"%string) by reflexivity.
  assert (Hf : Go.in_int64 (Counts.count_of (Drilldown.failedStepCount Drilldown.init)
                              "compile")) by (vm_compute; split; discriminate).
  assert (Hn : Go.in_int64 (Counts.count_of (Drilldown.cancelledStepCount Drilldown.init)
                              "compile")) by (vm_compute; split; discriminate).
  assert (Hfinal : forall runID q,
             Fetch.final (Github.ListWorkflowJobs Samples.steady_client 1
                            "cilium" "cilium" runID q)) by (intros runID q; reflexivity).
  assert (Hfuel : (1 < 5)%nat) by lia.
  destruct (C9_drilldown_counts Samples.flaky_client "cilium" "cilium") as (_ & _ & Hjob & _).
  destruct (Hjob Drilldown.init job "compile"%string Hc Hf Hn) as (H1 & _ & H3 & H4 & H5).
  destruct (C9_drilldown_counts Samples.steady_client "cilium" "cilium")
    as (_ & _ & _ & Htotals & Hreturns).
  destruct (Hreturns 1%nat 5%nat Samples.mixed_runs Hfinal Hfuel) as [st Hst].
  split_and!;
    [ exact Hc | exact Hf | exact Hn
    | etrans; [exact H1|reflexivity] | etrans; [exact H3|reflexivity]
    | etrans; [exact H4|reflexivity] | etrans; [exact H5|reflexivity]
    | exact Hfinal | exact Hfuel | ].
  exists st. split; [exact Hst|].
  destruct (Htotals 5%nat Samples.mixed_runs st "build"%string Hst) as (_ & Hb & _).
  destruct (Htotals 5%nat Samples.mixed_runs st "compile"%string Hst) as (_ & _ & Hcmp & _).
  destruct (Htotals 5%nat Samples.mixed_runs st "upload"%string Hst) as (_ & _ & _ & Hup & _).
  destruct (Htotals 5%nat Samples.mixed_runs st "lint"%string Hst) as (_ & Hl & _).
  split_and!;
    [ etrans; [exact Hb|vm_compute; reflexivity]
    | etrans; [exact Hcmp|vm_compute; reflexivity]
    | etrans; [exact Hup|vm_compute; reflexivity]
    | etrans; [exact Hl|vm_compute; reflexivity] ].
Defined.

(** X8: when [printDetailedDashboard] gets to [wg.Wait()], the jobs counted
    are those of the runs with conclusion [failure] whose [getJobs] returned
    without an error: the jobs that a failing [getJobs] had already
    received are not counted. Over those jobs, the count of a job name is
    the number of jobs with conclusion [failure] and that name, the
    failed-step and cancelled-step counts of a step name are the numbers of
    steps of those jobs with that name and conclusion, and the references
    handed to [analyzeLogs] are the ones obtained for those jobs, in their
    order. Counts are [int] values. *)
Theorem X8_detailed_dashboard_totals
    (client : Github.Client) (owner repo : string) (fuel : nat)
    (runs : list Github.WorkflowRun.t) (st : Drilldown.state) (name : string) :
  Drilldown.printDetailedDashboard client owner repo fuel runs = Some st ->
  let jobs := Drilldown.jobs_counted client owner repo fuel (Drilldown.tasks_of runs) in
  (forall job,
      job ∈ jobs
      <-> exists run fetched,
            run ∈ runs
            /\ Github.WorkflowRun.GetConclusion run = "failure"%string
            /\ Fetch.getJobs client owner repo (Github.WorkflowRun.GetID run) fuel
               = Some (fetched, None)
            /\ job ∈ fetched)
  /\ Counts.count_of (Drilldown.failedJobCount st) name
     = Go.wrap64 (Drilldown.jobs_named name jobs)
  /\ Counts.count_of (Drilldown.failedStepCount st) name
     = Go.wrap64 (Drilldown.steps_with "failure" name (Drilldown.failed_steps jobs))
  /\ Counts.count_of (Drilldown.cancelledStepCount st) name
     = Go.wrap64 (Drilldown.steps_with "cancelled" name (Drilldown.failed_steps jobs))
  /\ Drilldown.logsURLs st = Drilldown.logs_of client owner repo jobs.
Proof.
  intros Hrun jobs. unfold Drilldown.printDetailedDashboard in Hrun.
  apply DetailFacts.run_tasks_fold in Hrun. fold jobs in Hrun.
  assert (Hzero : Go.in_int64 (Counts.count_of (∅ : gmap string Z) name)).
  { unfold Counts.count_of. rewrite lookup_empty. simpl. vm_compute.
    split; discriminate. }
  destruct (JobsFacts.record_jobs_counts client owner repo jobs name Drilldown.init
              Hzero Hzero Hzero) as (Hj & Hf & Hc & _).
  rewrite <- Hrun in Hj, Hf, Hc.
  split_and!.
  - intros job. unfold jobs. rewrite DetailFacts.elem_of_jobs_counted. split.
    + intros (runID & fetched & Hin & Hget & Hjob).
      unfold Drilldown.tasks_of in Hin. apply list_elem_of_In, in_map_iff in Hin.
      destruct Hin as (run & <- & Hin). apply list_elem_of_In, list_elem_of_filter in Hin.
      destruct Hin as [Hconc Hin]. apply String.eqb_eq in Hconc.
      by exists run, fetched.
    + intros (run & fetched & Hin & Hconc & Hget & Hjob).
      exists (Github.WorkflowRun.GetID run), fetched. split_and!; try done.
      unfold Drilldown.tasks_of. apply list_elem_of_In, in_map_iff. exists run.
      split; [done|]. apply list_elem_of_In, list_elem_of_filter.
      split; [by apply String.eqb_eq|done].
  - rewrite Hj. unfold Counts.count_of. simpl. by rewrite lookup_empty.
  - rewrite Hf. unfold Counts.count_of. simpl. by rewrite lookup_empty.
  - rewrite Hc. unfold Counts.count_of. simpl. by rewrite lookup_empty.
  - rewrite Hrun, DetailFacts.record_jobs_logs. done.
Qed.

Lemma X8_detailed_dashboard_totals_witness :
  exists st,
    Drilldown.printDetailedDashboard Samples.steady_client "cilium" "cilium" 5
      Samples.mixed_runs = Some st
    /\ Counts.count_of (Drilldown.failedJobCount st) "build"
       = Go.wrap64 (Drilldown.jobs_named "build"
                      (Drilldown.jobs_counted Samples.steady_client "cilium" "cilium" 5
                         (Drilldown.tasks_of Samples.mixed_runs)))
    /\ Counts.count_of (Drilldown.failedJobCount st) "build" = 2
    /\ Drilldown.logsURLs st
       = ["https://logs.example/11"; "https://logs.example/11"]%string.
Proof.
  assert (Hrun : exists st,
             Drilldown.printDetailedDashboard Samples.steady_client "cilium" "cilium" 5
               Samples.mixed_runs = Some st).
  { eexists. vm_compute. reflexivity. }
  destruct Hrun as [st Hrun]. exists st. split; [exact Hrun|].
  destruct (X8_detailed_dashboard_totals Samples.steady_client "cilium" "cilium" 5
              Samples.mixed_runs st "build" Hrun) as (_ & Hj & _ & _ & Hl).
  split; [exact Hj|]. split.
  - etrans; [exact Hj|]. vm_compute. reflexivity.
  - etrans; [exact Hl|]. vm_compute. reflexivity.
Defined.

(* ===================================================================== *)
(** * The log miner over all references                                   *)
(* ===================================================================== *)

Module LogsFacts.
Import Go GoFacts Counts CountFacts LogMiner.

Lemma record_tests_urls logsURL matches :
  forall st,
    errorURLs (fold_left (record_test logsURL) matches st)
    = errorURLs st
      ++ map (fun _ => logsURL)
           (filter (fun name => name = "check-log-errors"%string) (captures matches)).
Proof.
  induction matches as [|m matches IH]; intros st; simpl.
  - by rewrite app_nil_r.
  - rewrite IH. unfold captures. simpl.
    destruct m as [|whole [|name [|other m]]]; simpl; try done.
    rewrite filter_cons.
    destruct (String.eqb_spec name "check-log-errors") as [->|Hne].
    + rewrite decide_True by done. simpl. by rewrite <- app_assoc.
    + by rewrite decide_False.
Qed.

(** What one retrieved body adds. *)
Lemma mine_body_fields logsURL body st :
  failedTestCount (mine_body logsURL body st)
  = fold_left (fun m name => bump name m) (tests_of body) (failedTestCount st)
  /\ errors (mine_body logsURL body st) = errors st ++ errors_of body
  /\ errorURLs (mine_body logsURL body st)
     = errorURLs st ++ map (fun _ => logsURL) (sentinel_reports body).
Proof.
  unfold mine_body.
  set (tests := Regexp.FindAllStringSubmatch Regexp.test_here body 10000).
  set (errs := Regexp.FindAllStringSubmatch Regexp.error_here body 10000).
  destruct (MinerFacts.record_errors_table errs
              (fold_left (record_test logsURL) tests st)) as (-> & -> & ->).
  destruct (MinerFacts.record_tests_table logsURL tests st) as (-> & ->).
  by rewrite record_tests_urls.
Qed.

Section Http.
Variable http_get : string -> Github.error + string.

Lemma retrieved_cons logsURL logsURLs :
  retrieved http_get (logsURL :: logsURLs)
  = match http_get logsURL with
    | inr body => (logsURL, body) :: retrieved http_get logsURLs
    | inl _ => retrieved http_get logsURLs
    end.
Proof. unfold retrieved. simpl. by destruct (http_get logsURL). Qed.

(** The references one after the other. *)
Lemma worker_tasks_fields logsURLs :
  forall st,
    let st' := fold_left (worker_task http_get) logsURLs st in
    failedTestCount st'
    = fold_left (fun m name => bump name m)
        (flat_map (fun ub => tests_of (snd ub)) (retrieved http_get logsURLs))
        (failedTestCount st)
    /\ errors st'
       = errors st
         ++ flat_map (fun ub => errors_of (snd ub)) (retrieved http_get logsURLs)
    /\ errorURLs st'
       = errorURLs st
         ++ flat_map (fun ub => map (fun _ => fst ub) (sentinel_reports (snd ub)))
              (retrieved http_get logsURLs).
Proof.
  induction logsURLs as [|logsURL logsURLs IH]; intros st; cbn [fold_left].
  - simpl. by rewrite !app_nil_r.
  - destruct (IH (worker_task http_get st logsURL)) as (-> & -> & ->).
    rewrite retrieved_cons. unfold worker_task.
    destruct (http_get logsURL) as [err|body]; [done|]. simpl.
    destruct (mine_body_fields logsURL body st) as (-> & -> & ->).
    by rewrite fold_left_app, <- !app_assoc.
Qed.

Lemma retrieved_again logsURLs :
  retrieved http_get (map fst (retrieved http_get logsURLs))
  = retrieved http_get logsURLs.
Proof.
  induction logsURLs as [|logsURL logsURLs IH]; [done|].
  rewrite retrieved_cons. destruct (http_get logsURL) as [err|body] eqn:E; [done|].
  rewrite map_cons. cbn [fst]. rewrite retrieved_cons, E. by rewrite IH.
Qed.

Lemma elem_of_retrieved logsURLs logsURL body :
  (logsURL, body) ∈ retrieved http_get logsURLs
  <-> logsURL ∈ logsURLs /\ http_get logsURL = inr body.
Proof.
  unfold retrieved. rewrite list_elem_of_omap. split.
  - intros (url & Hin & Hget). destruct (http_get url) as [err|b] eqn:E; [done|].
    injection Hget as <- <-. done.
  - intros [Hin Hget]. exists logsURL. by rewrite Hget.
Qed.
End Http.
End LogsFacts.

(** X9: [analyzeLogs] skips the references whose body could not be
    retrieved: the two tables and the list of diagnostic locators are those
    of the retrieved references alone. The count of a test name is the
    number of times the first pattern captures that name in the retrieved
    bodies, as an [int]; the texts searched for a message are the matches of
    the second pattern in those bodies, body after body; and a reference is
    among the diagnostic locators exactly when its body was retrieved and
    reports the test [check-log-errors], once per such report. *)
Theorem X9_log_analysis_over_retrieved_bodies
    (http_get : string -> Github.error + string) (logsURLs : list string) :
  let bodies := LogMiner.retrieved http_get logsURLs in
  let st := fold_left (LogMiner.worker_task http_get) logsURLs LogMiner.init in
  LogMiner.analyzeLogs http_get logsURLs = LogMiner.analyzeLogs http_get (map fst bodies)
  /\ LogMiner.analyzeLogs http_get logsURLs
     = (LogMiner.failedTestCount st, LogMiner.errorLogCount_of (LogMiner.errors st),
        LogMiner.errorURLs st)
  /\ (forall name,
         Counts.count_of (LogMiner.failedTestCount st) name
         = Go.wrap64 (Go.len (filter (fun test => test = name)
                                (flat_map (fun ub => LogMiner.tests_of (snd ub)) bodies))))
  /\ LogMiner.errors st = flat_map (fun ub => LogMiner.errors_of (snd ub)) bodies
  /\ LogMiner.errorURLs st
     = flat_map (fun ub => map (fun _ => fst ub) (LogMiner.sentinel_reports (snd ub)))
         bodies
  /\ (forall logsURL,
         logsURL ∈ LogMiner.errorURLs st
         <-> logsURL ∈ logsURLs
             /\ exists body, http_get logsURL = inr body
                             /\ "check-log-errors"%string ∈ LogMiner.tests_of body).
Proof.
  intros bodies st.
  destruct (LogsFacts.worker_tasks_fields http_get logsURLs LogMiner.init)
    as (Ht & He & Hu).
  fold st in Ht, He, Hu. fold bodies in Ht, He, Hu. simpl in Ht, He, Hu.
  split_and!.
  - unfold LogMiner.analyzeLogs.
    destruct (LogsFacts.worker_tasks_fields http_get (map fst bodies) LogMiner.init)
      as (Ht' & He' & Hu').
    cbv zeta in Ht', He', Hu'. subst st bodies.
    rewrite LogsFacts.retrieved_again in Ht', He', Hu'.
    rewrite Ht', He', Hu', Ht, He, Hu. done.
  - done.
  - intros name. rewrite Ht.
    rewrite (CountFacts.count_of_bumps (fun test : string => test)).
    + unfold Counts.count_of. rewrite lookup_empty. done.
    + unfold Counts.count_of. rewrite lookup_empty. simpl. vm_compute.
      split; discriminate.
  - done.
  - done.
  - intros logsURL. rewrite Hu, list_elem_of_In, in_flat_map. split.
    + intros ([url body] & Hin & Hrep). simpl in Hrep.
      apply in_map_iff in Hrep. destruct Hrep as (test & <- & Htest).
      apply list_elem_of_In in Hin, Htest.
      apply LogsFacts.elem_of_retrieved in Hin. destruct Hin as [Hin Hget].
      split; [done|]. exists body. split; [done|].
      unfold LogMiner.sentinel_reports in Htest.
      apply list_elem_of_filter in Htest. destruct Htest as [-> Htest]. done.
    + intros (Hin & body & Hget & Htest). exists (logsURL, body). split.
      * apply list_elem_of_In, LogsFacts.elem_of_retrieved. done.
      * simpl. apply in_map_iff. exists "check-log-errors"%string. split; [done|].
        apply list_elem_of_In. unfold LogMiner.sentinel_reports.
        apply list_elem_of_filter. done.
Qed.

(* ===================================================================== *)
(** * The workers of [showCmd] and the workflows in the order sent        *)
(* ===================================================================== *)

Module CollectFacts.
Import Github ShowCmd.

Section Cmd.
Variable client : Client.
Variables (owner repo branch event : string) (numRuns : Z) (created : string).
Variable fuel : nat.

Local Notation "'work'" := (workFn client owner repo branch event numRuns created fuel).
Local Notation "'task'" :=
  (worker_task client owner repo branch event numRuns created fuel).

(** One workflow: the entry is written when the fetch returns no error. *)
Lemma worker_task_lookup m workflow m' :
  task m workflow = Some m' ->
  forall w,
    m' !! w = if decide (w = workflow)
              then match work w with Some runs => Some runs | None => m !! w end
              else m !! w.
Proof.
  unfold worker_task, workFn. intros Htask w.
  destruct (decide (w = workflow)) as [->|Hne].
  - destruct (Fetch.getWorkflowRuns _ _ _ workflow _ _ _ _ _) as [[runs [err|]]|];
      [| |done]; injection Htask as <-; [done|]. by rewrite lookup_insert_eq.
  - destruct (Fetch.getWorkflowRuns _ _ _ workflow _ _ _ _ _) as [[runs [err|]]|];
      [| |done]; injection Htask as <-; [done|]. by rewrite lookup_insert_ne.
Qed.

Lemma collect_lookup workflows :
  forall m result,
    collect client owner repo branch event numRuns created fuel m workflows
    = Some result ->
    forall w,
      result !! w = if decide (w ∈ workflows)
                    then match work w with Some runs => Some runs | None => m !! w end
                    else m !! w.
Proof.
  induction workflows as [|workflow workflows IH]; intros m result Hc w; simpl in Hc.
  - injection Hc as <-. rewrite decide_False; [done|]. apply not_elem_of_nil.
  - destruct (task m workflow) as [m1|] eqn:Htask; [|done].
    rewrite (IH _ _ Hc w). pose proof (worker_task_lookup _ _ _ Htask w) as Hm1.
    destruct (decide (w ∈ workflows)) as [Hin|Hout].
    + rewrite decide_True by (by right).
      destruct (work w) as [runs|] eqn:Hw; [done|]. rewrite Hm1.
      by destruct (decide (w = workflow)).
    + rewrite Hm1. destruct (decide (w = workflow)) as [->|Hne].
      * rewrite decide_True by left. done.
      * rewrite decide_False; [done|]. rewrite elem_of_cons. tauto.
Qed.
End Cmd.
End CollectFacts.

(** X10: the map that the workers of [showCmd] have filled when
    [wg.Wait()] returns does not depend on the number of workers or on the
    order in which they received the workflows and stored the runs: it is
    the map obtained by fetching the workflows one after the other in the
    order in which they are sent. *)
Theorem X10_workers_fill_the_sequential_map
    (client : Github.Client) (owner repo branch event : string) (numRuns : Z)
    (created : string) (fuel : nat) (workflows : list string) (k : nat)
    (result : gmap string (list Github.WorkflowRun.t))
    (s : @Pool.state string (list Github.WorkflowRun.t) _ _) :
  ShowCmd.collect client owner repo branch event numRuns created fuel ∅ workflows
  = Some result ->
  rtc (Pool.step (ShowCmd.workFn client owner repo branch event numRuns created fuel))
      (Pool.init k workflows) s ->
  Pool.finished s ->
  Pool.result s = result.
Proof.
  intros Hc Hreach Hfin.
  pose proof (PoolFacts.inv_reachable _ workflows k s Hreach) as Hinv.
  destruct (PoolFacts.finished_result _ workflows k s Hinv Hfin) as [_ Hlook].
  apply map_eq. intros w. rewrite Hlook.
  rewrite (CollectFacts.collect_lookup _ _ _ _ _ _ _ _ _ _ _ Hc w).
  destruct (decide (w ∈ workflows)); [|by rewrite lookup_empty].
  destruct (ShowCmd.workFn _ _ _ _ _ _ _ _ w); [done|by rewrite lookup_empty].
Qed.

Lemma X10_workers_fill_the_sequential_map_witness :
  exists s result,
    ShowCmd.collect Samples.steady_client "cilium" "cilium" "main" "schedule" 4
      ">=2024-01-01T00:00:00Z" 5 ∅ ["gke.yaml"%string] = Some result
    /\ rtc (Pool.step (ShowCmd.workFn Samples.steady_client "cilium" "cilium" "main"
                         "schedule" 4 ">=2024-01-01T00:00:00Z" 5))
         (Pool.init 1 ["gke.yaml"%string]) s
    /\ Pool.finished s
    /\ Pool.result s = result.
Proof.
  assert (Hc : exists result,
             ShowCmd.collect Samples.steady_client "cilium" "cilium" "main" "schedule" 4
               ">=2024-01-01T00:00:00Z" 5 ∅ ["gke.yaml"%string] = Some result).
  { eexists. vm_compute. reflexivity. }
  assert (Hw : exists runs,
             ShowCmd.workFn Samples.steady_client "cilium" "cilium" "main" "schedule" 4
               ">=2024-01-01T00:00:00Z" 5 "gke.yaml" = Some runs).
  { eexists. vm_compute. reflexivity. }
  destruct Hc as [result Hc]. destruct Hw as [runs Hw].
  assert (Hrun : exists s,
             rtc (Pool.step (ShowCmd.workFn Samples.steady_client "cilium" "cilium" "main"
                               "schedule" 4 ">=2024-01-01T00:00:00Z" 5))
               (Pool.init 1 ["gke.yaml"%string]) s
             /\ Pool.finished s).
  { eexists. split.
    - eapply rtc_l; [eapply (Pool.step_send _ _ 0%nat); reflexivity|].
      eapply rtc_l; [eapply (Pool.step_store _ _ 0%nat); [reflexivity|exact Hw]|].
      eapply rtc_l; [eapply Pool.step_close; reflexivity|].
      eapply rtc_l; [eapply (Pool.step_exit _ _ 0%nat); reflexivity|].
      apply rtc_refl.
    - split; [reflexivity|]. repeat constructor. }
  destruct Hrun as (s & Hreach & Hfin).
  exists s, result. split; [exact Hc|]. split; [exact Hreach|]. split; [exact Hfin|].
  exact (X10_workers_fill_the_sequential_map Samples.steady_client "cilium" "cilium"
           "main" "schedule" 4 ">=2024-01-01T00:00:00Z" 5 ["gke.yaml"%string] 1
           result s Hc Hreach Hfin).
Defined.

(* ===================================================================== *)
(** * [RunE] of [showCmd], from the flags to the map                      *)
(* ===================================================================== *)

Module RunEFacts.
Import Go GoFacts Github Fetch ShowCmd.

Section Cmd.
Variable client : Client.
Variables (owner repo branch event : string) (numRuns : Z) (created : string).
Variable fuel : nat.

(** A fetch of runs that returns no error. *)
Lemma getWorkflowRuns_ok workflow runs :
  0 <= numRuns ->
  getWorkflowRuns client owner repo workflow numRuns branch event created fuel
  = Some (runs, None) ->
  len runs <= numRuns
  /\ Forall (fun run => WorkflowRun.GetConclusion run = "success"%string
                        \/ WorkflowRun.GetConclusion run = "failure"%string) runs.
Proof.
  intros Hcount Hget. unfold getWorkflowRuns in Hget.
  destruct (getWorkflowRuns_traced _ _ _ _ _ _ _ _ _) as [t|] eqn:Ht; [|done].
  simpl in Hget. injection Hget as Hret.
  destruct (FetcherFacts.getWorkflowRuns_traced_walk _ _ _ _ _ _ _ _ _ _ Ht)
    as (e & _ & Hret' & _).
  rewrite Hret in Hret'. destruct e as [err|]; [done|]. simpl in Hret'.
  injection Hret' as ->. unfold capped, slice_to.
  set (fetched := keep_admissible _).
  assert (Hadm : Forall (fun run => WorkflowRun.GetConclusion run = "success"%string
                   \/ WorkflowRun.GetConclusion run = "failure"%string) fetched).
  { apply Forall_forall. intros run Hin. unfold fetched, keep_admissible in Hin.
    apply list_elem_of_filter in Hin. destruct Hin as [Hin _]. unfold admissible in Hin.
    apply orb_true_iff in Hin as [H|H]; apply String.eqb_eq in H; auto. }
  destruct (len fetched >? numRuns) eqn:E.
  - split; [|by apply Forall_take]. unfold len. rewrite length_take. lia.
  - split; [lia|done].
Qed.

(** The entries of the map are the workflows whose fetch returned no
    error. *)
Lemma collect_entries workflows result :
  collect client owner repo branch event numRuns created fuel ∅ workflows
  = Some result ->
  forall workflow runs,
    result !! workflow = Some runs
    <-> workflow ∈ workflows
        /\ getWorkflowRuns client owner repo workflow numRuns branch event created fuel
           = Some (runs, None).
Proof.
  intros Hc workflow runs.
  rewrite (CollectFacts.collect_lookup _ _ _ _ _ _ _ _ _ _ _ Hc workflow).
  assert (Hall : forall w, w ∈ workflows ->
            getWorkflowRuns client owner repo w numRuns branch event created fuel
            <> None).
  { clear workflow runs. revert Hc. generalize (∅ : gmap string (list WorkflowRun.t)).
    induction workflows as [|w0 ws IH]; intros m Hc w Hin; [by apply elem_of_nil in Hin|].
    simpl in Hc. unfold worker_task in Hc at 1.
    apply elem_of_cons in Hin as [->|Hin].
    - by destruct (getWorkflowRuns client owner repo w0 _ _ _ _ _).
    - destruct (getWorkflowRuns client owner repo w0 _ _ _ _ _) as [[r [err|]]|];
        [by eapply IH|by eapply IH|done]. }
  destruct (decide (workflow ∈ workflows)) as [Hin|Hout].
  - specialize (Hall _ Hin). unfold workFn.
    destruct (getWorkflowRuns client owner repo workflow _ _ _ _ _) as [[r [err|]]|];
      [| |done]; rewrite ?lookup_empty; split; try done.
    + by intros [_ [=]].
    + by intros [= ->].
    + by intros [_ [= ->]].
  - rewrite lookup_empty. split; [done|tauto].
Qed.
End Cmd.
End RunEFacts.

(** X11: once the flags are read, [RunE] of [showCmd] returns an error
    only when no workflow is named and the discovery of the workflows
    fails, and fetches no runs then. Otherwise the
    dashboards are detailed exactly when a workflow is named, the
    workflows asked for are the one named or else those discovered, and
    the map has an entry for exactly those of them whose run fetch, with
    the number of runs, the branch, the event and the start-time filter of
    the flags, returned no error: a workflow whose fetch failed is left out
    and the command goes on. With a number of runs that is not negative,
    every entry has at most that many runs, all of conclusion [success] or
    [failure]. *)
Theorem X11_showCmd_map_of_fetched_runs
    (client : Github.Client) (now : Go.Time) (format : Go.Time -> string)
    (owner repo branch event : string) (numRuns days : Z) (fuel : nat)
    (workflowFlag : string)
    (returned : Github.error + gmap string (list Github.WorkflowRun.t) * bool) :
  0 <= numRuns ->
  ShowCmd.showCmd client now format owner repo branch event numRuns days fuel workflowFlag
  = Some returned ->
  match returned with
  | inl err =>
      workflowFlag = EmptyString
      /\ exists names, Fetch.getWorkflows client owner repo fuel = Some (names, Some err)
  | inr (result, details) =>
      exists workflows,
        (if details then workflowFlag <> EmptyString /\ workflows = [workflowFlag]
         else workflowFlag = EmptyString
              /\ Fetch.getWorkflows client owner repo fuel = Some (workflows, None))
        /\ (forall workflow runs,
               result !! workflow = Some runs
               <-> workflow ∈ workflows
                   /\ Fetch.getWorkflowRuns client owner repo workflow numRuns branch event
                        (ShowCmd.daysToTimeRange now format days) fuel
                      = Some (runs, None))
        /\ (forall workflow runs,
               result !! workflow = Some runs ->
               Go.len runs <= numRuns
               /\ Forall (fun run =>
                            Github.WorkflowRun.GetConclusion run = "success"%string
                            \/ Github.WorkflowRun.GetConclusion run = "failure"%string)
                    runs)
  end.
Proof.
  intros Hcount Hshow. unfold ShowCmd.showCmd, ShowCmd.discover in Hshow.
  destruct (String.eqb_spec workflowFlag EmptyString) as [Hflag|Hflag];
    cbn [negb] in Hshow.
  - destruct (Fetch.getWorkflows client owner repo fuel) as [[names [err|]]|] eqn:Hwf;
      [| |done].
    + injection Hshow as <-. split; [done|]. by exists names.
    + destruct (ShowCmd.collect _ _ _ _ _ _ _ _ _ names) as [result|] eqn:Hc; [|done].
      injection Hshow as <-. exists names. split; [done|].
      pose proof (RunEFacts.collect_entries _ _ _ _ _ _ _ _ _ _ Hc) as Hentries.
      split; [exact Hentries|]. intros workflow runs Hlook.
      apply Hentries in Hlook. destruct Hlook as [_ Hget].
      by apply (RunEFacts.getWorkflowRuns_ok _ _ _ _ _ _ _ _ _ _ Hcount Hget).
  - destruct (ShowCmd.collect _ _ _ _ _ _ _ _ _ [workflowFlag]) as [result|] eqn:Hc; [|done].
    injection Hshow as <-. exists [workflowFlag]. split; [done|].
    pose proof (RunEFacts.collect_entries _ _ _ _ _ _ _ _ _ _ Hc) as Hentries.
    split; [exact Hentries|]. intros workflow runs Hlook.
    apply Hentries in Hlook. destruct Hlook as [_ Hget].
    by apply (RunEFacts.getWorkflowRuns_ok _ _ _ _ _ _ _ _ _ _ Hcount Hget).
Qed.

Lemma X11_showCmd_map_of_fetched_runs_witness :
  exists returned,
    0 <= 4
    /\ ShowCmd.showCmd Samples.steady_client 0 (fun _ => "2024-01-01T00:00:00Z"%string)
         "cilium" "cilium" "main" "schedule" 4 7 5 "gke.yaml" = Some returned
    /\ match returned with
       | inl _ => False
       | inr (result, details) =>
           details = true
           /\ exists runs, result !! "gke.yaml"%string = Some runs /\ Go.len runs <= 4
       end.
Proof.
  assert (Hshow : exists result,
             ShowCmd.showCmd Samples.steady_client 0
               (fun _ => "2024-01-01T00:00:00Z"%string)
               "cilium" "cilium" "main" "schedule" 4 7 5 "gke.yaml"
             = Some (inr (result, true))
             /\ is_Some (result !! "gke.yaml"%string)).
  { eexists. split; [vm_compute; reflexivity|]. vm_compute. eexists. reflexivity. }
  destruct Hshow as (result & Hshow & [runs Hruns]).
  exists (inr (result, true)). split; [lia|]. split; [exact Hshow|].
  split; [reflexivity|]. exists runs. split; [exact Hruns|].
  destruct (X11_showCmd_map_of_fetched_runs Samples.steady_client 0
              (fun _ => "2024-01-01T00:00:00Z"%string)
              "cilium" "cilium" "main" "schedule" 4 7 5 "gke.yaml" _
              ltac:(lia) Hshow) as (workflows & _ & _ & Hruns_ok).
  exact (proj1 (Hruns_ok _ _ Hruns)).
Defined.

(* ===================================================================== *)
(** * The names that [getWorkflows] returns                               *)
(* ===================================================================== *)

Module BaseFacts.
Import GoPath StringFacts.
Local Open Scope string_scope.

Lemma list_of_app (a b : string) :
  list_ascii_of_string (a ++ b) = (list_ascii_of_string a ++ list_ascii_of_string b)%list.
Proof. induction a as [|x a IH]; sred; [done|]. by rewrite IH. Qed.

Lemma last_element_no_slash l : slash ∉ last_element l.
Proof.
  induction l as [|c l IH]; simpl; [apply not_elem_of_nil|].
  destruct (Ascii.eqb_spec c slash) as [->|Hne]; [apply not_elem_of_nil|].
  rewrite elem_of_cons. intros [Heq|Hin]; [by symmetry in Heq|done].
Qed.

Lemma last_element_app l r : slash ∉ l -> last_element (l ++ slash :: r) = l.
Proof.
  induction l as [|c l IH]; intros Hno; simpl.
  - done.
  - rewrite not_elem_of_cons in Hno. destruct Hno as [Hc Hl].
    destruct (Ascii.eqb_spec c slash) as [->|_]; [done|]. by rewrite IH.
Qed.

Lemma strip_slashes_head l : slash ∉ l -> strip_slashes l = l.
Proof.
  destruct l as [|c l]; [done|]. intros Hno. simpl.
  rewrite not_elem_of_cons in Hno. destruct Hno as [Hc _].
  by destruct (Ascii.eqb_spec c slash) as [->|_].
Qed.

Lemma strip_slashes_app l r : l <> [] -> slash ∉ l -> strip_slashes (l ++ r) = (l ++ r)%list.
Proof.
  destruct l as [|c l]; [done|]. intros _ Hno. simpl.
  rewrite not_elem_of_cons in Hno. destruct Hno as [Hc _].
  by destruct (Ascii.eqb_spec c slash) as [->|_].
Qed.

Lemma string_of_list_nonempty l : l <> [] -> string_of_list_ascii l <> EmptyString.
Proof. by destruct l. Qed.

(** The base name is never empty. *)
Lemma Base_nonempty path : Base path <> EmptyString.
Proof.
  unfold Base. destruct path as [|c path]; [done|].
  destruct (last_element _) as [|d q] eqn:E; [done|].
  apply string_of_list_nonempty. intros Hnil.
  apply (f_equal (@length ascii)) in Hnil. rewrite length_rev in Hnil. done.
Qed.

(** It is the lone slash or has no slash. *)
Lemma Base_no_slash path :
  Base path = "/" \/ slash ∉ list_ascii_of_string (Base path).
Proof.
  unfold Base. destruct path as [|c path].
  - right. simpl. rewrite elem_of_cons. intros [Heq|Hin]; [done|].
    by apply elem_of_nil in Hin.
  - destruct (last_element _) as [|d q] eqn:E; [by left|]. right.
    rewrite list_ascii_of_string_of_list_ascii, list_elem_of_In, <- in_rev,
      <- list_elem_of_In, <- E.
    apply last_element_no_slash.
Qed.

Lemma Base_of_nonempty path :
  path <> EmptyString ->
  Base path
  = match last_element (strip_slashes (rev (list_ascii_of_string path))) with
    | [] => "/"
    | p => string_of_list_ascii (rev p)
    end.
Proof.
  intros Hne. destruct path as [|c path]; [done|]. unfold Base. cbv zeta.
  by destruct (last_element _).
Qed.

Lemma list_of_path dir file :
  list_ascii_of_string (dir ++ "/" ++ file)
  = (list_ascii_of_string dir ++ slash :: list_ascii_of_string file)%list.
Proof. by rewrite list_of_app. Qed.

(** The base name of a file in a directory is the name of the file. *)
Lemma Base_file dir file :
  file <> EmptyString -> slash ∉ list_ascii_of_string file ->
  Base (dir ++ "/" ++ file) = file.
Proof.
  intros Hne Hno.
  assert (Hrev : slash ∉ rev (list_ascii_of_string file)).
  { by rewrite list_elem_of_In, <- in_rev, <- list_elem_of_In. }
  assert (Hlist : rev (list_ascii_of_string file) <> []).
  { intros Hnil. apply (f_equal (@rev ascii)) in Hnil. rewrite rev_involutive in Hnil.
    simpl in Hnil. apply Hne. rewrite <- (string_of_list_ascii_of_string file).
    by rewrite Hnil. }
  rewrite Base_of_nonempty.
  - rewrite list_of_path, rev_app_distr. cbn [rev]. rewrite <- app_assoc. cbn [app].
    rewrite strip_slashes_app, last_element_app by done.
    destruct (rev (list_ascii_of_string file)) as [|c q] eqn:E; [done|].
    change (rev q ++ [c])%list with (rev (c :: q)).
    rewrite <- E, rev_involutive. apply string_of_list_ascii_of_string.
  - intros Hnil. apply (f_equal list_ascii_of_string) in Hnil.
    rewrite list_of_path in Hnil. by destruct (list_ascii_of_string dir).
Qed.
End BaseFacts.

(** X12: every name that [getWorkflows] returns is the base name of the
    path of a workflow received: it is not empty, and it has no slash
    unless it is the lone slash; a workflow whose path is a directory, a
    slash and a file name without slash has that file name among the names
    returned, so the name can be passed on as the workflow file of a run
    fetch. *)
Theorem X12_workflow_names_are_file_names
    (client : Github.Client) (owner repo : string) (fuel : nat)
    (t : Fetch.traced Github.ListOptions Github.Workflow.t (list string)) :
  Fetch.getWorkflows_traced client owner repo fuel = Some t ->
  snd (Fetch.returned t) = None ->
  let names := fst (Fetch.returned t) in
  Forall (fun name =>
            name <> EmptyString
            /\ (name = "/"%string \/ GoPath.slash ∉ list_ascii_of_string name)
            /\ exists workflow,
                 workflow ∈ Fetch.pages_of (Fetch.exchanges t)
                 /\ name = GoPath.Base (Github.Workflow.GetPath workflow)) names
  /\ (forall workflow dir file,
         workflow ∈ Fetch.pages_of (Fetch.exchanges t) ->
         Github.Workflow.GetPath workflow = (dir ++ "/" ++ file)%string ->
         file <> EmptyString ->
         GoPath.slash ∉ list_ascii_of_string file ->
         file ∈ names).
Proof.
  intros Hrun Hnone names.
  destruct (FetcherFacts.getWorkflows_traced_walk _ _ _ _ _ Hrun) as (e & _ & Hret & _).
  rewrite Hret in Hnone. destruct e as [err|]; [done|].
  assert (Hnames : names = Fetch.filepaths_of (Fetch.pages_of (Fetch.exchanges t))).
  { unfold names. by rewrite Hret. }
  assert (Hperm : names ≡ₚ map (fun workflow => GoPath.Base (Github.Workflow.GetPath workflow))
                             (Fetch.pages_of (Fetch.exchanges t))).
  { rewrite Hnames. apply SortFacts.Sort_perm. }
  split.
  - apply Forall_forall. intros name Hin. rewrite Hperm in Hin.
    apply list_elem_of_In, in_map_iff in Hin. destruct Hin as (workflow & <- & Hin).
    split_and!.
    + apply BaseFacts.Base_nonempty.
    + apply BaseFacts.Base_no_slash.
    + exists workflow. by rewrite list_elem_of_In.
  - intros workflow dir file Hin Hpath Hne Hno. rewrite Hperm.
    apply list_elem_of_In, in_map_iff. exists workflow.
    rewrite Hpath, BaseFacts.Base_file by done. by rewrite <- list_elem_of_In.
Qed.

Lemma X12_workflow_names_are_file_names_witness :
  exists t,
    Fetch.getWorkflows_traced Samples.steady_client "cilium" "cilium" 5 = Some t
    /\ snd (Fetch.returned t) = None
    /\ Forall (fun name =>
                 name <> EmptyString
                 /\ (name = "/"%string \/ GoPath.slash ∉ list_ascii_of_string name)
                 /\ exists workflow,
                      workflow ∈ Fetch.pages_of (Fetch.exchanges t)
                      /\ name = GoPath.Base (Github.Workflow.GetPath workflow))
         (fst (Fetch.returned t))
    /\ fst (Fetch.returned t) = ["aks.yaml"; "eks.yaml"; "gke.yaml"]%string.
Proof.
  assert (Hrun : exists t,
             Fetch.getWorkflows_traced Samples.steady_client "cilium" "cilium" 5 = Some t
             /\ snd (Fetch.returned t) = None
             /\ fst (Fetch.returned t) = ["aks.yaml"; "eks.yaml"; "gke.yaml"]%string).
  { eexists. split; [vm_compute; reflexivity|]. split; reflexivity. }
  destruct Hrun as (t & Hrun & Hnone & Hnames).
  exists t. split; [exact Hrun|]. split; [exact Hnone|]. split; [|exact Hnames].
  exact (proj1 (X12_workflow_names_are_file_names Samples.steady_client "cilium" "cilium"
                  5 t Hrun Hnone)).
Defined.

(* ===================================================================== *)
(** * The shared tables and the order of the critical sections            *)
(* ===================================================================== *)

Module OrderFacts.
Import Go GoFacts Github Counts CountFacts.

Lemma bump_insert name m :
  bump name m
  = <[name := match m !! name with Some count => wrap64 (count + 1) | None => 1 end]> m.
Proof. unfold bump. by destruct (m !! name). Qed.

(** Two increments commute. *)
Lemma bump_comm a b m : bump a (bump b m) = bump b (bump a m).
Proof.
  destruct (decide (a = b)) as [->|Hne]; [done|].
  rewrite (bump_insert a (bump b m)), (bump_insert b (bump a m)).
  rewrite (lookup_bump_ne m b a), (lookup_bump_ne m a b) by done.
  rewrite (bump_insert a m), (bump_insert b m). by apply insert_insert_ne.
Qed.

(** So a table depends on the names counted, not on their order. *)
Lemma bumps_perm (names names' : list string) :
  names ≡ₚ names' ->
  forall m, fold_left (fun m name => bump name m) names m
            = fold_left (fun m name => bump name m) names' m.
Proof.
  induction 1 as [|x l l' Hl IH|x y l|l l' l'' H1 IH1 H2 IH2]; intros m; simpl.
  - done.
  - apply IH.
  - by rewrite bump_comm.
  - by rewrite IH1.
Qed.

Lemma flat_map_perm {A B} (f : A -> list B) l l' :
  l ≡ₚ l' -> flat_map f l ≡ₚ flat_map f l'.
Proof.
  induction 1 as [|x k k' Hk IH|x y k|k k' k'' H1 IH1 H2 IH2]; simpl.
  - done.
  - by rewrite IH.
  - rewrite !app_assoc. f_equiv. apply Permutation_app_comm.
  - by rewrite IH1.
Qed.

Lemma map_perm {A B} (f : A -> B) l l' : l ≡ₚ l' -> map f l ≡ₚ map f l'.
Proof. apply Permutation_map. Qed.

Section Drilldown.
Import Drilldown.
Variable client : Client.
Variables owner repo : string.

(** The names that the steps of a job add to the two step tables. *)
Lemma record_steps_fields steps :
  forall st,
    let st' := fold_left record_step steps st in
    failedJobCount st' = failedJobCount st
    /\ failedStepCount st'
       = fold_left (fun m name => bump name m)
           (map TaskStep.GetName
              (filter (fun step => TaskStep.GetConclusion step = "failure"%string) steps))
           (failedStepCount st)
    /\ cancelledStepCount st'
       = fold_left (fun m name => bump name m)
           (map TaskStep.GetName
              (filter (fun step => TaskStep.GetConclusion step = "cancelled"%string) steps))
           (cancelledStepCount st).
Proof.
  induction steps as [|step steps IH]; intros st; simpl; [done|].
  destruct (IH (record_step st step)) as (-> & -> & ->).
  rewrite !filter_cons. unfold record_step.
  destruct (String.eqb_spec (TaskStep.GetConclusion step) "failure") as [Hf|Hf].
  - rewrite decide_True by done. rewrite decide_False by (by rewrite Hf). done.
  - rewrite decide_False by done.
    destruct (String.eqb_spec (TaskStep.GetConclusion step) "cancelled") as [Hc|Hc].
    + rewrite decide_True by done. done.
    + rewrite decide_False by done. done.
Qed.

(** The names that the jobs add to the three tables. *)
Lemma record_jobs_fields jobs :
  forall st,
    let st' := fold_left (record_job client owner repo) jobs st in
    failedJobCount st'
    = fold_left (fun m name => bump name m)
        (map WorkflowJob.GetName (failed_jobs jobs)) (failedJobCount st)
    /\ failedStepCount st'
       = fold_left (fun m name => bump name m)
           (map TaskStep.GetName
              (filter (fun step => TaskStep.GetConclusion step = "failure"%string)
                 (failed_steps jobs)))
           (failedStepCount st)
    /\ cancelledStepCount st'
       = fold_left (fun m name => bump name m)
           (map TaskStep.GetName
              (filter (fun step => TaskStep.GetConclusion step = "cancelled"%string)
                 (failed_steps jobs)))
           (cancelledStepCount st).
Proof.
  induction jobs as [|job jobs IH]; intros st; simpl; [done|].
  destruct (IH (record_job client owner repo st job)) as (-> & -> & ->).
  unfold failed_steps, failed_jobs. rewrite filter_cons. unfold record_job.
  destruct (String.eqb_spec (WorkflowJob.GetConclusion job) "failure") as [Hf|Hf].
  - rewrite decide_True by done.
    match goal with
    | |- context [fold_left record_step _ ?s] => set (st1 := s)
    end.
    destruct (record_steps_fields (WorkflowJob.Steps job) st1) as (-> & -> & ->).
    simpl flat_map. rewrite !filter_app, !map_app, !fold_left_app. subst st1. simpl.
    by destruct (GetWorkflowJobLogs client owner repo (WorkflowJob.GetID job) 10).
  - rewrite decide_False by done. done.
Qed.

Lemma failed_jobs_perm jobs jobs' : jobs ≡ₚ jobs' -> failed_jobs jobs ≡ₚ failed_jobs jobs'.
Proof. intros Hp. unfold failed_jobs. by rewrite Hp. Qed.

Lemma logs_of_perm jobs jobs' :
  jobs ≡ₚ jobs' -> logs_of client owner repo jobs ≡ₚ logs_of client owner repo jobs'.
Proof.
  intros Hp. unfold logs_of. apply failed_jobs_perm in Hp.
  induction Hp as [|x k k' Hk IH|x y k|k k' k'' H1 IH1 H2 IH2]; simpl.
  - done.
  - destruct (GetWorkflowJobLogs _ _ _ _ _); [done|]. simpl. by rewrite IH.
  - destruct (GetWorkflowJobLogs client owner repo (WorkflowJob.GetID x) 10),
      (GetWorkflowJobLogs client owner repo (WorkflowJob.GetID y) 10); simpl; try done.
    apply perm_swap.
  - by rewrite IH1.
Qed.
End Drilldown.
End OrderFacts.

(** X13: the workers of [printDetailedDashboard] update the three tables
    one job at a time under [mux], in an order that the schedule decides.
    Whatever that order, the three tables at [wg.Wait()] are the same maps,
    those of the jobs taken task after task, and the references handed to
    [analyzeLogs] are the same up to their order. *)
Theorem X13_drilldown_tables_any_schedule
    (client : Github.Client) (owner repo : string) (fuel : nat)
    (runs : list Github.WorkflowRun.t) (st : Drilldown.state)
    (jobs : list Github.WorkflowJob.t) :
  Drilldown.printDetailedDashboard client owner repo fuel runs = Some st ->
  jobs ≡ₚ Drilldown.jobs_counted client owner repo fuel (Drilldown.tasks_of runs) ->
  let st' := fold_left (Drilldown.record_job client owner repo) jobs Drilldown.init in
  Drilldown.failedJobCount st' = Drilldown.failedJobCount st
  /\ Drilldown.failedStepCount st' = Drilldown.failedStepCount st
  /\ Drilldown.cancelledStepCount st' = Drilldown.cancelledStepCount st
  /\ Drilldown.logsURLs st' ≡ₚ Drilldown.logsURLs st.
Proof.
  intros Hrun Hperm st'. unfold Drilldown.printDetailedDashboard in Hrun.
  apply DetailFacts.run_tasks_fold in Hrun.
  set (counted := Drilldown.jobs_counted _ _ _ _ _) in *.
  destruct (OrderFacts.record_jobs_fields client owner repo jobs Drilldown.init)
    as (Hj' & Hf' & Hc').
  destruct (OrderFacts.record_jobs_fields client owner repo counted Drilldown.init)
    as (Hj & Hf & Hc).
  fold st' in Hj', Hf', Hc'. rewrite <- Hrun in Hj, Hf, Hc.
  pose proof (OrderFacts.failed_jobs_perm _ _ Hperm) as Hfailed.
  pose proof (JobsFacts.failed_steps_perm _ _ Hperm) as Hsteps.
  split_and!.
  - rewrite Hj', Hj. apply OrderFacts.bumps_perm. by rewrite Hfailed.
  - rewrite Hf', Hf. apply OrderFacts.bumps_perm. by rewrite Hsteps.
  - rewrite Hc', Hc. apply OrderFacts.bumps_perm. by rewrite Hsteps.
  - unfold st'. rewrite Hrun, !DetailFacts.record_jobs_logs. simpl.
    by apply OrderFacts.logs_of_perm.
Qed.

Lemma X13_drilldown_tables_any_schedule_witness :
  exists st,
    let jobs := rev (Drilldown.jobs_counted Samples.steady_client "cilium" "cilium" 5
                       (Drilldown.tasks_of Samples.mixed_runs)) in
    Drilldown.printDetailedDashboard Samples.steady_client "cilium" "cilium" 5
      Samples.mixed_runs = Some st
    /\ jobs ≡ₚ Drilldown.jobs_counted Samples.steady_client "cilium" "cilium" 5
                 (Drilldown.tasks_of Samples.mixed_runs)
    /\ Drilldown.failedJobCount
         (fold_left (Drilldown.record_job Samples.steady_client "cilium" "cilium") jobs
            Drilldown.init)
       = Drilldown.failedJobCount st.
Proof.
  assert (Hrun : exists st,
             Drilldown.printDetailedDashboard Samples.steady_client "cilium" "cilium" 5
               Samples.mixed_runs = Some st).
  { eexists. vm_compute. reflexivity. }
  destruct Hrun as [st Hrun]. exists st. intros jobs.
  assert (Hperm : jobs ≡ₚ Drilldown.jobs_counted Samples.steady_client "cilium" "cilium" 5
                            (Drilldown.tasks_of Samples.mixed_runs)).
  { unfold jobs. symmetry. apply Permutation_rev. }
  split; [exact Hrun|]. split; [exact Hperm|].
  exact (proj1 (X13_drilldown_tables_any_schedule Samples.steady_client "cilium" "cilium"
                  5 Samples.mixed_runs st jobs Hrun Hperm)).
Defined.

Module LogOrderFacts.
Import Go GoFacts Counts CountFacts LogMiner.

Lemma omap_perm {A B} (f : A -> option B) l l' : l ≡ₚ l' -> omap f l ≡ₚ omap f l'.
Proof.
  induction 1 as [|x k k' Hk IH|x y k|k k' k'' H1 IH1 H2 IH2]; simpl.
  - done.
  - destruct (f x); [by rewrite IH|done].
  - destruct (f x), (f y); try done. apply perm_swap.
  - by rewrite IH1.
Qed.

Lemma payloads_perm errors errors' :
  errors ≡ₚ errors' -> payloads errors ≡ₚ payloads errors'.
Proof.
  intros Hp. unfold payloads, captures. apply omap_perm. by apply Permutation_map.
Qed.

Lemma retrieved_perm http_get logsURLs logsURLs' :
  logsURLs ≡ₚ logsURLs' -> retrieved http_get logsURLs ≡ₚ retrieved http_get logsURLs'.
Proof. apply omap_perm. Qed.
End LogOrderFacts.

(** X14: the workers of [analyzeLogs] mine one body at a time under [mux],
    in an order that the schedule decides. Whatever the order in which
    the references are served, the table of failed tests and the table of
    error messages are the same maps, and the diagnostic locators are the
    same up to their order. *)
Theorem X14_log_tables_any_schedule
    (http_get : string -> Github.error + string) (logsURLs logsURLs' : list string) :
  logsURLs ≡ₚ logsURLs' ->
  let tables := LogMiner.analyzeLogs http_get logsURLs in
  let tables' := LogMiner.analyzeLogs http_get logsURLs' in
  fst (fst tables') = fst (fst tables)
  /\ snd (fst tables') = snd (fst tables)
  /\ snd tables' ≡ₚ snd tables.
Proof.
  intros Hperm tables tables'. unfold tables, tables', LogMiner.analyzeLogs. simpl.
  destruct (LogsFacts.worker_tasks_fields http_get logsURLs LogMiner.init)
    as (Ht & He & Hu).
  destruct (LogsFacts.worker_tasks_fields http_get logsURLs' LogMiner.init)
    as (Ht' & He' & Hu').
  cbv zeta in Ht, He, Hu, Ht', He', Hu'.
  pose proof (LogOrderFacts.retrieved_perm http_get _ _ Hperm) as Hbodies.
  split_and!.
  - rewrite Ht, Ht'. apply OrderFacts.bumps_perm. symmetry.
    by apply OrderFacts.flat_map_perm.
  - unfold LogMiner.errorLogCount_of. rewrite !MinerFacts.errorLogCount_payloads.
    apply OrderFacts.bumps_perm, LogOrderFacts.payloads_perm.
    rewrite He, He'. simpl. symmetry. by apply OrderFacts.flat_map_perm.
  - rewrite Hu, Hu'. simpl. symmetry. by apply OrderFacts.flat_map_perm.
Qed.

Lemma X14_log_tables_any_schedule_witness :
  let http_get := fun logsURL : string =>
                    if String.eqb logsURL "https://logs.example/11"
                    then inr Samples.test_log else inl "gone"%string in
  let logsURLs := ["https://logs.example/11"; "https://logs.example/12"]%string in
  logsURLs ≡ₚ rev logsURLs
  /\ fst (fst (LogMiner.analyzeLogs http_get (rev logsURLs)))
     = fst (fst (LogMiner.analyzeLogs http_get logsURLs))
  /\ Counts.count_of (fst (fst (LogMiner.analyzeLogs http_get logsURLs))) "foo" = 3.
Proof.
  intros http_get logsURLs.
  assert (Hperm : logsURLs ≡ₚ rev logsURLs) by apply Permutation_rev.
  split; [exact Hperm|]. split.
  - exact (proj1 (X14_log_tables_any_schedule http_get logsURLs (rev logsURLs) Hperm)).
  - vm_compute. reflexivity.
Defined.
